(** * PerformanceCacheService: a two-tier cache with per-namespace policies

    Shallow embedding of the performance cache service of the booking
    application (the class [PerformanceCacheService]): a hot tier held in a
    JavaScript [Map], a durable tier held in [AsyncStorage], per-namespace
    policies in the module-level table [CACHE_CONFIGS], and a running byte
    counter.

    Conventions of the embedding.
    - JavaScript numbers that hold integers (timestamps of [Date.now()],
      byte sizes, counters) are [Z].
    - The hot tier is a [Map]: an association list in insertion order, with
      [Map_set] replacing in place and appending new keys, as the
      ECMAScript [Map] does.
    - [AsyncStorage] is a finite map from strings to strings ([gmap]).
    - [async] methods are run to completion one after the other; a rejected
      promise of [AsyncStorage] and a throwing [JSON] call are exceptions of
      the monad [M], caught by [try_catch] where the source has
      [try]/[catch].
    - One call reads one instant of [Date.now()]; the instant, the host
      platform and the faults of the durable store are the fields of [Env]. *)

From Stdlib Require Import ZArith Lia.
From stdpp Require Import base strings list gmap fin_maps pretty sorting.

Open Scope Z_scope.

(** ** Keys *)

(** The separator of key segments. *)
Definition colon : Ascii.ascii := Eval cbv in Ascii.ascii_of_nat 58.

(** [s.split(':')] of JavaScript: the segments between the colons, at least
    one segment, possibly empty ones. *)
Fixpoint split_colon (s : string) : list string :=
  match s with
  | EmptyString => [EmptyString]
  | String c s' =>
      if Ascii.eqb c colon then EmptyString :: split_colon s'
      else match split_colon s' with
           | [] => [String c EmptyString]
           | p :: ps => String c p :: ps
           end
  end.

(** [`cache:${namespace}:${key}`] *)
Definition generateKey (namespace key : string) : string :=
  "cache:" +:+ namespace +:+ ":" +:+ key.

(** [parts[1] || 'default']: a missing or empty second segment is falsy. *)
Definition getNamespaceFromKey (cacheKey : string) : string :=
  match split_colon cacheKey !! 1%nat with
  | Some p => if String.eqb p EmptyString then "default" else p
  | None => "default"
  end.

(** [key.startsWith('cache:')] *)
Definition startsWith_cache (key : string) : bool := String.prefix "cache:" key.

(** ** Data model *)

Inductive Priority := high | medium | low.

#[global] Instance Priority_eq_dec : EqDecision Priority.
Proof. solve_decision. Defined.

(** [{ low: 0, medium: 1, high: 2 }] *)
Definition priorityOrder (p : Priority) : Z :=
  match p with low => 0 | medium => 1 | high => 2 end.

Module CacheConfig.
Record t := mk {
  ttl : Z;
  maxSize : Z;
  priority : Priority;
  persist : bool
}.
End CacheConfig.

Module CacheItem.
Record t (T : Type) := mk {
  data : T;
  timestamp : Z;
  ttl : Z;
  priority : Priority;
  accessCount : Z;
  lastAccessed : Z;
  size : option Z          (* [size?: number] *)
}.
Arguments mk {T}.
Arguments data {T}.
Arguments timestamp {T}.
Arguments ttl {T}.
Arguments priority {T}.
Arguments accessCount {T}.
Arguments lastAccessed {T}.
Arguments size {T}.
End CacheItem.

(** The table [CACHE_CONFIGS] as the module declares it. *)
Definition CACHE_CONFIGS_initial : list (string * CacheConfig.t) :=
  [ ("user",         CacheConfig.mk (24 * 60 * 60 * 1000) 1   high   true);
    ("appointments", CacheConfig.mk (5 * 60 * 1000)       100 high   true);
    ("services",     CacheConfig.mk (30 * 60 * 1000)      50  medium true);
    ("providers",    CacheConfig.mk (15 * 60 * 1000)      200 medium true);
    ("shops",        CacheConfig.mk (60 * 60 * 1000)      100 low    false);
    ("analytics",    CacheConfig.mk (10 * 60 * 1000)      20  low    false);
    ("images",       CacheConfig.mk (60 * 60 * 1000)      50  medium false) ].

Definition default_config : CacheConfig.t :=
  CacheConfig.mk (5 * 60 * 1000) 50 medium false.

(** The table is an object literal, so a lookup [CACHE_CONFIGS[namespace]]
    that finds no own property goes on to [Object.prototype].  These are
    the property names found there (ECMAScript, Annex B included): under
    one of them the lookup yields a function, or the prototype itself, a
    truthy value that has none of the four fields of a policy. *)
Definition Object_prototype_names : list string :=
  [ "constructor"; "hasOwnProperty"; "isPrototypeOf"; "propertyIsEnumerable";
    "toLocaleString"; "toString"; "valueOf"; "__proto__";
    "__defineGetter__"; "__defineSetter__"; "__lookupGetter__"; "__lookupSetter__" ].

Definition inherited (namespace : string) : bool :=
  bool_decide (namespace ∈ Object_prototype_names).

(** ** The JavaScript [Map] of the hot tier *)

Section JsMap.
Context {V : Type}.

Fixpoint Map_get (k : string) (m : list (string * V)) : option V :=
  match m with
  | [] => None
  | (k', v) :: m' => if String.eqb k k' then Some v else Map_get k m'
  end.

Fixpoint Map_set (k : string) (v : V) (m : list (string * V)) : list (string * V) :=
  match m with
  | [] => [(k, v)]
  | (k', v') :: m' =>
      if String.eqb k k' then (k, v) :: m' else (k', v') :: Map_set k v m'
  end.

Fixpoint Map_delete (k : string) (m : list (string * V)) : list (string * V) :=
  match m with
  | [] => []
  | (k', v') :: m' =>
      if String.eqb k k' then Map_delete k m' else (k', v') :: Map_delete k m'
  end.

Definition Map_keys (m : list (string * V)) : list string := m.*1.
End JsMap.

(** ** JSON

    [JSON.stringify] and [JSON.parse] belong to the host.  A payload type
    comes with its serializer ([None]: the call throws, as on a cyclic
    object or a [BigInt]) and with the parser of persisted records
    ([None]: the call throws a [SyntaxError]).  A text that parses is read
    as a record with the fields of [CacheItem]; the service validates no
    other shape. *)
Class JSON (T : Type) := {
  JSON_stringify : T -> option string;
  JSON_parse : string -> option (CacheItem.t T)
}.

(** [d === null] on a payload.  [get] hands the payload of an item back as
    it is, so a caller that compares the result with [null] cannot tell a
    cached [null] from a miss. *)
Class Nullable (T : Type) := is_null : T -> bool.

Definition priority_name (p : Priority) : string :=
  match p with high => "high" | medium => "medium" | low => "low" end.

(** The double-quote character of JSON text. *)
Definition dquote : string := Eval cbv in String (Ascii.ascii_of_nat 34) EmptyString.

(** A member of a JSON object: the quoted name, a colon, the value. *)
Definition json_member (name value : string) : string :=
  dquote +:+ name +:+ dquote +:+ ":" +:+ value.

(** [JSON.stringify(cacheItem)]: the fields of the object literal of [set], in
    their order; it throws when the payload does. *)
Definition JSON_stringify_item `{JSON T} (item : CacheItem.t T) : option string :=
  match JSON_stringify (CacheItem.data item) with
  | None => None
  | Some d =>
      Some ("{" +:+ json_member "data" d
            +:+ "," +:+ json_member "timestamp" (pretty (CacheItem.timestamp item))
            +:+ "," +:+ json_member "ttl" (pretty (CacheItem.ttl item))
            +:+ "," +:+ json_member "priority"
                          (dquote +:+ priority_name (CacheItem.priority item) +:+ dquote)
            +:+ "," +:+ json_member "accessCount" (pretty (CacheItem.accessCount item))
            +:+ "," +:+ json_member "lastAccessed" (pretty (CacheItem.lastAccessed item))
            +:+ match CacheItem.size item with
                | Some n => "," +:+ json_member "size" (pretty n)
                | None => EmptyString
                end
            +:+ "}")
  end.

(** ** The service, its table and the durable store *)

Record CacheStats := mkStats {
  hits : Z;
  misses : Z;
  evictions : Z;
  totalRequests : Z;
  errors : Z
}.

(** The fields of the service object, the mutable table [CACHE_CONFIGS] and
    the contents of [AsyncStorage]. *)
Record World (T : Type) := mkWorld {
  memoryCache : list (string * CacheItem.t T);
  cacheStats : CacheStats;
  isInitialized : bool;
  maxMemorySize : Z;
  currentMemorySize : Z;
  CACHE_CONFIGS : list (string * CacheConfig.t);
  AsyncStorage : gmap string string
}.
Arguments mkWorld {T}.
Arguments memoryCache {T}.
Arguments cacheStats {T}.
Arguments isInitialized {T}.
Arguments maxMemorySize {T}.
Arguments currentMemorySize {T}.
Arguments CACHE_CONFIGS {T}.
Arguments AsyncStorage {T}.

(** What a call observes of its surroundings: the clock, the platform, and
    which calls of the durable store reject. *)
Record Env := mkEnv {
  Date_now : Z;
  Platform_OS_web : bool;
  getAllKeys_fails : bool;
  getItem_fails : string -> bool;
  setItem_fails : string -> bool;
  removeItem_fails : string -> bool;
  multiRemove_fails : bool
}.

(** The result of a computation that may throw. *)
Inductive Outcome (A : Type) :=
  | Returned (a : A)
  | Thrown.
Arguments Returned {A}.
Arguments Thrown {A}.

Section Service.
Context {T : Type} `{JSON T} `{Nullable T}.

Abbreviation Item := (CacheItem.t T).
Abbreviation W := (World T).

(** *** Field updates *)

Definition with_memoryCache (f : list (string * Item) -> list (string * Item)) (w : W) : W :=
  mkWorld (f (memoryCache w)) (cacheStats w) (isInitialized w) (maxMemorySize w)
          (currentMemorySize w) (CACHE_CONFIGS w) (AsyncStorage w).

Definition with_cacheStats (f : CacheStats -> CacheStats) (w : W) : W :=
  mkWorld (memoryCache w) (f (cacheStats w)) (isInitialized w) (maxMemorySize w)
          (currentMemorySize w) (CACHE_CONFIGS w) (AsyncStorage w).

Definition with_isInitialized (b : bool) (w : W) : W :=
  mkWorld (memoryCache w) (cacheStats w) b (maxMemorySize w)
          (currentMemorySize w) (CACHE_CONFIGS w) (AsyncStorage w).

Definition with_maxMemorySize (n : Z) (w : W) : W :=
  mkWorld (memoryCache w) (cacheStats w) (isInitialized w) n
          (currentMemorySize w) (CACHE_CONFIGS w) (AsyncStorage w).

Definition with_currentMemorySize (f : Z -> Z) (w : W) : W :=
  mkWorld (memoryCache w) (cacheStats w) (isInitialized w) (maxMemorySize w)
          (f (currentMemorySize w)) (CACHE_CONFIGS w) (AsyncStorage w).

Definition with_CACHE_CONFIGS
    (f : list (string * CacheConfig.t) -> list (string * CacheConfig.t)) (w : W) : W :=
  mkWorld (memoryCache w) (cacheStats w) (isInitialized w) (maxMemorySize w)
          (currentMemorySize w) (f (CACHE_CONFIGS w)) (AsyncStorage w).

Definition with_AsyncStorage (f : gmap string string -> gmap string string) (w : W) : W :=
  mkWorld (memoryCache w) (cacheStats w) (isInitialized w) (maxMemorySize w)
          (currentMemorySize w) (CACHE_CONFIGS w) (f (AsyncStorage w)).

Definition incr_hits (s : CacheStats) : CacheStats :=
  mkStats (hits s + 1) (misses s) (evictions s) (totalRequests s) (errors s).
Definition incr_misses (s : CacheStats) : CacheStats :=
  mkStats (hits s) (misses s + 1) (evictions s) (totalRequests s) (errors s).
Definition incr_evictions (s : CacheStats) : CacheStats :=
  mkStats (hits s) (misses s) (evictions s + 1) (totalRequests s) (errors s).
Definition incr_totalRequests (s : CacheStats) : CacheStats :=
  mkStats (hits s) (misses s) (evictions s) (totalRequests s + 1) (errors s).
Definition incr_errors (s : CacheStats) : CacheStats :=
  mkStats (hits s) (misses s) (evictions s) (totalRequests s) (errors s + 1).

(** *** Pure helpers of the class *)

(** [CACHE_CONFIGS[namespace] || { ...default }], on the own properties of
    the table: the policy of a declared namespace, and the default policy
    of a name that the lookup finds nowhere.  A name that is [inherited]
    from [Object.prototype] is outside this reading: there the source gets
    a value without [ttl], [maxSize], [priority] and [persist], so no cap
    and no expiry, and never a durable write.  A statement that concludes
    from the cap or from the [ttl] of a namespace is made for names that
    are not [inherited]. *)
Definition getConfig (w : W) (namespace : string) : CacheConfig.t :=
  match Map_get namespace (CACHE_CONFIGS w) with
  | Some c => c
  | None => default_config
  end.

(** [Date.now() - item.timestamp > item.ttl] *)
Definition isExpired (e : Env) (item : Item) : bool :=
  Date_now e - CacheItem.timestamp item >? CacheItem.ttl item.

(** [new Blob([JSON.stringify(data)]).size], 1024 when serialization throws. *)
Definition estimateSize (d : T) : Z :=
  match JSON_stringify d with
  | Some jsonString => Z.of_nat (String.length jsonString)
  | None => 1024
  end.

(** [item.size || this.estimateSize(item.data)]: a missing or zero size is falsy. *)
Definition sizeOf (item : Item) : Z :=
  match CacheItem.size item with
  | Some n => if n =? 0 then estimateSize (CacheItem.data item) else n
  | None => estimateSize (CacheItem.data item)
  end.

(** The entries of the hot tier whose key carries the namespace. *)
Definition namespaceItems (namespace : string) (m : list (string * Item)) : list (string * Item) :=
  List.filter (fun kv => String.eqb (getNamespaceFromKey kv.1) namespace) m.

Definition canAddToMemory (w : W) (key : string) (item : Item) : bool :=
  let namespace := getNamespaceFromKey key in
  let config := getConfig w namespace in
  if CacheConfig.maxSize config <=? Z.of_nat (length (namespaceItems namespace (memoryCache w)))
  then false
  else currentMemorySize w + sizeOf item <=? maxMemorySize w.

(** [this.currentMemorySize += newSize - oldSize] *)
Definition updateMemorySize (key : string) (item : Item) (oldItem : option Item) (w : W) : W :=
  let newSize := sizeOf item in
  let oldSize := match oldItem with Some o => sizeOf o | None => 0 end in
  with_currentMemorySize (fun c => c + (newSize - oldSize)) w.

(** [item.accessCount++; item.lastAccessed = Date.now()] on the object held by the map. *)
Definition updateAccess (e : Env) (item : Item) : Item :=
  CacheItem.mk (CacheItem.data item) (CacheItem.timestamp item) (CacheItem.ttl item)
               (CacheItem.priority item) (CacheItem.accessCount item + 1) (Date_now e)
               (CacheItem.size item).

(** The comparator of [evictItems]: negative, zero or positive. *)
Definition evict_compare (a b : string * Item) : Z :=
  let priorityDiff :=
    priorityOrder (CacheItem.priority a.2) - priorityOrder (CacheItem.priority b.2) in
  if negb (priorityDiff =? 0) then priorityDiff
  else
    let accessDiff := CacheItem.lastAccessed a.2 - CacheItem.lastAccessed b.2 in
    if negb (accessDiff =? 0) then accessDiff
    else CacheItem.accessCount a.2 - CacheItem.accessCount b.2.

(** [Array.prototype.sort] is stable: insertion sort with the comparator. *)
Fixpoint sort_insert (x : string * Item) (l : list (string * Item)) : list (string * Item) :=
  match l with
  | [] => [x]
  | y :: l' => if evict_compare x y <=? 0 then x :: y :: l' else y :: sort_insert x l'
  end.

Definition sort_items (l : list (string * Item)) : list (string * Item) :=
  foldr sort_insert [] l.

(** The body of the loop of [evictItems], for one victim. *)
Definition evict_one (victim : string * Item) (w : W) : W :=
  with_cacheStats incr_evictions
    (updateMemorySize victim.1 victim.2 None
       (with_memoryCache (Map_delete victim.1) w)).

Definition evictItems (namespace : string) (maxSize : Z) (w : W) : W :=
  let items := namespaceItems namespace (memoryCache w) in
  if Z.of_nat (length items) <=? maxSize then w
  else
    let sorted := sort_items items in
    let itemsToRemove := take (Z.to_nat (Z.of_nat (length sorted) - maxSize)) sorted in
    fold_left (fun w victim => evict_one victim w) itemsToRemove w.

Definition keepable (kv : string * Item) : bool :=
  match CacheItem.priority kv.2 with high | medium => true | low => false end.

Definition reduceMemoryFootprint (w : W) : W :=
  let currentSize := length (memoryCache w) in
  if (currentSize <=? 50)%nat then w
  else
    let itemsToKeep := take 75 (List.filter keepable (memoryCache w)) in
    let cleared := with_currentMemorySize (fun _ => 0) (with_memoryCache (fun _ => []) w) in
    fold_left
      (fun w kv => updateMemorySize kv.1 kv.2 None (with_memoryCache (Map_set kv.1 kv.2) w))
      itemsToKeep cleared.

Inductive AppStateStatus := active | background | inactive | unknown | extension.

Definition handleAppStateChange (nextAppState : AppStateStatus) (w : W) : W :=
  match nextAppState with
  | background | inactive => reduceMemoryFootprint w
  | _ => w
  end.

(** [Math.floor(maxSize * 0.6)]; on the integers of the table the
    floating-point product rounds to the exact quotient. *)
Definition scale_maxSize (c : CacheConfig.t) : CacheConfig.t :=
  CacheConfig.mk (CacheConfig.ttl c) (CacheConfig.maxSize c * 6 / 10)
                 (CacheConfig.priority c) (CacheConfig.persist c).

Definition optimizeForPlatform (e : Env) (w : W) : W :=
  if Platform_OS_web e then with_maxMemorySize (100 * 1024 * 1024) w
  else
    with_CACHE_CONFIGS (List.map (fun nc => (nc.1, scale_maxSize nc.2)))
      (with_maxMemorySize (25 * 1024 * 1024) w).

(** *** Exceptions and state

    A computation runs on a world and either returns or throws; the world
    it leaves behind is kept in both cases, as the mutations made before a
    JavaScript exception are. *)

Definition M (A : Type) : Type := W -> Outcome A * W.

Definition ret {A} (a : A) : M A := fun w => (Returned a, w).

Definition throw {A} : M A := fun w => (Thrown, w).

Definition bind {A B} (k : A -> M B) (m : M A) : M B :=
  fun w => match m w with
           | (Returned a, w') => k a w'
           | (Thrown, w') => (Thrown, w')
           end.

#[local] Instance M_ret : MRet M := @ret.
#[local] Instance M_bind : MBind M := @bind.

(** [try { body } catch { handler }] *)
Definition try_catch {A} (body handler : M A) : M A :=
  fun w => match body w with
           | (Returned a, w') => (Returned a, w')
           | (Thrown, w') => handler w'
           end.

Definition read : M W := fun w => (Returned w, w).

Definition modify (f : W -> W) : M unit := fun w => (Returned tt, f w).

Definition when (b : bool) (m : M unit) : M unit := if b then m else ret tt.

(** [for (const x of xs) { body }] *)
Fixpoint for_of {A} (xs : list A) (body : A -> M unit) : M unit :=
  match xs with
  | [] => ret tt
  | x :: xs' => body x;; for_of xs' body
  end.

(** A throwing host call: [None] throws. *)
Definition or_throw {A} (o : option A) : M A :=
  match o with Some a => ret a | None => throw end.

(** *** The durable store *)

Definition AsyncStorage_getAllKeys (e : Env) : M (list string) :=
  fun w => if getAllKeys_fails e then (Thrown, w)
           else (Returned (map_to_list (AsyncStorage w)).*1, w).

Definition AsyncStorage_getItem (e : Env) (key : string) : M (option string) :=
  fun w => if getItem_fails e key then (Thrown, w)
           else (Returned (AsyncStorage w !! key), w).

Definition AsyncStorage_setItem (e : Env) (key value : string) : M unit :=
  fun w => if setItem_fails e key then (Thrown, w)
           else (Returned tt, with_AsyncStorage (insert key value) w).

Definition AsyncStorage_removeItem (e : Env) (key : string) : M unit :=
  fun w => if removeItem_fails e key then (Thrown, w)
           else (Returned tt, with_AsyncStorage (delete key) w).

Definition AsyncStorage_multiRemove (e : Env) (keys : list string) : M unit :=
  fun w => if multiRemove_fails e then (Thrown, w)
           else (Returned tt, with_AsyncStorage (fun m => foldr delete m keys) w).

(** [if (persistedData)]: a missing entry and the empty string are falsy. *)
Definition truthy (persistedData : option string) : option string :=
  match persistedData with
  | Some (String c s) => Some (String c s)
  | _ => None
  end.

(** *** Hydration and initialization *)

(** [this.memoryCache.set(key, item); this.updateMemorySize(key, item, oldItem)] *)
Definition store (key : string) (item : Item) (oldItem : option Item) (w : W) : W :=
  updateMemorySize key item oldItem (with_memoryCache (Map_set key item) w).

(** The body of the loop of [loadPersistedHighPriorityItems], with its own
    [try]/[catch]. *)
Definition load_one (e : Env) (key : string) : M unit :=
  try_catch
    (persistedData ← AsyncStorage_getItem e key;
     match truthy persistedData with
     | Some text =>
         parsedItem ← or_throw (JSON_parse text);
         if bool_decide (CacheItem.priority parsedItem = high) && negb (isExpired e parsedItem)
         then w ← read;
              when (canAddToMemory w key parsedItem) (modify (store key parsedItem None))
         else ret tt
     | None => ret tt
     end)
    (ret tt).

Definition loadPersistedHighPriorityItems (e : Env) : M unit :=
  try_catch
    (allKeys ← AsyncStorage_getAllKeys e;
     let cacheKeys := List.filter startsWith_cache allKeys in
     for_of cacheKeys (load_one e))
    (ret tt).

(** The timers and the listener of the application state are not part of
    the state of the embedding. *)
Definition initialize (e : Env) : M unit :=
  w ← read;
  if isInitialized w then ret tt
  else try_catch
         (loadPersistedHighPriorityItems e;;
          modify (optimizeForPlatform e);;
          modify (with_isInitialized true))
         (ret tt).

(** *** Expiration sweep *)

Definition sweep_one (e : Env) (key : string) : M unit :=
  try_catch
    (persistedData ← AsyncStorage_getItem e key;
     match truthy persistedData with
     | Some text =>
         parsedItem ← or_throw (JSON_parse text);
         when (isExpired e parsedItem) (AsyncStorage_removeItem e key)
     | None => ret tt
     end)
    (AsyncStorage_removeItem e key).

Definition cleanupPersistentExpired (e : Env) : M unit :=
  try_catch
    (allKeys ← AsyncStorage_getAllKeys e;
     let cacheKeys := List.filter startsWith_cache allKeys in
     for_of cacheKeys (sweep_one e))
    (ret tt).

(** [const item = this.memoryCache.get(key); this.memoryCache.delete(key);
    if (item) this.updateMemorySize(key, item)] *)
Definition purge (key : string) (w : W) : W :=
  let item := Map_get key (memoryCache w) in
  let w' := with_memoryCache (Map_delete key) w in
  match item with
  | Some it => updateMemorySize key it None w'
  | None => w'
  end.

(** The part of [cleanupExpired] that works on the hot tier. *)
Definition cleanupExpired_memory (e : Env) (w : W) : W :=
  let expiredKeys := (List.filter (fun kv => isExpired e kv.2) (memoryCache w)).*1 in
  fold_left (fun w key => purge key w) expiredKeys w.

Definition cleanupExpired (e : Env) : M unit :=
  w ← read;
  if (length (memoryCache w) =? 0)%nat then ret tt
  else modify (cleanupExpired_memory e);;
       cleanupPersistentExpired e.

(** *** The public operations *)

(** The durable half of [get]: [Some r] when the method returns [r] from
    inside the block, [None] when control falls through to the miss. *)
Definition get_persistent (e : Env) (namespace cacheKey : string) : M (option (option T)) :=
  w ← read;
  let config := getConfig w namespace in
  if CacheConfig.persist config then
    persistedData ← AsyncStorage_getItem e cacheKey;
    match truthy persistedData with
    | Some text =>
        parsedItem ← or_throw (JSON_parse text);
        if negb (isExpired e parsedItem) then
          w ← read;
          when (canAddToMemory w cacheKey parsedItem) (modify (store cacheKey parsedItem None));;
          modify (with_cacheStats incr_hits);;
          ret (Some (Some (CacheItem.data parsedItem)))
        else
          AsyncStorage_removeItem e cacheKey;;
          ret None
    | None => ret None
    end
  else ret None.

(** [get]: [None] is the [null] of a miss, of an expired item and of a
    failure; [Some d] is the payload [d] of a hit, handed back as it is,
    so possibly a [null] itself. *)
Definition get (e : Env) (namespace key : string) : M (option T) :=
  initialize e;;
  modify (with_cacheStats incr_totalRequests);;
  let cacheKey := generateKey namespace key in
  try_catch
    (w ← read;
     match Map_get cacheKey (memoryCache w) with
     | Some memoryItem =>
         if isExpired e memoryItem then
           modify (with_memoryCache (Map_delete cacheKey));;
           modify (updateMemorySize cacheKey memoryItem None);;
           ret None
         else
           modify (with_memoryCache (Map_set cacheKey (updateAccess e memoryItem)));;
           modify (with_cacheStats incr_hits);;
           ret (Some (CacheItem.data memoryItem))
     | None =>
         r ← get_persistent e namespace cacheKey;
         match r with
         | Some result => ret result
         | None => modify (with_cacheStats incr_misses);; ret None
         end
     end)
    (modify (with_cacheStats incr_errors);; ret None).

Definition set (e : Env) (namespace key : string) (d : T) : M bool :=
  initialize e;;
  let cacheKey := generateKey namespace key in
  w ← read;
  let config := getConfig w namespace in
  try_catch
    (let cacheItem :=
       CacheItem.mk d (Date_now e) (CacheConfig.ttl config) (CacheConfig.priority config)
                    1 (Date_now e) (Some (estimateSize d)) in
     w ← read;
     let oldItem := Map_get cacheKey (memoryCache w) in
     when (canAddToMemory w cacheKey cacheItem)
       (modify (store cacheKey cacheItem oldItem);;
        modify (evictItems namespace (CacheConfig.maxSize config)));;
     when (CacheConfig.persist config)
       (text ← or_throw (JSON_stringify_item cacheItem);
        AsyncStorage_setItem e cacheKey text);;
     ret true)
    (modify (with_cacheStats incr_errors);; ret false).

Definition remove (e : Env) (namespace key : string) : M bool :=
  let cacheKey := generateKey namespace key in
  try_catch
    (modify (purge cacheKey);;
     w ← read;
     let config := getConfig w namespace in
     when (CacheConfig.persist config) (AsyncStorage_removeItem e cacheKey);;
     ret true)
    (modify (with_cacheStats incr_errors);; ret false).

Definition clearNamespace (e : Env) (namespace : string) : M bool :=
  try_catch
    (w ← read;
     let keysToRemove :=
       List.filter (fun key => String.eqb (getNamespaceFromKey key) namespace)
                   (Map_keys (memoryCache w)) in
     modify (fun w => fold_left (fun w key => purge key w) keysToRemove w);;
     w ← read;
     let config := getConfig w namespace in
     when (CacheConfig.persist config)
       (allKeys ← AsyncStorage_getAllKeys e;
        let namespacePersistentKeys :=
          List.filter (fun key => String.eqb (getNamespaceFromKey key) namespace) allKeys in
        when (0 <? length namespacePersistentKeys)%nat
          (AsyncStorage_multiRemove e namespacePersistentKeys));;
     ret true)
    (modify (with_cacheStats incr_errors);; ret false).

(** [r === null] on what [get] returns: the [null] of a miss, or the
    payload of a hit that is itself [null]. *)
Definition strictly_null (r : option T) : bool :=
  match r with
  | Some d => is_null d
  | None => true
  end.

(** [getOrSet]: the fallback is a computation of the caller, which may
    throw and may itself use the service.  The read observes [e], the write
    that follows the fallback observes [e'].  [cached !== null] is a test
    on the payload. *)
Definition getOrSet (e e' : Env) (namespace key : string) (fallback : M T)
    (forceRefresh : bool) : M T :=
  let refresh : M T :=
    d ← fallback;
    set e' namespace key d;;
    ret d in
  if negb forceRefresh then
    cached ← get e namespace key;
    match cached with
    | Some d => if is_null d then refresh else ret d
    | None => refresh
    end
  else refresh.

(** [setBatch] over the entries of the record, in the order of
    [Object.entries]; every [set] observes its own environment. *)
Definition setBatch (namespace : string) (entries : list (Env * string * T)) : M unit :=
  for_of entries (fun entry => set entry.1.1 namespace entry.1.2 entry.2;; ret tt).

(** [preload]: [existing === null] is a test on the payload too. *)
Definition preload (e e' : Env) (namespace key : string) (loader : M T) : M bool :=
  try_catch
    (existing ← get e namespace key;
     if strictly_null existing then
       d ← loader;
       success ← set e' namespace key d;
       ret success
     else ret true)
    (ret false).

Definition clearAll (e : Env) : M bool :=
  try_catch
    (modify (with_memoryCache (fun _ => []));;
     modify (with_currentMemorySize (fun _ => 0));;
     allKeys ← AsyncStorage_getAllKeys e;
     let cacheKeys := List.filter startsWith_cache allKeys in
     when (0 <? length cacheKeys)%nat (AsyncStorage_multiRemove e cacheKeys);;
     modify (with_cacheStats (fun _ => mkStats 0 0 0 0 0));;
     ret true)
    (ret false).


End Service.

(** ** A payload type for the examples

    JSON numbers and strings, [null], and a [BigInt], on which
    [JSON.stringify] throws a [TypeError]. *)

Inductive Payload :=
  | PNumber (n : Z)
  | PString (s : string)
  | PBigInt (n : Z)
  | PNull.

#[global] Instance Payload_eq_dec : EqDecision Payload.
Proof. solve_decision. Defined.

Definition Payload_stringify (d : Payload) : option string :=
  match d with
  | PNumber n => Some (pretty n)
  | PString s => Some (dquote +:+ s +:+ dquote)
  | PBigInt _ => None
  | PNull => Some "null"
  end.

#[global] Instance Payload_Nullable : Nullable Payload :=
  fun d => match d with PNull => true | _ => false end.

(** The initial world of the constructor, before [initialize] has run. *)
Definition new_service {T} (storage : gmap string string) : World T :=
  mkWorld [] (mkStats 0 0 0 0 0) false (50 * 1024 * 1024) 0 CACHE_CONFIGS_initial storage.

(** An environment in which the durable store never fails. *)
Definition reliable (now : Z) (web : bool) : Env :=
  mkEnv now web false (fun _ => false) (fun _ => false) (fun _ => false) false.

(** *** Reading persisted records back

    [Payload_parse] reads the records that [JSON_stringify_item] writes and
    throws on every other text.  [JSON.parse] accepts more (white space,
    members in another order); the examples store no such text. *)

Fixpoint strip_prefix (p s : string) : option string :=
  match p, s with
  | EmptyString, _ => Some s
  | String a p', String b s' => if Ascii.eqb a b then strip_prefix p' s' else None
  | String _ _, EmptyString => None
  end.

Definition digit_value (c : Ascii.ascii) : option Z :=
  let n := Z.of_nat (Ascii.nat_of_ascii c) in
  if (48 <=? n) && (n <=? 57) then Some (n - 48) else None.

Fixpoint read_digits (s : string) (acc : option Z) : option Z * string :=
  match s with
  | EmptyString => (acc, s)
  | String c s' =>
      match digit_value c with
      | Some d => read_digits s' (Some (10 * default 0 acc + d))
      | None => (acc, s)
      end
  end.

Definition parse_int (s : string) : option (Z * string) :=
  match strip_prefix "-" s with
  | Some s' =>
      match read_digits s' None with
      | (Some n, rest) => Some (- n, rest)
      | (None, _) => None
      end
  | None =>
      match read_digits s None with
      | (Some n, rest) => Some (n, rest)
      | (None, _) => None
      end
  end.

(** The characters up to the next double quote. *)
Fixpoint read_until_quote (s : string) : option (string * string) :=
  match s with
  | EmptyString => None
  | String c s' =>
      if Ascii.eqb c (Ascii.ascii_of_nat 34) then Some (EmptyString, s')
      else match read_until_quote s' with
           | Some (body, rest) => Some (String c body, rest)
           | None => None
           end
  end.

Definition parse_quoted (s : string) : option (string * string) :=
  s' ← strip_prefix dquote s; read_until_quote s'.

Definition parse_payload (s : string) : option (Payload * string) :=
  match parse_quoted s with
  | Some (body, rest) => Some (PString body, rest)
  | None =>
      match strip_prefix "null" s with
      | Some rest => Some (PNull, rest)
      | None => '(n, rest) ← parse_int s; Some (PNumber n, rest)
      end
  end.

Definition parse_priority (s : string) : option (Priority * string) :=
  '(name, rest) ← parse_quoted s;
  if String.eqb name "high" then Some (high, rest)
  else if String.eqb name "medium" then Some (medium, rest)
  else if String.eqb name "low" then Some (low, rest)
  else None.

(** The text after [,"name":]. *)
Definition member_value (name s : string) : option string :=
  strip_prefix ("," +:+ dquote +:+ name +:+ dquote +:+ ":") s.

Definition Payload_parse (text : string) : option (CacheItem.t Payload) :=
  s ← strip_prefix ("{" +:+ dquote +:+ "data" +:+ dquote +:+ ":") text;
  '(d, s) ← parse_payload s;
  s ← member_value "timestamp" s;
  '(timestamp, s) ← parse_int s;
  s ← member_value "ttl" s;
  '(ttl, s) ← parse_int s;
  s ← member_value "priority" s;
  '(priority, s) ← parse_priority s;
  s ← member_value "accessCount" s;
  '(accessCount, s) ← parse_int s;
  s ← member_value "lastAccessed" s;
  '(lastAccessed, s) ← parse_int s;
  match member_value "size" s with
  | Some s =>
      '(size, s) ← parse_int s;
      if String.eqb s "}"
      then Some (CacheItem.mk d timestamp ttl priority accessCount lastAccessed (Some size))
      else None
  | None =>
      if String.eqb s "}"
      then Some (CacheItem.mk d timestamp ttl priority accessCount lastAccessed None)
      else None
  end.

#[global] Instance Payload_JSON : JSON Payload :=
  {| JSON_stringify := Payload_stringify; JSON_parse := Payload_parse |}.

(** * Vocabulary of the properties *)

(** A namespace name without a colon. *)
Fixpoint colon_free (s : string) : bool :=
  match s with
  | EmptyString => true
  | String c s' => negb (Ascii.eqb c colon) && colon_free s'
  end.


Definition sample_item : CacheItem.t Payload :=
  CacheItem.mk (PString "apt-1") 1000 300000 high 1 1000 (Some 7).


(** The item that [set] builds for a payload. *)
Definition new_item {T} `{JSON T} (e : Env) (config : CacheConfig.t) (d : T) : CacheItem.t T :=
  CacheItem.mk d (Date_now e) (CacheConfig.ttl config) (CacheConfig.priority config)
               1 (Date_now e) (Some (estimateSize d)).

(** The hot-tier half of [set]: admission, insertion and eviction. *)
Definition admission {T} `{JSON T} (e : Env) (namespace key : string) (d : T) (w : World T) : World T :=
  let cacheKey := generateKey namespace key in
  let config := getConfig w namespace in
  let cacheItem := new_item e config d in
  if canAddToMemory w cacheKey cacheItem
  then evictItems namespace (CacheConfig.maxSize config)
         (store cacheKey cacheItem (Map_get cacheKey (memoryCache w)) w)
  else w.

(** The durable half of [set] fails: the namespace persists and either the
    record does not serialize or the write is rejected. *)
Definition write_through_fails {T} `{JSON T}
    (e : Env) (namespace key : string) (d : T) (w : World T) : bool :=
  CacheConfig.persist (getConfig w namespace)
  && (bool_decide (JSON_stringify d = None) || setItem_fails e (generateKey namespace key)).

(** The service of the examples: constructed over a durable store and
    initialized on the web platform at instant 0. *)
Definition web_service (storage : gmap string string) : World Payload :=
  (initialize (reliable 0 true) (new_service storage)).2.

(** The same on a mobile platform, where [optimizeForPlatform] scales the table. *)
Definition mobile_service (storage : gmap string string) : World Payload :=
  (initialize (reliable 0 false) (new_service storage)).2.

(** A run of [set] calls on one namespace, each with its environment, key
    and payload. *)
Fixpoint set_each {T} `{JSON T} (namespace : string) (calls : list (Env * string * T))
    (w : World T) : World T :=
  match calls with
  | [] => w
  | (e, key, d) :: rest => set_each namespace rest (set e namespace key d w).2
  end.

(** The hot-tier entry that a call of [set] builds under a policy. *)
Definition entry_of {T} `{JSON T} (namespace : string) (config : CacheConfig.t)
    (call : Env * string * T) : string * CacheItem.t T :=
  (generateKey namespace call.1.2, new_item call.1.1 config call.2).

(** The bytes that the payloads of a run are estimated at. *)
Definition total_size {T} `{JSON T} (calls : list (Env * string * T)) : Z :=
  foldr (fun call acc => estimateSize call.2 + acc) 0 calls.

(** [x] is least among [l] by the comparator of [evictItems]. *)
Definition least_of {T} (x : string * CacheItem.t T) (l : list (string * CacheItem.t T)) : Prop :=
  Forall (fun y => evict_compare x y <= 0) l.

(** The sum of the size estimates of the resident items. *)
Definition resident_bytes {T} `{JSON T} (m : list (string * CacheItem.t T)) : Z :=
  foldr (fun kv acc => sizeOf kv.2 + acc) 0 m.

(** The size-accounting invariant. *)
Definition accounted {T} `{JSON T} (w : World T) : Prop :=
  currentMemorySize w = resident_bytes (memoryCache w).

(** Hydration as the amended claim words it: the record under a key is
    taken into the hot tier when it can be read and parsed, its priority is
    [high], it is not expired and the admission check holds for it. *)
Definition hydrated_item {T} `{JSON T} (e : Env) (w : World T) (key : string)
    : option (CacheItem.t T) :=
  if getItem_fails e key then None
  else
    text ← truthy (AsyncStorage w !! key);
    item ← JSON_parse text;
    if bool_decide (CacheItem.priority item = high)
       && negb (isExpired e item)
       && canAddToMemory w key item
    then Some item else None.

Definition hydrate_step {T} `{JSON T} (e : Env) (w : World T) (key : string) : World T :=
  match hydrated_item e w key with
  | Some item => store key item None w
  | None => w
  end.

(** The second segment of a durable key, if it has one. *)
Definition second_segment (key : string) : option string := split_colon key !! 1%nat.

(** The table keeps the namespaces it was declared with. *)
Definition declared_namespaces {T} (w : World T) : Prop :=
  (CACHE_CONFIGS w).*1 = CACHE_CONFIGS_initial.*1.

(** ** Sample worlds and calls *)

(** Two [set] calls on the namespace [user], whose cap is one item. *)
Definition two_users : list (Env * string * Payload) :=
  [ (reliable 1000 true, "a", PNumber 1);
    (reliable 2000 true, "b", PNumber 2) ].

(** [n] calls of [set] at instant [t0], [t0 + 1], ... with keys [k0], [k1], ... *)
Definition numbered_calls (t0 : Z) (n : nat) : list (Env * string * Payload) :=
  map (fun i : nat => (reliable (t0 + Z.of_nat i) true, "k" +:+ pretty i, PNumber (Z.of_nat i)))
      (seq 0 n).

(** A hot tier of 200 items: 80 of priority [low], 80 of priority [medium]
    and 40 of priority [high]. *)
Definition crowded_service : World Payload :=
  set_each "appointments" (numbered_calls 3000 40)
    (set_each "providers" (numbered_calls 2000 80)
       (set_each "shops" (numbered_calls 1000 80) (web_service ∅))).

(** A record of the namespace [appointments] written at instant 0, and a
    text that is no JSON. *)
Definition old_record : string :=
  default EmptyString
    (JSON_stringify_item (new_item (reliable 0 true) (CacheConfig.mk 300000 100 high true)
                                   (PString "apt-1"))).

Definition corrupt_record : string := "{not json".

Definition stale_storage : gmap string string :=
  <["cache:appointments:apt-1" := old_record]>
    (<["cache:appointments:apt-2" := corrupt_record]> ∅).

(** A durable store shared with another writer, whose key has the
    namespace [user] as its second segment. *)
Definition shared_storage : gmap string string :=
  <["cache:user:me" := old_record]>
    (<["backup:user:2024" := "snapshot"]>
       (<["cache:services:list" := old_record]> ∅)).

(** The durable record under a key is one that the sweep deletes: a
    non-empty text that does not parse, or that parses to an expired item. *)
Definition stale_record {T} `{JSON T} (e : Env) (storage : gmap string string)
    (key : string) : bool :=
  match truthy (storage !! key) with
  | Some text =>
      match JSON_parse (T := T) text with
      | Some item => isExpired e item
      | None => true
      end
  | None => false
  end.

(** What one turn of the durable sweep does when the store answers. *)
Definition sweep_step {T} `{JSON T} (e : Env) (w : World T) (key : string) : World T :=
  if stale_record (T := T) e (AsyncStorage w) key
  then with_AsyncStorage (delete key) w else w.

(** An environment in which every call of the durable store is rejected. *)
Definition broken (now : Z) (web : bool) : Env :=
  mkEnv now web true (fun _ => true) (fun _ => true) (fun _ => true) true.

(** A record of priority [medium], which the hydration leaves in the store. *)
Definition services_record : string :=
  default EmptyString
    (JSON_stringify_item (new_item (reliable 0 true) (CacheConfig.mk 1800000 50 medium true)
                                   (PString "list"))).

Definition services_storage : gmap string string :=
  <["cache:services:list" := services_record]> (<["settings" := "dark"]> ∅).

(** Three items of the namespace [shops], set at the instants 1000, 1001
    and 1002. *)
Definition three_shops : World Payload :=
  set_each "shops" (numbered_calls 1000 3) (web_service ∅).

(** A loader that returns a payload, and one that throws. *)
Definition loads (d : Payload) : M (T := Payload) Payload := ret d.
Definition fails : M (T := Payload) Payload := throw.
(** * Properties *)

(** ** Keys and namespaces *)

Lemma split_colon_colon_free (s : string) :
  Forall (fun p => colon_free p = true) (split_colon s).
Proof.
  induction s as [|c s IH]; simpl.
  - by repeat constructor.
  - destruct (Ascii.eqb c colon) eqn:Hc.
    + by constructor.
    + destruct (split_colon s) as [|p ps]; [by repeat (constructor; simpl; rewrite ?Hc)|].
      inversion IH; subst. constructor; [|done]. simpl. by rewrite Hc.
Qed.

Lemma split_colon_app (ns rest : string) :
  colon_free ns = true ->
  split_colon (ns +:+ String colon rest) = ns :: split_colon rest.
Proof.
  induction ns as [|c ns IH]; simpl; intros Hns.
  - done.
  - apply andb_prop in Hns as [Hc Hns].
    apply negb_true_iff in Hc. rewrite Hc, (IH Hns). done.
Qed.

Lemma split_colon_cache (rest : string) :
  split_colon ("cache:" +:+ rest) = "cache" :: split_colon rest.
Proof. reflexivity. Qed.

Lemma getNamespaceFromKey_generateKey (ns key : string) :
  colon_free ns = true -> ns <> EmptyString ->
  getNamespaceFromKey (generateKey ns key) = ns.
Proof.
  intros Hfree Hne. unfold getNamespaceFromKey, generateKey.
  rewrite split_colon_cache.
  change (":" +:+ key) with (String colon key).
  rewrite (split_colon_app ns key Hfree). cbn [lookup list_lookup].
  destruct ns; [done|]. done.
Qed.

Lemma getNamespaceFromKey_colon_free (k : string) :
  colon_free (getNamespaceFromKey k) = true /\ getNamespaceFromKey k <> EmptyString.
Proof.
  unfold getNamespaceFromKey.
  pose proof (split_colon_colon_free k) as Hall.
  destruct (split_colon k !! 1%nat) as [p|] eqn:Hp; [|done].
  destruct (String.eqb p EmptyString) eqn:Hempty; [done|].
  split.
  - apply (Forall_lookup_1 _ _ _ _ Hall Hp).
  - intros ->. by rewrite String.eqb_refl in Hempty.
Qed.

(** A namespace that is empty or holds a colon names no hot-tier entry. *)
Lemma namespaceItems_ill_formed {T} (ns : string) (m : list (string * CacheItem.t T)) :
  colon_free ns = false \/ ns = EmptyString ->
  namespaceItems ns m = [].
Proof.
  intros Hbad. unfold namespaceItems.
  induction m as [|[k v] m IH]; simpl; [done|].
  destruct (String.eqb (getNamespaceFromKey k) ns) eqn:Heq; [|done].
  apply String.eqb_eq in Heq.
  destruct (getNamespaceFromKey_colon_free k) as [Hfree Hne].
  rewrite Heq in Hfree, Hne. destruct Hbad; congruence.
Qed.

(** ** The [Map] of the hot tier *)

Section MapFacts.
Context {V : Type}.
Implicit Types (m : list (string * V)) (k : string) (v : V).

Lemma Map_get_set_eq k v m : Map_get k (Map_set k v m) = Some v.
Proof.
  induction m as [|[k' v'] m IH]; simpl.
  - by rewrite String.eqb_refl.
  - destruct (String.eqb k k') eqn:Hk; simpl; by rewrite ?String.eqb_refl, ?Hk.
Qed.

Lemma Map_get_set_ne k k' v m : k <> k' -> Map_get k' (Map_set k v m) = Map_get k' m.
Proof.
  intros Hne. induction m as [|[k0 v0] m IH]; simpl.
  - destruct (String.eqb k' k) eqn:Hk; [|done].
    apply String.eqb_eq in Hk. congruence.
  - destruct (String.eqb k k0) eqn:Hk; simpl.
    + apply String.eqb_eq in Hk as <-.
      destruct (String.eqb k' k) eqn:Hk'; [|done].
      apply String.eqb_eq in Hk'. congruence.
    + by rewrite IH.
Qed.

Lemma Map_get_delete_eq k m : Map_get k (Map_delete k m) = None.
Proof.
  induction m as [|[k' v'] m IH]; simpl; [done|].
  destruct (String.eqb k k') eqn:Hk; simpl; by rewrite ?Hk.
Qed.

Lemma Map_get_delete_ne k k' m : k <> k' -> Map_get k' (Map_delete k m) = Map_get k' m.
Proof.
  intros Hne. induction m as [|[k0 v0] m IH]; simpl; [done|].
  destruct (String.eqb k k0) eqn:Hk; simpl.
  - apply String.eqb_eq in Hk as <-.
    destruct (String.eqb k' k) eqn:Hk'; [|done].
    apply String.eqb_eq in Hk'. congruence.
  - by rewrite IH.
Qed.

Lemma Map_set_fresh k v m : Map_get k m = None -> Map_set k v m = m ++ [(k, v)].
Proof.
  induction m as [|[k' v'] m IH]; simpl; [done|].
  destruct (String.eqb k k'); [done|]. intros Hm. by rewrite IH.
Qed.

Lemma Map_get_Some_In k v m : Map_get k m = Some v -> In (k, v) m.
Proof.
  induction m as [|[k' v'] m IH]; simpl; [done|].
  destruct (String.eqb k k') eqn:Hk.
  - apply String.eqb_eq in Hk as <-. intros [= ->]. by left.
  - intros Hm. right. by apply IH.
Qed.

Lemma Map_set_length_le k v m : (length (Map_set k v m) <= S (length m))%nat.
Proof.
  induction m as [|[k' v'] m IH]; simpl; [lia|].
  destruct (String.eqb k k'); simpl; lia.
Qed.
End MapFacts.

(** ** Running the operations *)

Ltac unfold_M :=
  unfold when, or_throw, read, modify, try_catch, mbind, mret, M_bind, M_ret,
         bind, ret, throw in *.

Ltac unfold_fields :=
  unfold with_memoryCache, with_cacheStats, with_isInitialized, with_maxMemorySize,
         with_currentMemorySize, with_CACHE_CONFIGS, with_AsyncStorage in *.

Section Running.
Context {T : Type} `{JSON T}.
Implicit Types (w : World T) (e : Env).

Lemma loadPersistedHighPriorityItems_returns e w :
  exists w', loadPersistedHighPriorityItems e w = (Returned tt, w').
Proof.
  unfold loadPersistedHighPriorityItems, AsyncStorage_getAllKeys. unfold_M.
  destruct (getAllKeys_fails e); [by eauto|].
  destruct (for_of _ _ w) as [[[]|] w']; eauto.
Qed.

Lemma initialize_done e w : isInitialized w = true -> initialize e w = (Returned tt, w).
Proof. intros Hinit. unfold initialize. unfold_M. by rewrite Hinit. Qed.

Lemma initialize_returns e w :
  initialize e w = (Returned tt, (initialize e w).2) /\ isInitialized (initialize e w).2 = true.
Proof.
  unfold initialize. unfold_M.
  destruct (isInitialized w) eqn:Hinit; [done|].
  destruct (loadPersistedHighPriorityItems_returns e w) as [w' ->]. simpl.
  destruct (Platform_OS_web e); done.
Qed.

Lemma JSON_stringify_item_None (item : CacheItem.t T) :
  JSON_stringify_item item = None <-> JSON_stringify (CacheItem.data item) = None.
Proof. unfold JSON_stringify_item. by destruct (JSON_stringify _). Qed.

(** [set] on an initialized service, without the monad. *)
Lemma set_run e ns key d w :
  isInitialized w = true ->
  set e ns key d w =
    let w1 := admission e ns key d w in
    if write_through_fails e ns key d w
    then (Returned false, with_cacheStats incr_errors w1)
    else if CacheConfig.persist (getConfig w ns)
         then match JSON_stringify_item (new_item e (getConfig w ns) d) with
              | Some text =>
                  (Returned true, with_AsyncStorage (insert (generateKey ns key) text) w1)
              | None => (Returned true, w1)
              end
         else (Returned true, w1).
Proof.
  intros Hinit. unfold set.
  unfold mbind at 1, M_bind, bind. rewrite (initialize_done e w Hinit).
  pose proof (JSON_stringify_item_None (new_item e (getConfig w ns) d)) as Hitem.
  unfold write_through_fails, admission, AsyncStorage_setItem, new_item in *.
  unfold_M. cbn [CacheItem.data] in Hitem.
  destruct (canAddToMemory w (generateKey ns key) _);
    destruct (CacheConfig.persist (getConfig w ns)); cbn [andb]; try done;
    (destruct (JSON_stringify_item _) as [text|] eqn:Htext;
     [ rewrite bool_decide_eq_false_2 by (intros Hd; apply Hitem in Hd; done)
     | rewrite bool_decide_eq_true_2 by (by apply Hitem) ]);
    cbn [orb]; try done;
    destruct (setItem_fails e (generateKey ns key)); done.
Qed.

(** Every call starts by initializing the service. *)
Lemma set_initializes e ns key d w : set e ns key d w = set e ns key d (initialize e w).2.
Proof.
  destruct (initialize_returns e w) as [Hrun Hinit].
  unfold set, mbind, M_bind, bind.
  rewrite (initialize_done e _ Hinit). by rewrite Hrun.
Qed.

Lemma get_initializes e ns key w : get e ns key w = get e ns key (initialize e w).2.
Proof.
  destruct (initialize_returns e w) as [Hrun Hinit].
  unfold get, mbind, M_bind, bind.
  rewrite (initialize_done e _ Hinit). by rewrite Hrun.
Qed.

(** [get] on an initialized service, without the monad. *)
Lemma get_run e ns key w :
  isInitialized w = true ->
  get e ns key w =
    let cacheKey := generateKey ns key in
    let w0 := with_cacheStats incr_totalRequests w in
    match Map_get cacheKey (memoryCache w) with
    | Some memoryItem =>
        if isExpired e memoryItem
        then (Returned None,
              updateMemorySize cacheKey memoryItem None
                (with_memoryCache (Map_delete cacheKey) w0))
        else (Returned (Some (CacheItem.data memoryItem)),
              with_cacheStats incr_hits
                (with_memoryCache (Map_set cacheKey (updateAccess e memoryItem)) w0))
    | None =>
        if CacheConfig.persist (getConfig w ns) then
          if getItem_fails e cacheKey
          then (Returned None, with_cacheStats incr_errors w0)
          else
            match truthy (AsyncStorage w !! cacheKey) with
            | None => (Returned None, with_cacheStats incr_misses w0)
            | Some text =>
                match JSON_parse text with
                | None => (Returned None, with_cacheStats incr_errors w0)
                | Some parsedItem =>
                    if isExpired e parsedItem then
                      if removeItem_fails e cacheKey
                      then (Returned None, with_cacheStats incr_errors w0)
                      else (Returned None,
                            with_cacheStats incr_misses
                              (with_AsyncStorage (delete cacheKey) w0))
                    else (Returned (Some (CacheItem.data parsedItem)),
                          with_cacheStats incr_hits
                            (if canAddToMemory w0 cacheKey parsedItem
                             then store cacheKey parsedItem None w0
                             else w0))
                end
            end
        else (Returned None, with_cacheStats incr_misses w0)
    end.
Proof.
  intros Hinit. unfold get.
  unfold mbind at 1, M_bind, bind. rewrite (initialize_done e w Hinit).
  unfold get_persistent, AsyncStorage_getItem, AsyncStorage_removeItem.
  unfold_M. cbv zeta. cbn [memoryCache with_cacheStats].
  destruct (Map_get (generateKey ns key) (memoryCache w)) as [memoryItem|].
  - by destruct (isExpired e memoryItem).
  - change (getConfig (with_cacheStats incr_totalRequests w) ns) with (getConfig w ns).
    destruct (CacheConfig.persist (getConfig w ns)); [|done].
    destruct (getItem_fails e (generateKey ns key)); [done|].
    cbn [AsyncStorage with_cacheStats].
    destruct (truthy (AsyncStorage w !! generateKey ns key)) as [text|]; [|done].
    destruct (JSON_parse text) as [parsedItem|]; [|done].
    cbv beta iota.
    destruct (isExpired e parsedItem); cbn [negb]; cbv beta iota.
    + by destruct (removeItem_fails e (generateKey ns key)).
    + by destruct (canAddToMemory _ _ parsedItem).
Qed.
End Running.

(** ** Admission and eviction *)

Section Admission.
Context {T : Type} `{JSON T}.
Implicit Types (w : World T) (e : Env) (m : list (string * CacheItem.t T)).

Lemma namespaceItems_app ns m1 m2 :
  namespaceItems ns (m1 ++ m2) = namespaceItems ns m1 ++ namespaceItems ns m2.
Proof. unfold namespaceItems. apply List.filter_app. Qed.

Lemma namespaceItems_Map_set_length ns k v m :
  (length (namespaceItems ns (Map_set k v m)) <= S (length (namespaceItems ns m)))%nat.
Proof.
  unfold namespaceItems. induction m as [|[k' v'] m IH]; simpl.
  - destruct (String.eqb (getNamespaceFromKey k) ns); simpl; lia.
  - destruct (String.eqb k k') eqn:Hk; simpl.
    + apply String.eqb_eq in Hk as <-.
      destruct (String.eqb (getNamespaceFromKey k) ns); simpl; lia.
    + destruct (String.eqb (getNamespaceFromKey k') ns); simpl; lia.
Qed.

Lemma evictItems_within ns maxSize w :
  Z.of_nat (length (namespaceItems ns (memoryCache w))) <= maxSize ->
  evictItems ns maxSize w = w.
Proof.
  intros Hle. unfold evictItems.
  by rewrite (proj2 (Z.leb_le _ _) Hle).
Qed.

Lemma evictItems_empty ns maxSize w :
  namespaceItems ns (memoryCache w) = [] -> evictItems ns maxSize w = w.
Proof.
  intros Hnil. unfold evictItems. rewrite Hnil. simpl.
  destruct (Z.of_nat 0 <=? maxSize); [done|]. by rewrite take_nil.
Qed.

Lemma canAddToMemory_true w key item :
  canAddToMemory w key item = true ->
  Z.of_nat (length (namespaceItems (getNamespaceFromKey key) (memoryCache w)))
    < CacheConfig.maxSize (getConfig w (getNamespaceFromKey key))
  /\ currentMemorySize w + sizeOf item <= maxMemorySize w.
Proof.
  unfold canAddToMemory.
  destruct (_ <=? Z.of_nat _) eqn:Hcap; [done|].
  intros Hfit. apply Z.leb_gt in Hcap. apply Z.leb_le in Hfit. done.
Qed.

Lemma canAddToMemory_at_cap w key item :
  CacheConfig.maxSize (getConfig w (getNamespaceFromKey key))
    <= Z.of_nat (length (namespaceItems (getNamespaceFromKey key) (memoryCache w))) ->
  canAddToMemory w key item = false.
Proof.
  intros Hcap. unfold canAddToMemory.
  by rewrite (proj2 (Z.leb_le _ _) Hcap).
Qed.

(** The eviction of [set] never finds a victim: the admission check has
    already kept the namespace below its cap. *)
Lemma admission_no_eviction e ns key d w :
  admission e ns key d w =
    if canAddToMemory w (generateKey ns key) (new_item e (getConfig w ns) d)
    then store (generateKey ns key) (new_item e (getConfig w ns) d)
               (Map_get (generateKey ns key) (memoryCache w)) w
    else w.
Proof.
  unfold admission. cbv zeta.
  destruct (canAddToMemory w _ _) eqn:Hadd; [|done].
  destruct (colon_free ns) eqn:Hfree; [destruct (decide (ns = EmptyString)) as [->|Hne]|].
  - apply evictItems_empty, namespaceItems_ill_formed. by right.
  - apply canAddToMemory_true in Hadd as [Hcap _].
    rewrite (getNamespaceFromKey_generateKey ns key Hfree Hne) in Hcap.
    apply evictItems_within. unfold store, updateMemorySize. unfold_fields. simpl.
    pose proof (namespaceItems_Map_set_length ns (generateKey ns key)
                  (new_item e (getConfig w ns) d) (memoryCache w)).
    lia.
  - apply evictItems_empty, namespaceItems_ill_formed. by left.
Qed.

(** Admission touches the hot tier and its counter only. *)
Lemma admission_frame e ns key d w :
  cacheStats (admission e ns key d w) = cacheStats w
  /\ isInitialized (admission e ns key d w) = isInitialized w
  /\ maxMemorySize (admission e ns key d w) = maxMemorySize w
  /\ CACHE_CONFIGS (admission e ns key d w) = CACHE_CONFIGS w
  /\ AsyncStorage (admission e ns key d w) = AsyncStorage w.
Proof.
  rewrite admission_no_eviction. by destruct (canAddToMemory w _ _).
Qed.

(** What [set] leaves behind on an initialized service. *)
Lemma set_frame e ns key d w :
  isInitialized w = true ->
  let w' := (set e ns key d w).2 in
  memoryCache w' = memoryCache (admission e ns key d w)
  /\ currentMemorySize w' = currentMemorySize (admission e ns key d w)
  /\ isInitialized w' = true
  /\ maxMemorySize w' = maxMemorySize w
  /\ CACHE_CONFIGS w' = CACHE_CONFIGS w.
Proof.
  intros Hinit. cbv zeta. rewrite (set_run e ns key d w Hinit). cbv zeta.
  destruct (admission_frame e ns key d w) as (_ & Hi & Hm & Hc & _).
  rewrite Hinit in Hi.
  destruct (write_through_fails e ns key d w); [done|].
  destruct (CacheConfig.persist (getConfig w ns)); [|done].
  by destruct (JSON_stringify_item _).
Qed.

Lemma set_storage e ns key d w text :
  isInitialized w = true ->
  CacheConfig.persist (getConfig w ns) = true ->
  JSON_stringify_item (new_item e (getConfig w ns) d) = Some text ->
  setItem_fails e (generateKey ns key) = false ->
  AsyncStorage (set e ns key d w).2 = <[generateKey ns key := text]> (AsyncStorage w).
Proof.
  intros Hinit Hpersist Htext Hset. rewrite (set_run e ns key d w Hinit). cbv zeta.
  destruct (admission_frame e ns key d w) as (_ & _ & _ & _ & Hs).
  unfold write_through_fails. rewrite Hpersist, Hset, Htext.
  rewrite bool_decide_eq_false_2; [simpl; by rewrite Hs|].
  intros Hd. apply (JSON_stringify_item_None (new_item e (getConfig w ns) d)) in Hd.
  congruence.
Qed.

Lemma isExpired_false e (item : CacheItem.t T) :
  isExpired e item = false <-> Date_now e - CacheItem.timestamp item <= CacheItem.ttl item.
Proof. unfold isExpired. rewrite Z.gtb_ltb. apply Z.ltb_ge. Qed.

(** A serialized record is never the empty string. *)
Lemma truthy_record (item : CacheItem.t T) text :
  JSON_stringify_item item = Some text -> truthy (Some text) = Some text.
Proof.
  unfold JSON_stringify_item. destruct (JSON_stringify _); [|done].
  by intros [= <-].
Qed.
End Admission.

(** ** Runs of [set] below the cap *)

Lemma String_append_inj (p a b : string) : p +:+ a = p +:+ b -> a = b.
Proof. induction p as [|c p IH]; simpl; [done|]. intros [= Heq]. by apply IH. Qed.

Lemma generateKey_inj (ns k k' : string) : generateKey ns k = generateKey ns k' -> k = k'.
Proof.
  unfold generateKey. intros Heq.
  repeat (apply String_append_inj in Heq). done.
Qed.

Section Runs.
Context {T : Type} `{JSON T}.
Implicit Types (w : World T) (e : Env) (calls : list (Env * string * T)).

Lemma estimateSize_nonneg (d : T) : 0 <= estimateSize d.
Proof. unfold estimateSize. destruct (JSON_stringify d); lia. Qed.

Lemma sizeOf_new_item e config (d : T) : sizeOf (new_item e config d) = estimateSize d.
Proof.
  unfold sizeOf, new_item. simpl.
  destruct (estimateSize d =? 0) eqn:Hz; done.
Qed.

Lemma total_size_nonneg calls : 0 <= total_size calls.
Proof.
  induction calls as [|c calls IH]; simpl; [done|].
  pose proof (estimateSize_nonneg c.2). lia.
Qed.

(** One admitted [set] of a fresh key appends its entry and adds its size. *)
Lemma set_fresh_below_cap e ns key d w :
  isInitialized w = true ->
  colon_free ns = true -> ns <> EmptyString ->
  Map_get (generateKey ns key) (memoryCache w) = None ->
  Z.of_nat (length (namespaceItems ns (memoryCache w))) < CacheConfig.maxSize (getConfig w ns) ->
  currentMemorySize w + estimateSize d <= maxMemorySize w ->
  let w' := (set e ns key d w).2 in
  memoryCache w' = memoryCache w ++ [entry_of ns (getConfig w ns) (e, key, d)]
  /\ currentMemorySize w' = currentMemorySize w + estimateSize d.
Proof.
  intros Hinit Hfree Hne Hfresh Hcap Hfit w'.
  destruct (set_frame e ns key d w Hinit) as (Hmem & Hcount & _).
  fold w' in Hmem, Hcount. rewrite admission_no_eviction in Hmem, Hcount.
  assert (Hadd : canAddToMemory w (generateKey ns key) (new_item e (getConfig w ns) d) = true).
  { unfold canAddToMemory.
    rewrite (getNamespaceFromKey_generateKey ns key Hfree Hne).
    rewrite (proj2 (Z.leb_gt _ _) Hcap), sizeOf_new_item.
    by apply Z.leb_le. }
  rewrite Hadd in Hmem, Hcount.
  unfold store, updateMemorySize in Hmem, Hcount. unfold_fields.
  cbn [memoryCache currentMemorySize] in Hmem, Hcount.
  rewrite Hfresh, sizeOf_new_item in Hcount.
  rewrite (Map_set_fresh _ _ _ Hfresh) in Hmem.
  split; [done|lia].
Qed.

(** A [set] at the cap leaves the hot tier as it is. *)
Lemma set_at_cap e ns key d w :
  isInitialized w = true ->
  colon_free ns = true -> ns <> EmptyString ->
  CacheConfig.maxSize (getConfig w ns) <= Z.of_nat (length (namespaceItems ns (memoryCache w))) ->
  let w' := (set e ns key d w).2 in
  memoryCache w' = memoryCache w /\ currentMemorySize w' = currentMemorySize w.
Proof.
  intros Hinit Hfree Hne Hcap w'.
  destruct (set_frame e ns key d w Hinit) as (Hmem & Hcount & _).
  fold w' in Hmem, Hcount. rewrite admission_no_eviction in Hmem, Hcount.
  rewrite canAddToMemory_at_cap in Hmem, Hcount; [done|..];
    by rewrite (getNamespaceFromKey_generateKey ns key Hfree Hne).
Qed.

Lemma namespaceItems_entry ns config (call : Env * string * T) :
  colon_free ns = true -> ns <> EmptyString ->
  namespaceItems ns [entry_of ns config call] = [entry_of ns config call].
Proof.
  intros Hfree Hne. unfold namespaceItems, entry_of. simpl.
  by rewrite (getNamespaceFromKey_generateKey ns _ Hfree Hne), String.eqb_refl.
Qed.

Lemma Map_get_app_None {V} k (m1 m2 : list (string * V)) :
  Map_get k m1 = None -> Map_get k (m1 ++ m2) = Map_get k m2.
Proof.
  induction m1 as [|[k' v'] m1 IH]; simpl; [done|].
  by destruct (String.eqb k k').
Qed.

(** While the namespace stays below its cap and the budget is not
    exhausted, every [set] of a fresh key is admitted, in order. *)
Lemma set_each_below_cap ns calls : forall w,
  isInitialized w = true ->
  colon_free ns = true -> ns <> EmptyString ->
  NoDup (calls.*1.*2) ->
  Forall (fun call => Map_get (generateKey ns call.1.2) (memoryCache w) = None) calls ->
  Z.of_nat (length (namespaceItems ns (memoryCache w))) + Z.of_nat (length calls)
    <= CacheConfig.maxSize (getConfig w ns) ->
  currentMemorySize w + total_size calls <= maxMemorySize w ->
  let w' := set_each ns calls w in
  memoryCache w' = memoryCache w ++ map (entry_of ns (getConfig w ns)) calls
  /\ currentMemorySize w' = currentMemorySize w + total_size calls
  /\ isInitialized w' = true
  /\ maxMemorySize w' = maxMemorySize w
  /\ CACHE_CONFIGS w' = CACHE_CONFIGS w.
Proof.
  induction calls as [|[[e key] d] calls IH]; intros w Hinit Hfree Hne Hdup Hfresh Hcap Hfit.
  - simpl. rewrite app_nil_r. split_and!; try done. lia.
  - cbn [set_each]. cbn [fmap list_fmap fst snd] in Hdup.
    apply NoDup_cons in Hdup as [Hnotin Hdup].
    apply Forall_cons in Hfresh as [Hkey Hfresh]. cbn [fst snd] in Hkey.
    cbn [length total_size foldr snd] in Hcap, Hfit. fold (total_size calls) in Hfit.
    pose proof (total_size_nonneg calls) as Hpos.
    pose proof (estimateSize_nonneg d) as Hd.
    destruct (set_frame e ns key d w Hinit) as (_ & _ & Hinit1 & Hmax1 & Hcfg1).
    destruct (set_fresh_below_cap e ns key d w Hinit Hfree Hne Hkey) as [Hmem1 Hcount1];
      [lia|lia|].
    set (w1 := (set e ns key d w).2) in *.
    assert (Hconfig : getConfig w1 ns = getConfig w ns) by (unfold getConfig; by rewrite Hcfg1).
    destruct (IH w1) as (Hmem & Hcount & Hinit' & Hmax' & Hcfg'); try done.
    + rewrite Hmem1. apply Forall_forall. intros call Hin.
      rewrite Forall_forall in Hfresh.
      rewrite (Map_get_app_None _ _ _ (Hfresh call Hin)). unfold entry_of.
      cbn [Map_get fst snd].
      destruct (String.eqb _ _) eqn:Heq; [|done].
      apply String.eqb_eq, generateKey_inj in Heq.
      exfalso. apply Hnotin. rewrite <- Heq.
      apply list_elem_of_fmap. exists call.1. split; [done|].
      apply list_elem_of_fmap. by exists call.
    + rewrite Hmem1, namespaceItems_app, length_app, Hconfig.
      rewrite (namespaceItems_entry ns _ _ Hfree Hne). simpl. lia.
    + rewrite Hcount1, Hmax1. lia.
    + rewrite Hmem, Hcount, Hmem1, Hcount1, Hconfig, Hmax', Hcfg', Hmax1, Hcfg1.
      split_and!; try done.
      * by rewrite <- app_assoc.
      * cbn [total_size foldr snd]. fold (total_size calls). lia.
Qed.

Lemma set_each_app ns calls1 calls2 w :
  set_each ns (calls1 ++ calls2) w = set_each ns calls2 (set_each ns calls1 w).
Proof.
  revert w. induction calls1 as [|[[e key] d] calls1 IH]; intros w; simpl; [done|].
  apply IH.
Qed.

(** No [set] evicts: on an initialized service the counter of evictions
    stays where it was. *)
Lemma set_evictions e ns key d w :
  isInitialized w = true ->
  evictions (cacheStats (set e ns key d w).2) = evictions (cacheStats w).
Proof.
  intros Hinit. rewrite (set_run e ns key d w Hinit). cbv zeta.
  destruct (admission_frame e ns key d w) as (Hstats & _).
  destruct (write_through_fails e ns key d w); simpl; rewrite ?Hstats; [done|].
  destruct (CacheConfig.persist (getConfig w ns)); [|simpl; by rewrite Hstats].
  destruct (JSON_stringify_item _); simpl; by rewrite Hstats.
Qed.

Lemma set_each_evictions ns calls : forall w,
  isInitialized w = true ->
  evictions (cacheStats (set_each ns calls w)) = evictions (cacheStats w).
Proof.
  induction calls as [|[[e key] d] calls IH]; intros w Hinit; simpl; [done|].
  destruct (set_frame e ns key d w Hinit) as (_ & _ & Hinit1 & _).
  rewrite (IH _ Hinit1). by apply set_evictions.
Qed.

Lemma namespaceItems_nil_fresh ns key (m : list (string * CacheItem.t T)) :
  colon_free ns = true -> ns <> EmptyString ->
  namespaceItems ns m = [] ->
  Map_get (generateKey ns key) m = None.
Proof.
  intros Hfree Hne Hnil.
  destruct (Map_get (generateKey ns key) m) as [v|] eqn:Hget; [|done].
  apply Map_get_Some_In in Hget.
  assert (Hin : In (generateKey ns key, v) (namespaceItems ns m)).
  { unfold namespaceItems. apply List.filter_In. split; [done|]. simpl.
    by rewrite (getNamespaceFromKey_generateKey ns key Hfree Hne), String.eqb_refl. }
  rewrite Hnil in Hin. done.
Qed.

Lemma namespaceItems_entries ns config calls :
  colon_free ns = true -> ns <> EmptyString ->
  namespaceItems ns (map (entry_of ns config) calls) = map (entry_of ns config) calls.
Proof.
  intros Hfree Hne. induction calls as [|c calls IH]; [done|].
  change (map (entry_of ns config) (c :: calls))
    with ([entry_of ns config c] ++ map (entry_of ns config) calls).
  by rewrite namespaceItems_app, IH, (namespaceItems_entry ns config c Hfree Hne).
Qed.

Lemma Map_get_entries_None ns config calls key :
  key ∉ calls.*1.*2 ->
  Map_get (generateKey ns key) (map (entry_of ns config) calls) = None.
Proof.
  induction calls as [|c calls IH]; [done|].
  cbn [fmap list_fmap map]. intros Hnotin.
  apply not_elem_of_cons in Hnotin as [Hne Hnotin].
  unfold entry_of at 1. cbn [Map_get].
  destruct (String.eqb _ _) eqn:Heq; [|by apply IH].
  apply String.eqb_eq, generateKey_inj in Heq. done.
Qed.
End Runs.

(** ** The table keeps its namespaces *)

Lemma Map_get_Some_fst {V} k (v : V) (m : list (string * V)) :
  Map_get k m = Some v -> k ∈ m.*1.
Proof.
  intros Hget. apply Map_get_Some_In in Hget.
  apply list_elem_of_fmap. exists (k, v). split; [done|]. by apply list_elem_of_In.
Qed.

Section Table.
Context {T : Type} `{JSON T}.
Implicit Types (w : World T) (e : Env).

Lemma new_service_declared (storage : gmap string string) :
  declared_namespaces (new_service (T := T) storage).
Proof. done. Qed.

Lemma load_one_table e key w : CACHE_CONFIGS (load_one e key w).2 = CACHE_CONFIGS w.
Proof.
  unfold load_one, AsyncStorage_getItem. unfold_M.
  repeat (case_match; simplify_eq; simpl); done.
Qed.

Lemma for_of_table {A} (body : A -> M (T := T) unit) (xs : list A) :
  (forall x w, CACHE_CONFIGS (body x w).2 = CACHE_CONFIGS w) ->
  forall w, CACHE_CONFIGS (for_of xs body w).2 = CACHE_CONFIGS w.
Proof.
  intros Hbody. induction xs as [|x xs IH]; intros w; simpl; [done|].
  unfold mbind, M_bind, bind. specialize (Hbody x w).
  destruct (body x w) as [[[]|] w1]; simpl in *; [|done].
  by rewrite IH.
Qed.

Lemma loadPersistedHighPriorityItems_table e w :
  CACHE_CONFIGS (loadPersistedHighPriorityItems e w).2 = CACHE_CONFIGS w.
Proof.
  unfold loadPersistedHighPriorityItems, AsyncStorage_getAllKeys.
  unfold try_catch, mbind, M_bind, bind, ret.
  destruct (getAllKeys_fails e); [done|].
  pose proof (for_of_table (load_one e)
                (List.filter startsWith_cache (map_to_list (AsyncStorage w)).*1)
                (load_one_table e) w) as Hloop.
  by destruct (for_of _ _ w) as [[[]|] w1].
Qed.

Lemma scale_table_names (table : list (string * CacheConfig.t)) :
  (map (fun nc => (nc.1, scale_maxSize nc.2)) table).*1 = table.*1.
Proof. induction table as [|[n c] table IH]; [done|]. cbn. f_equal. exact IH. Qed.

Lemma initialize_declared e w :
  declared_namespaces w -> declared_namespaces (initialize e w).2.
Proof.
  unfold declared_namespaces, initialize. unfold_M. intros Hw.
  destruct (isInitialized w); [done|].
  pose proof (loadPersistedHighPriorityItems_table e w) as Hload.
  destruct (loadPersistedHighPriorityItems_returns e w) as [w1 Hrun].
  rewrite Hrun in Hload |- *. simpl in *.
  unfold optimizeForPlatform. destruct (Platform_OS_web e); simpl; [congruence|].
  rewrite scale_table_names. congruence.
Qed.

Lemma set_declared e ns key d w :
  declared_namespaces w -> declared_namespaces (set e ns key d w).2.
Proof.
  intros Hw. apply (initialize_declared e) in Hw.
  destruct (initialize_returns e w) as [_ Hinit].
  rewrite set_initializes.
  destruct (set_frame e ns key d _ Hinit) as (_ & _ & _ & _ & Hcfg).
  unfold declared_namespaces in *. by rewrite Hcfg.
Qed.

Lemma get_declared e ns key w :
  declared_namespaces w -> declared_namespaces (get e ns key w).2.
Proof.
  intros Hw. apply (initialize_declared e) in Hw.
  destruct (initialize_returns e w) as [_ Hinit].
  rewrite get_initializes, (get_run e ns key _ Hinit). cbv zeta.
  unfold declared_namespaces in *.
  repeat (case_match; simpl); done.
Qed.

Lemma purge_fold_table (keys : list string) : forall w,
  CACHE_CONFIGS (fold_left (fun w key => purge key w) keys w) = CACHE_CONFIGS w.
Proof.
  induction keys as [|key keys IH]; intros w; simpl; [done|].
  rewrite IH. unfold purge. by destruct (Map_get key (memoryCache w)).
Qed.

Lemma remove_table e ns key w : CACHE_CONFIGS (remove e ns key w).2 = CACHE_CONFIGS w.
Proof.
  unfold remove, AsyncStorage_removeItem, purge. unfold_M.
  repeat (case_match; simplify_eq; simpl); done.
Qed.

Lemma remove_declared e ns key w :
  declared_namespaces w -> declared_namespaces (remove e ns key w).2.
Proof. unfold declared_namespaces. by rewrite remove_table. Qed.

Lemma clearNamespace_table e ns w : CACHE_CONFIGS (clearNamespace e ns w).2 = CACHE_CONFIGS w.
Proof.
  unfold clearNamespace, AsyncStorage_getAllKeys, AsyncStorage_multiRemove.
  unfold_M. cbv beta iota zeta.
  set (w1 := fold_left (fun w key => purge key w) _ w).
  assert (Hcfg : CACHE_CONFIGS w1 = CACHE_CONFIGS w) by apply purge_fold_table.
  repeat (case_match; simplify_eq; simpl); done.
Qed.

Lemma clearNamespace_declared e ns w :
  declared_namespaces w -> declared_namespaces (clearNamespace e ns w).2.
Proof. unfold declared_namespaces. by rewrite clearNamespace_table. Qed.

Lemma handleAppStateChange_declared (s : AppStateStatus) w :
  declared_namespaces w -> declared_namespaces (handleAppStateChange s w).
Proof.
  assert (Hshrink : CACHE_CONFIGS (reduceMemoryFootprint w) = CACHE_CONFIGS w).
  { unfold reduceMemoryFootprint. destruct (_ <=? 50)%nat; [done|].
    assert (Hgen : forall (l : list (string * CacheItem.t T)) w0,
      CACHE_CONFIGS (fold_left (fun w kv => updateMemorySize kv.1 kv.2 None
                                  (with_memoryCache (Map_set kv.1 kv.2) w)) l w0)
      = CACHE_CONFIGS w0).
    { induction l as [|kv l IH]; intros w0; simpl; [done|]. by rewrite IH. }
    by rewrite Hgen. }
  unfold declared_namespaces. intros Hw.
  destruct s; simpl; by rewrite ?Hshrink.
Qed.

(** Under the declared table a namespace is either well formed, or it names
    no hot-tier entry and falls under the default policy, whose cap is 50. *)
Lemma well_formed_or_unused w ns :
  declared_namespaces w ->
  (colon_free ns = true /\ ns <> EmptyString)
  \/ (namespaceItems ns (memoryCache w) = []
      /\ 0 < CacheConfig.maxSize (getConfig w ns)).
Proof.
  intros Hnames.
  destruct (colon_free ns) eqn:Hfree; [destruct (decide (ns = EmptyString)) as [->|Hne]|];
    [right|by left|right].
  - split; [apply namespaceItems_ill_formed; by right|].
    unfold getConfig. destruct (Map_get _ (CACHE_CONFIGS w)) as [c|] eqn:Hget; [|done].
    apply Map_get_Some_fst in Hget. rewrite Hnames in Hget. cbn in Hget.
    repeat (apply elem_of_cons in Hget as [?|Hget]; [done|]).
    by apply not_elem_of_nil in Hget.
  - split; [apply namespaceItems_ill_formed; by left|].
    unfold getConfig. destruct (Map_get ns (CACHE_CONFIGS w)) as [c|] eqn:Hget; [|done].
    apply Map_get_Some_fst in Hget. rewrite Hnames in Hget. cbn in Hget.
    repeat (apply elem_of_cons in Hget as [->|Hget]; [done|]).
    by apply not_elem_of_nil in Hget.
Qed.
End Table.

(** ** Where the byte counter follows the hot tier *)

Section Accounting.
Context {T : Type} `{JSON T}.
Implicit Types (w : World T) (e : Env) (m : list (string * CacheItem.t T)).

Lemma resident_bytes_Map_set k v m :
  resident_bytes (Map_set k v m)
  = resident_bytes m + (sizeOf v - match Map_get k m with Some o => sizeOf o | None => 0 end).
Proof.
  unfold resident_bytes. induction m as [|[k' v'] m IH]; simpl; [lia|].
  destruct (String.eqb k k'); simpl; [lia|]. rewrite IH. lia.
Qed.

(** [set] keeps the counter equal to the sum of the resident sizes. *)
Lemma set_preserves_accounted e ns key d w :
  accounted (initialize e w).2 -> accounted (set e ns key d w).2.
Proof.
  unfold accounted. intros Hacc.
  destruct (initialize_returns e w) as [_ Hinit].
  rewrite set_initializes.
  destruct (set_frame e ns key d _ Hinit) as (-> & -> & _).
  rewrite admission_no_eviction. destruct (canAddToMemory _ _ _); [|done].
  unfold store, updateMemorySize. simpl.
  rewrite resident_bytes_Map_set, Hacc. done.
Qed.

Lemma filter_sublist {A} (f : A -> bool) (l : list A) : List.filter f l `sublist_of` l.
Proof.
  induction l as [|x l IH]; simpl; [done|].
  destruct (f x); by constructor.
Qed.

Lemma rebuild_accounted (l : list (string * CacheItem.t T)) : forall w,
  accounted w ->
  NoDup l.*1 ->
  Forall (fun kv => Map_get kv.1 (memoryCache w) = None) l ->
  accounted (fold_left (fun w kv => updateMemorySize kv.1 kv.2 None
                                      (with_memoryCache (Map_set kv.1 kv.2) w)) l w).
Proof.
  induction l as [|[k v] l IH]; intros w Hacc Hdup Hfresh; simpl; [done|].
  cbn in Hdup. apply NoDup_cons in Hdup as [Hnotin Hdup].
  apply Forall_cons in Hfresh as [Hk Hfresh]. simpl in Hk.
  apply IH; [|done|].
  - unfold accounted, updateMemorySize in *. simpl.
    rewrite resident_bytes_Map_set, Hk, Hacc. done.
  - apply Forall_forall. intros [k' v'] Hin. simpl.
    rewrite Forall_forall in Hfresh. specialize (Hfresh _ Hin). simpl in Hfresh.
    rewrite Map_get_set_ne; [done|].
    intros ->. apply Hnotin. apply list_elem_of_fmap. by exists (k', v').
Qed.

(** The footprint shrink recomputes the counter from the items it keeps. *)
Lemma reduceMemoryFootprint_accounted w :
  NoDup (Map_keys (memoryCache w)) ->
  (50 < length (memoryCache w))%nat ->
  accounted (reduceMemoryFootprint w).
Proof.
  intros Hdup Hbig. unfold reduceMemoryFootprint.
  rewrite (proj2 (Nat.leb_gt _ _)) by lia.
  apply rebuild_accounted.
  - done.
  - unfold Map_keys in Hdup. eapply sublist_NoDup; [exact Hdup|].
    apply fmap_sublist. etrans; [apply sublist_take|apply filter_sublist].
  - by apply Forall_forall.
Qed.
End Accounting.

(** * The claims *)

Section SetClaims.
Context {T : Type} `{JSON T}.
Implicit Types (w : World T) (e : Env).

(** C9.  When the hot tier already holds [maxSize] entries of a namespace
    that has a configured cap (a declared namespace, or one under the
    default policy: not a name that the table inherits from
    [Object.prototype], under which the source reads no cap at all), a
    [set] on a key of that namespace that is resident is refused by the
    admission check, which counts the resident entry itself: the hot tier
    and its byte counter are left as they were and the entry keeps its old
    item.  The durable store alone changes: when the namespace persists
    and the write goes through, the key is bound to the new record. *)
Theorem replacement_denied_at_cap e ns key d w old :
  let w1 := (initialize e w).2 in
  let cacheKey := generateKey ns key in
  let config := getConfig w1 ns in
  declared_namespaces w ->
  inherited ns = false ->
  Z.of_nat (length (namespaceItems ns (memoryCache w1))) = CacheConfig.maxSize config ->
  Map_get cacheKey (memoryCache w1) = Some old ->
  let w' := (set e ns key d w).2 in
  Map_get cacheKey (memoryCache w') = Some old
  /\ memoryCache w' = memoryCache w1
  /\ currentMemorySize w' = currentMemorySize w1
  /\ (CacheConfig.persist config = false -> AsyncStorage w' = AsyncStorage w1)
  /\ (write_through_fails e ns key d w1 = true -> AsyncStorage w' = AsyncStorage w1)
  /\ (forall text,
        CacheConfig.persist config = true ->
        JSON_stringify_item (new_item e config d) = Some text ->
        setItem_fails e cacheKey = false ->
        AsyncStorage w' = <[cacheKey := text]> (AsyncStorage w1)).
Proof.
  intros w1 cacheKey config Hnames _ Hcap Hold w'.
  destruct (initialize_returns e w) as [_ Hinit]. fold w1 in Hinit.
  apply (initialize_declared e) in Hnames. fold w1 in Hnames.
  assert (Hns : getNamespaceFromKey cacheKey = ns).
  { destruct (well_formed_or_unused w1 ns Hnames) as [[Hfree Hne]|Hunused].
    - by apply getNamespaceFromKey_generateKey.
    - rewrite (proj1 Hunused) in Hcap. fold config in Hunused. simpl in Hcap. lia. }
  assert (Hrefused : admission e ns key d w1 = w1).
  { rewrite admission_no_eviction.
    rewrite canAddToMemory_at_cap; [done|].
    fold cacheKey. rewrite Hns. fold config. lia. }
  subst w'. rewrite set_initializes. fold w1.
  rewrite (set_run e ns key d w1 Hinit). cbv zeta. rewrite Hrefused.
  fold config cacheKey. unfold write_through_fails. fold config cacheKey.
  destruct (CacheConfig.persist config) eqn:Hpersist; cbn [andb].
  - destruct (JSON_stringify_item (new_item e config d)) as [text|] eqn:Htext.
    + assert (JSON_stringify d = None -> False) as Hd.
      { intros Hd. apply (JSON_stringify_item_None (new_item e config d)) in Hd. congruence. }
      rewrite bool_decide_eq_false_2 by done. cbn [orb].
      destruct (setItem_fails e cacheKey); simpl; repeat split; try done.
      intros text' _ [= <-] _. done.
    + apply JSON_stringify_item_None in Htext. cbn [CacheItem.data new_item] in Htext.
      rewrite bool_decide_eq_true_2 by done. simpl. repeat split; done.
  - simpl. repeat split; done.
Qed.

(** C5, amended.  [set] always returns; it returns [false] exactly when the
    namespace persists and the write-through fails, because the record does
    not serialize or because the durable store rejects the write, and then
    it counts one error.  The hot tier is updated before the write-through
    and whatever its outcome: a value that does not serialize is given the
    1024-byte estimate and passes through the same admission check.  A
    refused admission alone leaves the result [true]. *)
Theorem set_failure_contract e ns key d w :
  let w1 := (initialize e w).2 in
  let failed := write_through_fails e ns key d w1 in
  let w' := (set e ns key d w).2 in
  (set e ns key d w).1 = Returned (negb failed)
  /\ errors (cacheStats w') = errors (cacheStats w1) + (if failed then 1 else 0)
  /\ memoryCache w' = memoryCache (admission e ns key d w1)
  /\ currentMemorySize w' = currentMemorySize (admission e ns key d w1)
  /\ (JSON_stringify d = None ->
      CacheItem.size (new_item e (getConfig w1 ns) d) = Some 1024).
Proof.
  intros w1 failed w'.
  destruct (initialize_returns e w) as [_ Hinit]. fold w1 in Hinit.
  subst w'. rewrite set_initializes. fold w1.
  rewrite (set_run e ns key d w1 Hinit). cbv zeta. fold failed.
  assert (Hsize : JSON_stringify d = None ->
                  CacheItem.size (new_item e (getConfig w1 ns) d) = Some 1024).
  { intros Hd. unfold new_item, estimateSize. simpl. by rewrite Hd. }
  destruct (admission_frame e ns key d w1) as (Hstats & _).
  destruct failed; simpl; rewrite ?Hstats.
  - repeat split; try done.
  - destruct (CacheConfig.persist (getConfig w1 ns));
      [destruct (JSON_stringify_item _)|];
      simpl; rewrite ?Hstats; repeat split; try done; lia.
Qed.
End SetClaims.

Section GetClaims.
Context {T : Type} `{JSON T}.
Implicit Types (w : World T) (e : Env).

(** C3.  [get] always returns, and never the payload of an item whose age
    [Date.now() - timestamp] exceeds its [ttl].  An expired item found in the
    hot tier is deleted from the hot tier and the call returns [null]; an
    expired record found in the durable store makes the call return [null]
    and is removed from the store, provided the store accepts the removal.
    Any payload that is returned comes from an unexpired item of one of the
    two tiers. *)
Theorem expiration_correctness e ns key w :
  let w1 := (initialize e w).2 in
  let cacheKey := generateKey ns key in
  let r := (get e ns key w).1 in
  let w' := (get e ns key w).2 in
  (exists o, r = Returned o)
  /\ (forall item,
        Map_get cacheKey (memoryCache w1) = Some item ->
        CacheItem.ttl item < Date_now e - CacheItem.timestamp item ->
        r = Returned None /\ Map_get cacheKey (memoryCache w') = None)
  /\ (forall text item,
        Map_get cacheKey (memoryCache w1) = None ->
        CacheConfig.persist (getConfig w1 ns) = true ->
        getItem_fails e cacheKey = false ->
        truthy (AsyncStorage w1 !! cacheKey) = Some text ->
        JSON_parse text = Some item ->
        CacheItem.ttl item < Date_now e - CacheItem.timestamp item ->
        r = Returned None
        /\ (removeItem_fails e cacheKey = false -> AsyncStorage w' !! cacheKey = None))
  /\ (forall v,
        r = Returned (Some v) ->
        exists item,
          CacheItem.data item = v
          /\ Date_now e - CacheItem.timestamp item <= CacheItem.ttl item
          /\ (Map_get cacheKey (memoryCache w1) = Some item
              \/ (Map_get cacheKey (memoryCache w1) = None
                  /\ exists text, AsyncStorage w1 !! cacheKey = Some text
                                  /\ JSON_parse text = Some item))).
Proof.
  intros w1 cacheKey r w'. subst r w'.
  destruct (initialize_returns e w) as [_ Hinit]. fold w1 in Hinit.
  rewrite get_initializes. fold w1.
  rewrite (get_run e ns key w1 Hinit). cbv zeta. fold cacheKey.
  destruct (Map_get cacheKey (memoryCache w1)) as [memoryItem|] eqn:Hmem.
  - destruct (isExpired e memoryItem) eqn:Hexp; cbn [fst snd].
    + split_and!; [by eauto| |done|done].
      intros it [= <-] _. split; [done|]. apply Map_get_delete_eq.
    + apply isExpired_false in Hexp.
      split_and!; [by eauto| |done|].
      * intros it [= <-] Hold. lia.
      * intros v [= <-]. exists memoryItem. by eauto.
  - destruct (CacheConfig.persist (getConfig w1 ns)) eqn:Hpersist;
      [|split_and!; by eauto].
    destruct (getItem_fails e cacheKey) eqn:Hget; [split_and!; by eauto|].
    destruct (truthy (AsyncStorage w1 !! cacheKey)) as [text|] eqn:Htext;
      [|split_and!; by eauto].
    assert (Hstored : AsyncStorage w1 !! cacheKey = Some text).
    { destruct (AsyncStorage w1 !! cacheKey) as [[|c s]|]; simpl in Htext; congruence. }
    destruct (JSON_parse text) as [parsedItem|] eqn:Hparse;
      [|split_and!; [by eauto|done| |done]; intros ? ? _ _ _ [= <-] ?; congruence].
    destruct (isExpired e parsedItem) eqn:Hexp.
    + destruct (removeItem_fails e cacheKey) eqn:Hrm; cbn [fst snd];
        (split_and!; [by eauto|done| |done]);
        intros text' it _ _ _ [= <-] _ _; (split; [done|]); [done|].
      intros _. apply lookup_delete_eq.
    + apply isExpired_false in Hexp. cbn [fst snd].
      split_and!; [by eauto|done| |].
      * intros text' it _ _ _ [= <-] Hitem Hold.
        rewrite Hparse in Hitem. injection Hitem as <-. lia.
      * intros v [= <-]. exists parsedItem. split_and!; [done|done|]. right. by eauto.
Qed.

(** The expired branch of the hot tier returns before any counter of
    outcomes is touched: the call is counted as a request and as nothing
    else. *)
Lemma get_expired_hot_stats e ns key w item :
  let w1 := (initialize e w).2 in
  Map_get (generateKey ns key) (memoryCache w1) = Some item ->
  isExpired e item = true ->
  (get e ns key w).1 = Returned None
  /\ cacheStats (get e ns key w).2 = incr_totalRequests (cacheStats w1).
Proof.
  intros w1 Hmem Hexp.
  destruct (initialize_returns e w) as [_ Hinit]. fold w1 in Hinit.
  rewrite get_initializes. fold w1.
  rewrite (get_run e ns key w1 Hinit). cbv zeta. by rewrite Hmem, Hexp.
Qed.

(** Every other path of [get] counts the call once: as a hit, as a miss or
    as an error. *)
Lemma get_counts e ns key w :
  let w1 := (initialize e w).2 in
  let s := cacheStats w1 in
  let s' := cacheStats (get e ns key w).2 in
  totalRequests s' = totalRequests s + 1
  /\ evictions s' = evictions s
  /\ ((exists item, Map_get (generateKey ns key) (memoryCache w1) = Some item
                    /\ isExpired e item = true)
      \/ hits s' + misses s' + errors s' = hits s + misses s + errors s + 1
         /\ hits s <= hits s' /\ misses s <= misses s' /\ errors s <= errors s').
Proof.
  intros w1 s s'. subst s s'.
  destruct (initialize_returns e w) as [_ Hinit]. fold w1 in Hinit.
  rewrite get_initializes. fold w1.
  rewrite (get_run e ns key w1 Hinit). cbv zeta.
  destruct (Map_get _ (memoryCache w1)) as [item|].
  - destruct (isExpired e item) eqn:Hexp; simpl.
    + split_and!; [done|done|]. left. by eauto.
    + split_and!; [done|done|]. right. lia.
  - repeat (case_match; simpl); (split_and!; [done|done|]); right; lia.
Qed.

(** C6, amended.  A [get] that follows a [set] of the same key, no later
    than the [ttl] of the namespace after it, returns the payload that was
    set in two cases: the admission check accepted the new item; or the key
    was not resident, the namespace persists, the durable write and read
    go through and the record parses back to the item written. *)
Theorem read_your_write e e' ns key d w :
  let w1 := (initialize e w).2 in
  let cacheKey := generateKey ns key in
  let cacheItem := new_item e (getConfig w1 ns) d in
  let w2 := (set e ns key d w).2 in
  Date_now e' - Date_now e <= CacheConfig.ttl (getConfig w1 ns) ->
  canAddToMemory w1 cacheKey cacheItem = true
  \/ (Map_get cacheKey (memoryCache w1) = None
      /\ CacheConfig.persist (getConfig w1 ns) = true
      /\ setItem_fails e cacheKey = false
      /\ getItem_fails e' cacheKey = false
      /\ exists text, JSON_stringify_item cacheItem = Some text
                      /\ JSON_parse text = Some cacheItem) ->
  (get e' ns key w2).1 = Returned (Some d).
Proof.
  intros w1 cacheKey cacheItem w2 Hfresh Hcases.
  destruct (initialize_returns e w) as [_ Hinit]. fold w1 in Hinit.
  assert (Hw2 : w2 = (set e ns key d w1).2) by (subst w2; by rewrite set_initializes).
  destruct (set_frame e ns key d w1 Hinit) as (Hmem & _ & Hinit2 & _ & Hcfg).
  rewrite <- Hw2 in Hmem, Hinit2, Hcfg.
  assert (Hconfig : getConfig w2 ns = getConfig w1 ns) by (unfold getConfig; by rewrite Hcfg).
  assert (Hlive : isExpired e' cacheItem = false) by (apply isExpired_false; simpl; lia).
  rewrite admission_no_eviction in Hmem. fold cacheKey cacheItem in Hmem.
  rewrite (get_run e' ns key w2 Hinit2). cbv zeta. fold cacheKey.
  destruct (canAddToMemory w1 cacheKey cacheItem) eqn:Hadd.
  - rewrite Hmem. unfold store, updateMemorySize. unfold_fields. cbn [memoryCache].
    rewrite Map_get_set_eq, Hlive. done.
  - destruct Hcases as [?|(Hnone & Hpersist & Hset & Hget & text & Htext & Hparse)]; [done|].
    rewrite Hmem, Hnone, Hconfig, Hpersist, Hget.
    rewrite Hw2, (set_storage e ns key d w1 text Hinit Hpersist Htext Hset).
    fold cacheKey. rewrite lookup_insert_eq, (truthy_record cacheItem text Htext).
    rewrite Hparse, Hlive. done.
Qed.
End GetClaims.

Section AdmissionCap.
Context {T : Type} `{JSON T}.
Implicit Types (w : World T) (calls : list (Env * string * T)).

(** C2, amended.  On an initialized service, take a namespace (not empty,
    without a colon, and not a name that the table inherits from
    [Object.prototype]) of which the hot tier holds no entry, and
    [maxSize + 1] calls of [set] with distinct keys, the first [maxSize]
    of which fit the byte budget.  Afterwards the namespace holds exactly
    [maxSize] entries: those of the first [maxSize] calls, in the order of
    the calls.  The key that is not resident is the one set last: the
    admission check refuses it, and no entry is evicted. *)
Theorem admission_cap ns calls (last : Env * string * T) w :
  isInitialized w = true ->
  colon_free ns = true -> ns <> EmptyString ->
  inherited ns = false ->
  namespaceItems ns (memoryCache w) = [] ->
  NoDup ((calls ++ [last]).*1.*2) ->
  Z.of_nat (length calls) = CacheConfig.maxSize (getConfig w ns) ->
  currentMemorySize w + total_size calls <= maxMemorySize w ->
  let w' := set_each ns (calls ++ [last]) w in
  Z.of_nat (length (namespaceItems ns (memoryCache w'))) = CacheConfig.maxSize (getConfig w ns)
  /\ namespaceItems ns (memoryCache w') = map (entry_of ns (getConfig w ns)) calls
  /\ Map_get (generateKey ns last.1.2) (memoryCache w') = None
  /\ evictions (cacheStats w') = evictions (cacheStats w).
Proof.
  intros Hinit Hfree Hne _ Hnil Hdup Hlen Hfit w'.
  rewrite !fmap_app in Hdup. apply NoDup_app in Hdup as (Hdup & Hlast & _).
  assert (Hnotin : last.1.2 ∉ calls.*1.*2).
  { intros Hin. apply (Hlast _ Hin). cbn. by left. }
  destruct (set_each_below_cap ns calls w) as (Hmem & Hcount & Hinit1 & Hmax1 & Hcfg1);
    try done.
  { apply Forall_forall. intros call _. by apply namespaceItems_nil_fresh. }
  { rewrite Hnil. simpl. lia. }
  assert (Hitems : namespaceItems ns (memoryCache (set_each ns calls w))
                   = map (entry_of ns (getConfig w ns)) calls).
  { by rewrite Hmem, namespaceItems_app, Hnil, namespaceItems_entries. }
  assert (Hconfig : getConfig (set_each ns calls w) ns = getConfig w ns)
    by (unfold getConfig; by rewrite Hcfg1).
  subst w'. rewrite set_each_app. destruct last as [[e key] d]. cbn [set_each fst snd] in *.
  destruct (set_at_cap e ns key d (set_each ns calls w)) as [Hsame _]; try done.
  { rewrite Hconfig, Hitems, length_map. lia. }
  rewrite Hsame, Hitems, length_map.
  split_and!; [done|done| |].
  - rewrite Hmem, Map_get_app_None; [by apply Map_get_entries_None|].
    by apply namespaceItems_nil_fresh.
  - rewrite set_evictions by done. by apply set_each_evictions.
Qed.
End AdmissionCap.

Section Footprint.
Context {T : Type} `{JSON T}.
Implicit Types (w : World T) (m : list (string * CacheItem.t T)).

Lemma Map_set_Forall (P : string * CacheItem.t T -> Prop) k v m :
  Forall P m -> P (k, v) -> Forall P (Map_set k v m).
Proof.
  intros Hm Hkv. induction m as [|[k' v'] m IH]; simpl.
  - by constructor.
  - inversion Hm; subst. destruct (String.eqb k k'); constructor; auto.
Qed.

Lemma rebuild_bound (l : list (string * CacheItem.t T)) : forall w,
  (length (memoryCache
     (fold_left (fun w kv => updateMemorySize kv.1 kv.2 None
                               (with_memoryCache (Map_set kv.1 kv.2) w)) l w))
   <= length (memoryCache w) + length l)%nat.
Proof.
  induction l as [|[k v] l IH]; intros w; simpl; [lia|].
  etrans; [apply IH|]. simpl.
  pose proof (Map_set_length_le k v (memoryCache w)). lia.
Qed.

Lemma rebuild_Forall (P : string * CacheItem.t T -> Prop) (l : list (string * CacheItem.t T)) :
  forall w,
  Forall P (memoryCache w) -> Forall P l ->
  Forall P (memoryCache
     (fold_left (fun w kv => updateMemorySize kv.1 kv.2 None
                               (with_memoryCache (Map_set kv.1 kv.2) w)) l w)).
Proof.
  induction l as [|[k v] l IH]; intros w Hw Hl; simpl; [done|].
  inversion Hl; subst. apply IH; [|done]. simpl. by apply Map_set_Forall.
Qed.

(** C8.  On the transition to [background] or [inactive], a hot tier of
    more than 50 items is cut down to at most 75 items, each of priority
    [high] or [medium]; a hot tier of 50 items or fewer is left as it is. *)
Theorem footprint_shrink (nextAppState : AppStateStatus) w :
  nextAppState = background \/ nextAppState = inactive ->
  let w' := handleAppStateChange nextAppState w in
  ((50 < length (memoryCache w))%nat ->
     (length (memoryCache w') <= 75)%nat
     /\ Forall (fun kv => CacheItem.priority kv.2 = high \/ CacheItem.priority kv.2 = medium)
               (memoryCache w'))
  /\ ((length (memoryCache w) <= 50)%nat -> w' = w).
Proof.
  intros Hstate w'.
  assert (Hw' : w' = reduceMemoryFootprint w) by (by destruct Hstate as [-> | ->]).
  rewrite Hw'. unfold reduceMemoryFootprint. split.
  - intros Hbig. rewrite (proj2 (Nat.leb_gt _ _)) by lia. split.
    + etrans; [apply rebuild_bound|]. simpl. rewrite length_take. lia.
    + apply rebuild_Forall; [by constructor|].
      apply Forall_take, Forall_forall. intros kv Hin.
      apply list_elem_of_In, List.filter_In in Hin as [_ Hkeep].
      unfold keepable in Hkeep. destruct (CacheItem.priority kv.2); auto. done.
  - intros Hsmall. by rewrite (proj2 (Nat.leb_le _ _) Hsmall).
Qed.
End Footprint.

Section Hydration.
Context {T : Type} `{JSON T}.
Implicit Types (w : World T) (e : Env).

Lemma for_of_fold {A} (body : A -> M (T := T) unit) (f : World T -> A -> World T) (xs : list A) :
  (forall x w, body x w = (Returned tt, f w x)) ->
  forall w, for_of xs body w = (Returned tt, fold_left f xs w).
Proof.
  intros Hbody. induction xs as [|x xs IH]; intros w; simpl; [done|].
  unfold mbind, M_bind, bind. by rewrite Hbody, IH.
Qed.

(** One turn of the loop of the hydration is one step of the worded version. *)
Lemma load_one_hydrate_step e key w :
  load_one e key w = (Returned tt, hydrate_step e w key).
Proof.
  unfold load_one, hydrate_step, hydrated_item, AsyncStorage_getItem.
  unfold_M. destruct (getItem_fails e key); [done|].
  destruct (truthy (AsyncStorage w !! key)) as [text|]; [|done]. simpl.
  destruct (JSON_parse text) as [item|]; [|done]. simpl.
  destruct (bool_decide (CacheItem.priority item = high)); [|done].
  destruct (isExpired e item); [done|]. simpl.
  by destruct (canAddToMemory w key item).
Qed.

Lemma hydrate_step_storage e w key :
  AsyncStorage (hydrate_step e w key) = AsyncStorage w
  /\ CACHE_CONFIGS (hydrate_step e w key) = CACHE_CONFIGS w.
Proof. unfold hydrate_step. by destruct (hydrated_item e w key). Qed.

Lemma hydrate_fold_storage e (keys : list string) : forall w,
  AsyncStorage (fold_left (hydrate_step e) keys w) = AsyncStorage w
  /\ CACHE_CONFIGS (fold_left (hydrate_step e) keys w) = CACHE_CONFIGS w.
Proof.
  induction keys as [|key keys IH]; intros w; simpl; [done|].
  destruct (IH (hydrate_step e w key)) as [-> ->]. apply hydrate_step_storage.
Qed.

(** What the worded step takes into the hot tier. *)
Lemma hydrated_item_iff e w key item :
  hydrated_item e w key = Some item <->
  getItem_fails e key = false
  /\ (exists text, truthy (AsyncStorage w !! key) = Some text /\ JSON_parse text = Some item)
  /\ CacheItem.priority item = high
  /\ Date_now e - CacheItem.timestamp item <= CacheItem.ttl item
  /\ canAddToMemory w key item = true.
Proof.
  unfold hydrated_item. rewrite <- isExpired_false.
  destruct (getItem_fails e key); [split; [done|by intros [? _]]|].
  destruct (truthy (AsyncStorage w !! key)) as [text|]; simpl;
    [|split; [done|by intros (_ & (? & ? & _) & _)]].
  destruct (JSON_parse text) as [parsed|] eqn:Hparse; simpl;
    [|split; [done|intros (_ & (? & [= <-] & ?) & _); congruence]].
  split.
  - destruct (bool_decide (CacheItem.priority parsed = high)) eqn:Hhigh; [|done].
    apply bool_decide_eq_true in Hhigh.
    destruct (isExpired e parsed) eqn:Hexp; [done|].
    destruct (canAddToMemory w key parsed) eqn:Hadd; [|done].
    intros [= <-]. split_and!; by eauto.
  - intros (_ & (text' & [= <-] & Hitem) & Hhigh & Hexp & Hadd).
    rewrite Hparse in Hitem. injection Hitem as ->.
    by rewrite (bool_decide_eq_true_2 _ Hhigh), Hexp, Hadd.
Qed.

(** C7, amended.  The hydration pass reads the records of all durable keys
    that begin with [cache:], in the order of [getAllKeys], and takes a
    record into the hot tier exactly when it can be read and parsed, has
    priority [high], is not expired and passes the admission check at its
    turn.  It writes nothing to the durable store: expired and unparsable
    records are skipped and stay where they are. *)
Theorem hydration_pass e w :
  let w' := (loadPersistedHighPriorityItems e w).2 in
  let cacheKeys := List.filter startsWith_cache (map_to_list (AsyncStorage w)).*1 in
  (loadPersistedHighPriorityItems e w).1 = Returned tt
  /\ AsyncStorage w' = AsyncStorage w
  /\ (getAllKeys_fails e = true -> w' = w)
  /\ (getAllKeys_fails e = false -> w' = fold_left (hydrate_step e) cacheKeys w)
  /\ (forall w0 key,
        (forall item,
           getItem_fails e key = false ->
           (exists text, truthy (AsyncStorage w0 !! key) = Some text
                         /\ JSON_parse text = Some item) ->
           CacheItem.priority item = high ->
           Date_now e - CacheItem.timestamp item <= CacheItem.ttl item ->
           canAddToMemory w0 key item = true ->
           hydrate_step e w0 key = store key item None w0)
        /\ (hydrate_step e w0 key <> w0 ->
            exists item,
              getItem_fails e key = false
              /\ (exists text, truthy (AsyncStorage w0 !! key) = Some text
                               /\ JSON_parse text = Some item)
              /\ CacheItem.priority item = high
              /\ Date_now e - CacheItem.timestamp item <= CacheItem.ttl item
              /\ canAddToMemory w0 key item = true)).
Proof.
  intros w' cacheKeys. subst w'.
  assert (Hsteps : forall w0 key,
    (forall item,
       getItem_fails e key = false ->
       (exists text, truthy (AsyncStorage w0 !! key) = Some text
                     /\ JSON_parse text = Some item) ->
       CacheItem.priority item = high ->
       Date_now e - CacheItem.timestamp item <= CacheItem.ttl item ->
       canAddToMemory w0 key item = true ->
       hydrate_step e w0 key = store key item None w0)
    /\ (hydrate_step e w0 key <> w0 ->
        exists item,
          getItem_fails e key = false
          /\ (exists text, truthy (AsyncStorage w0 !! key) = Some text
                           /\ JSON_parse text = Some item)
          /\ CacheItem.priority item = high
          /\ Date_now e - CacheItem.timestamp item <= CacheItem.ttl item
          /\ canAddToMemory w0 key item = true)).
  { intros w0 key. split.
    - intros item Hget Htext Hhigh Hlive Hadd. unfold hydrate_step.
      by rewrite (proj2 (hydrated_item_iff e w0 key item)).
    - unfold hydrate_step. destruct (hydrated_item e w0 key) as [item|] eqn:Hitem; [|done].
      intros _. exists item. by apply hydrated_item_iff. }
  unfold loadPersistedHighPriorityItems, AsyncStorage_getAllKeys.
  unfold try_catch, mbind, M_bind, bind, ret.
  destruct (getAllKeys_fails e); [by split_and!|].
  rewrite (for_of_fold (load_one e) (hydrate_step e) _ (load_one_hydrate_step e)).
  fold cacheKeys. simpl. split_and!; try done.
  apply hydrate_fold_storage.
Qed.
End Hydration.

Section ClearNamespace.
Context {T : Type} `{JSON T}.
Implicit Types (w : World T) (e : Env).

Lemma purge_frame key w :
  cacheStats (purge key w) = cacheStats w
  /\ CACHE_CONFIGS (purge key w) = CACHE_CONFIGS w
  /\ AsyncStorage (purge key w) = AsyncStorage w.
Proof. unfold purge. by destruct (Map_get key (memoryCache w)). Qed.

Lemma purge_fold_frame (keys : list string) : forall w,
  cacheStats (fold_left (fun w key => purge key w) keys w) = cacheStats w
  /\ CACHE_CONFIGS (fold_left (fun w key => purge key w) keys w) = CACHE_CONFIGS w
  /\ AsyncStorage (fold_left (fun w key => purge key w) keys w) = AsyncStorage w.
Proof.
  induction keys as [|key keys IH]; intros w; simpl; [done|].
  destruct (IH (purge key w)) as (-> & -> & ->). apply purge_frame.
Qed.

Lemma lookup_foldr_delete_keys (m : gmap string string) (keys : list string) (k : string) :
  foldr delete m keys !! k = if bool_decide (k ∈ keys) then None else m !! k.
Proof.
  induction keys as [|k' keys IH]; cbn [foldr].
  - by rewrite bool_decide_eq_false_2 by apply not_elem_of_nil.
  - destruct (decide (k = k')) as [->|Hne].
    + rewrite lookup_delete_eq. rewrite bool_decide_eq_true_2; [done|by left].
    + rewrite lookup_delete_ne by done. rewrite IH.
      destruct (decide (k ∈ keys)) as [Hin|Hnotin].
      * rewrite !bool_decide_eq_true_2; [done|by right|done].
      * rewrite !bool_decide_eq_false_2; [done| |done].
        intros [?|?]%elem_of_cons; done.
Qed.

Lemma elem_of_getAllKeys (m : gmap string string) (key : string) :
  key ∈ (map_to_list m).*1 <-> is_Some (m !! key).
Proof.
  rewrite list_elem_of_fmap. split.
  - intros ([k v] & -> & Hin). apply elem_of_map_to_list in Hin. by eauto.
  - intros [v Hv]. exists (key, v). split; [done|]. by apply elem_of_map_to_list.
Qed.

(** A persisting namespace of the declared table is neither empty nor the
    fallback name of [getNamespaceFromKey]. *)
Lemma persisting_namespace w ns :
  declared_namespaces w ->
  CacheConfig.persist (getConfig w ns) = true ->
  ns <> "default" /\ ns <> EmptyString.
Proof.
  unfold declared_namespaces, getConfig. intros Hnames Hpersist.
  destruct (Map_get ns (CACHE_CONFIGS w)) as [c|] eqn:Hget; [|done].
  apply Map_get_Some_fst in Hget. rewrite Hnames in Hget. cbn in Hget.
  repeat (apply elem_of_cons in Hget as [->|Hget]; [done|]).
  by apply not_elem_of_nil in Hget.
Qed.

Lemma namespace_is_second_segment key ns :
  ns <> "default" -> ns <> EmptyString ->
  String.eqb (getNamespaceFromKey key) ns = bool_decide (second_segment key = Some ns).
Proof.
  intros Hdefault Hempty. unfold getNamespaceFromKey, second_segment.
  destruct (split_colon key !! 1%nat) as [p|].
  - destruct (String.eqb p EmptyString) eqn:Hp.
    + apply String.eqb_eq in Hp as ->.
      rewrite bool_decide_eq_false_2 by congruence.
      apply String.eqb_neq. congruence.
    + destruct (decide (p = ns)) as [->|Hne].
      * by rewrite String.eqb_refl, bool_decide_eq_true_2.
      * rewrite bool_decide_eq_false_2 by congruence. by apply String.eqb_neq.
  - rewrite bool_decide_eq_false_2 by done. apply String.eqb_neq. congruence.
Qed.

(** C10.  For a persisting namespace, and a durable store that answers,
    [clearNamespace] deletes from the durable store exactly the keys whose
    second segment between colons is the namespace, whatever their first
    segment is: a key that does not begin with [cache:] is deleted as well. *)
Theorem clearNamespace_durable_selection e ns w :
  declared_namespaces w ->
  CacheConfig.persist (getConfig w ns) = true ->
  getAllKeys_fails e = false ->
  multiRemove_fails e = false ->
  let w' := (clearNamespace e ns w).2 in
  (clearNamespace e ns w).1 = Returned true
  /\ forall key,
       AsyncStorage w' !! key =
         if bool_decide (second_segment key = Some ns) then None
         else AsyncStorage w !! key.
Proof.
  intros Hnames Hpersist Hkeys Hremove w'. subst w'.
  destruct (persisting_namespace w ns Hnames Hpersist) as [Hdefault Hempty].
  unfold clearNamespace, AsyncStorage_getAllKeys, AsyncStorage_multiRemove.
  unfold_M. cbv beta iota zeta.
  set (w1 := fold_left (fun w key => purge key w) _ w).
  destruct (purge_fold_frame
              (List.filter (fun key => String.eqb (getNamespaceFromKey key) ns)
                           (Map_keys (memoryCache w))) w) as (_ & Hcfg & Hstore).
  fold w1 in Hcfg, Hstore.
  assert (Hconfig : getConfig w1 ns = getConfig w ns) by (unfold getConfig; by rewrite Hcfg).
  rewrite Hconfig, Hpersist, Hkeys, Hstore.
  set (selected := List.filter _ (map_to_list (AsyncStorage w)).*1).
  assert (Hselected : forall key, key ∈ selected <->
            second_segment key = Some ns /\ is_Some (AsyncStorage w !! key)).
  { intros key. unfold selected. rewrite list_elem_of_In, List.filter_In.
    rewrite (namespace_is_second_segment key ns Hdefault Hempty), bool_decide_eq_true.
    rewrite <- list_elem_of_In, elem_of_getAllKeys. tauto. }
  destruct (0 <? length selected)%nat eqn:Hlen.
  - rewrite Hremove. simpl. split; [done|]. intros key.
    rewrite Hstore, lookup_foldr_delete_keys.
    destruct (decide (second_segment key = Some ns)) as [Hseg|Hseg].
    + rewrite (bool_decide_eq_true_2 _ Hseg).
      destruct (AsyncStorage w !! key) eqn:Hlook.
      * rewrite bool_decide_eq_true_2; [done|]. apply Hselected. rewrite Hlook. by eauto.
      * by destruct (bool_decide _).
    + rewrite (bool_decide_eq_false_2 _ Hseg).
      rewrite bool_decide_eq_false_2; [done|]. intros Hin. apply Hselected in Hin. tauto.
  - simpl. split; [done|]. intros key. rewrite Hstore.
    destruct (decide (second_segment key = Some ns)) as [Hseg|Hseg].
    + rewrite (bool_decide_eq_true_2 _ Hseg).
      destruct (AsyncStorage w !! key) eqn:Hlook; [|done].
      assert (Hin : key ∈ selected) by (apply Hselected; rewrite Hlook; by eauto).
      apply Nat.ltb_ge in Hlen. destruct selected; [by apply not_elem_of_nil in Hin|].
      simpl in Hlen. lia.
    + by rewrite (bool_decide_eq_false_2 _ Hseg).
Qed.
End ClearNamespace.

(** * The claims on concrete inputs *)

Ltac compute_eq := vm_compute; reflexivity.

(** ** The records of the examples *)

Example stringify_sample :
  JSON_stringify_item sample_item = Some (
    "{" +:+ json_member "data" (dquote +:+ "apt-1" +:+ dquote) +:+
    "," +:+ json_member "timestamp" "1000" +:+
    "," +:+ json_member "ttl" "300000" +:+
    "," +:+ json_member "priority" (dquote +:+ "high" +:+ dquote) +:+
    "," +:+ json_member "accessCount" "1" +:+
    "," +:+ json_member "lastAccessed" "1000" +:+
    "," +:+ json_member "size" "7" +:+ "}").
Proof. reflexivity. Qed.

Example parse_sample :
  (text ← JSON_stringify_item sample_item; JSON_parse text) = Some sample_item.
Proof. reflexivity. Qed.

Example parse_corrupt : JSON_parse (T := Payload) "{not json" = None.
Proof. reflexivity. Qed.

(** ** Size accounting (C1) *)

Lemma purge_resident {T} `{JSON T} key (w : World T) old :
  Map_get key (memoryCache w) = Some old ->
  memoryCache (purge key w) = Map_delete key (memoryCache w)
  /\ currentMemorySize (purge key w) = currentMemorySize w + sizeOf old.
Proof.
  intros Hold. unfold purge. rewrite Hold. unfold updateMemorySize. simpl.
  split; [done|lia].
Qed.

(** Deleting a resident item adds its size to the counter: [remove] calls
    [updateMemorySize] with the item as the new item and no old item. *)
Lemma remove_grows_counter {T} `{JSON T} e ns key (w : World T) old :
  Map_get (generateKey ns key) (memoryCache w) = Some old ->
  memoryCache (remove e ns key w).2 = Map_delete (generateKey ns key) (memoryCache w)
  /\ currentMemorySize (remove e ns key w).2 = currentMemorySize w + sizeOf old.
Proof.
  intros Hold. destruct (purge_resident _ w old Hold) as [Hmem Hcount].
  unfold remove, AsyncStorage_removeItem. unfold_M.
  change (getConfig (purge (generateKey ns key) w) ns) with
    (getConfig (purge (generateKey ns key) w) ns).
  destruct (CacheConfig.persist _); [destruct (removeItem_fails _ _)|]; simpl; done.
Qed.

(** C1.  A [set] followed by a [remove] of the same key, from the empty
    cache: the hot tier is empty again, the counter stands at twice the
    size of the item.  The expiration sweep does the same to an expired
    item; the footprint shrink alone recomputes the counter. *)
Theorem size_accounting_broken_by_remove :
  let w0 := web_service ∅ in
  let w1 := (set (reliable 1000 true) "shops" "a" (PNumber 1) w0).2 in
  let w2 := (remove (reliable 2000 true) "shops" "a" w1).2 in
  let w3 := (cleanupExpired (reliable 9000000 true) w1).2 in
  accounted w0 /\ accounted w1
  /\ memoryCache w2 = [] /\ currentMemorySize w2 = 2 /\ ~ accounted w2
  /\ memoryCache w3 = [] /\ currentMemorySize w3 = 2 /\ ~ accounted w3.
Proof.
  cbv zeta. unfold accounted.
  split_and!; try compute_eq; vm_compute; discriminate.
Qed.

(** ** Admission cap (C2) *)

(** C2 as stated fails.  The namespace [user] has a cap of one item; after
    two calls of [set] with distinct keys the resident key is the older one,
    and the key that is not resident is the newer one, which the comparator
    of [evictItems] does not rank least. *)
Lemma admission_cap_counterexample :
  let w := web_service ∅ in
  let config := getConfig w "user" in
  let w' := set_each "user" two_users w in
  CacheConfig.maxSize config = 1
  /\ NoDup (two_users.*1.*2)
  /\ Map_keys (memoryCache w') = ["cache:user:a"]
  /\ Map_get (generateKey "user" "b") (memoryCache w') = None
  /\ ~ least_of (entry_of "user" config (reliable 2000 true, "b", PNumber 2))
                (map (entry_of "user" config) two_users).
Proof.
  cbv zeta. split_and!; try compute_eq.
  - apply (bool_decide_unpack _). vm_compute. exact I.
  - unfold least_of. intros Hall. apply Forall_cons in Hall as [Hle _].
    vm_compute in Hle. by apply Hle.
Qed.

(** The amended C2 on the two calls. *)
Lemma admission_cap_witness :
  let w := web_service ∅ in
  let config := getConfig w "user" in
  let first_call := (reliable 1000 true, "a", PNumber 1) in
  let last_call := (reliable 2000 true, "b", PNumber 2) in
  let w' := set_each "user" ([first_call] ++ [last_call]) w in
  Z.of_nat (length (namespaceItems "user" (memoryCache w'))) = CacheConfig.maxSize config
  /\ namespaceItems "user" (memoryCache w') = map (entry_of "user" config) [first_call]
  /\ Map_get (generateKey "user" last_call.1.2) (memoryCache w') = None
  /\ evictions (cacheStats w') = evictions (cacheStats w).
Proof.
  apply (admission_cap "user" [(reliable 1000 true, "a", PNumber 1)]
                       (reliable 2000 true, "b", PNumber 2) (web_service ∅)).
  - vm_compute; reflexivity.
  - vm_compute; reflexivity.
  - discriminate.
  - vm_compute; reflexivity.
  - vm_compute; reflexivity.
  - apply (bool_decide_unpack _). vm_compute. exact I.
  - vm_compute; reflexivity.
  - vm_compute. discriminate.
Defined.

(** ** Expiration (C3) and the counters of [get] (C4) *)

(** C3 on an item read after its [ttl]: from the hot tier, and from the
    durable store of a service that starts after the record has expired. *)
Lemma expiration_correctness_witness :
  let w := (set (reliable 1000 true) "analytics" "a" (PNumber 1) (web_service ∅)).2 in
  let e := reliable 700000 true in
  let late := reliable 1000000 true in
  let cold := new_service (T := Payload) stale_storage in
  ((get e "analytics" "a" w).1 = Returned None
   /\ Map_get (generateKey "analytics" "a") (memoryCache (get e "analytics" "a" w).2) = None)
  /\ ((get late "appointments" "apt-1" cold).1 = Returned None
      /\ AsyncStorage (get late "appointments" "apt-1" cold).2
           !! generateKey "appointments" "apt-1" = None).
Proof.
  cbv zeta. split.
  - apply (proj1 (proj2 (expiration_correctness (reliable 700000 true) "analytics" "a"
             (set (reliable 1000 true) "analytics" "a" (PNumber 1) (web_service ∅)).2))
           (new_item (reliable 1000 true) (getConfig (web_service ∅) "analytics") (PNumber 1))).
    + vm_compute; reflexivity.
    + vm_compute; reflexivity.
  - destruct (proj1 (proj2 (proj2 (expiration_correctness (reliable 1000000 true)
                "appointments" "apt-1" (new_service (T := Payload) stale_storage))))
              old_record
              (new_item (reliable 0 true) (CacheConfig.mk 300000 100 high true)
                        (PString "apt-1")))
      as [Hnull Hgone]; try (vm_compute; reflexivity).
    split; [exact Hnull|]. apply Hgone. reflexivity.
Defined.

(** C4.  An item set at instant 1000 under a [ttl] of ten minutes is read at
    instant 700000: the call returns [null] and is counted as a request,
    and neither as a hit, nor as a miss, nor as an error. *)
Theorem get_expired_hot_counts_nothing :
  let w := (set (reliable 1000 true) "analytics" "a" (PNumber 1) (web_service ∅)).2 in
  let e := reliable 700000 true in
  cacheStats w = mkStats 0 0 0 0 0
  /\ (get e "analytics" "a" w).1 = Returned None
  /\ cacheStats (get e "analytics" "a" w).2 = mkStats 0 0 0 1 0.
Proof. cbv zeta. split_and!; compute_eq. Qed.

(** ** The failure contract of [set] (C5) *)

(** C5 as stated fails.  A [BigInt] does not serialize; on the
    non-persisting namespace [shops] the call returns [true], on the
    persisting namespace [user] it returns [false], and in both the item
    enters the hot tier. *)
Lemma set_failure_contract_counterexample :
  let e := reliable 1000 true in
  let w := web_service ∅ in
  JSON_stringify (PBigInt 1) = None
  /\ (set e "shops" "k" (PBigInt 1) w).1 = Returned true
  /\ Map_get (generateKey "shops" "k") (memoryCache (set e "shops" "k" (PBigInt 1) w).2)
     = Some (new_item e (getConfig w "shops") (PBigInt 1))
  /\ (set e "user" "k" (PBigInt 1) w).1 = Returned false
  /\ Map_get (generateKey "user" "k") (memoryCache (set e "user" "k" (PBigInt 1) w).2)
     = Some (new_item e (getConfig w "user") (PBigInt 1)).
Proof. cbv zeta. split_and!; compute_eq. Qed.

(** The amended C5 on the same calls. *)
Lemma set_failure_contract_witness :
  let e := reliable 1000 true in
  let w := web_service ∅ in
  (set e "user" "k" (PBigInt 1) w).1 = Returned false
  /\ (set e "shops" "k" (PBigInt 1) w).1 = Returned true
  /\ errors (cacheStats (set e "user" "k" (PBigInt 1) w).2) = 1.
Proof.
  cbv zeta.
  pose proof (set_failure_contract (reliable 1000 true) "user" "k" (PBigInt 1) (web_service ∅))
    as (Huser & Herrors & _).
  pose proof (set_failure_contract (reliable 1000 true) "shops" "k" (PBigInt 1) (web_service ∅))
    as (Hshops & _).
  split_and!; [exact Huser | exact Hshops | exact Herrors].
Defined.

(** ** Read your write (C6) *)

(** C6 as stated fails.  The namespace [user] is at its cap after the first
    [set]; the second [set] of the same key returns [true] and the [get]
    that follows returns the first payload. *)
Lemma read_your_write_counterexample :
  let e1 := reliable 1000 true in
  let e2 := reliable 2000 true in
  let w1 := (set e1 "user" "a" (PNumber 1) (web_service ∅)).2 in
  let w2 := (set e2 "user" "a" (PNumber 2) w1).2 in
  (set e2 "user" "a" (PNumber 2) w1).1 = Returned true
  /\ (get e2 "user" "a" w2).1 = Returned (Some (PNumber 1))
  /\ (get e2 "user" "a" w2).1 <> Returned (Some (PNumber 2)).
Proof. cbv zeta. split_and!; try compute_eq. vm_compute. discriminate. Qed.

(** The amended C6: an accepted item, and an item that is refused by a cap
    of zero on the mobile platform and read back from the durable store. *)
Lemma read_your_write_witness :
  let e1 := reliable 1000 true in
  let e2 := reliable 2000 true in
  let w := web_service ∅ in
  (get e2 "appointments" "apt-1" (set e1 "appointments" "apt-1" (PString "x") w).2).1
    = Returned (Some (PString "x"))
  /\ (get e2 "user" "me" (set e1 "user" "me" (PString "x") (mobile_service ∅)).2).1
     = Returned (Some (PString "x")).
Proof.
  cbv zeta. split.
  - apply (read_your_write (reliable 1000 true) (reliable 2000 true)
             "appointments" "apt-1" (PString "x") (web_service ∅)).
    + vm_compute. discriminate.
    + left. vm_compute; reflexivity.
  - apply (read_your_write (reliable 1000 true) (reliable 2000 true)
             "user" "me" (PString "x") (mobile_service ∅)).
    + vm_compute. discriminate.
    + right. split_and!; try (vm_compute; reflexivity).
      eexists. split; vm_compute; reflexivity.
Defined.

(** ** Hydration (C7) *)

(** C7 as stated fails.  The durable store holds an expired record and a
    text that does not parse; both are still there after the hydration. *)
Lemma hydration_pass_counterexample :
  let e := reliable 1000000 true in
  let w' := (loadPersistedHighPriorityItems e (new_service (T := Payload) stale_storage)).2 in
  (exists item, JSON_parse old_record = Some item /\ isExpired e item = true)
  /\ JSON_parse (T := Payload) corrupt_record = None
  /\ AsyncStorage w' !! "cache:appointments:apt-1" = Some old_record
  /\ AsyncStorage w' !! "cache:appointments:apt-2" = Some corrupt_record.
Proof.
  cbv zeta. split_and!; try compute_eq.
  eexists. split; compute_eq.
Qed.

(** The amended C7: the same store read while the record is fresh. *)
Lemma hydration_pass_witness :
  let e := reliable 1000 true in
  let w := new_service (T := Payload) stale_storage in
  let w' := (loadPersistedHighPriorityItems e w).2 in
  AsyncStorage w' = stale_storage
  /\ Map_keys (memoryCache w') = ["cache:appointments:apt-1"].
Proof.
  cbv zeta.
  pose proof (hydration_pass (reliable 1000 true) (new_service (T := Payload) stale_storage))
    as (_ & Hstorage & _ & Hscan & _).
  split; [exact Hstorage|].
  rewrite (Hscan eq_refl). vm_compute. reflexivity.
Defined.

(** ** Footprint shrink (C8) *)

(** C8 on a hot tier of 200 items, and on an empty one. *)
Lemma footprint_shrink_witness :
  let w' := handleAppStateChange background crowded_service in
  length (memoryCache crowded_service) = 200%nat
  /\ (length (memoryCache w') <= 75)%nat
  /\ Forall (fun kv => CacheItem.priority kv.2 = high \/ CacheItem.priority kv.2 = medium)
            (memoryCache w')
  /\ handleAppStateChange inactive (web_service ∅) = web_service ∅.
Proof.
  cbv zeta.
  assert (Hsize : length (memoryCache crowded_service) = 200%nat) by (vm_compute; reflexivity).
  destruct (footprint_shrink background crowded_service (or_introl eq_refl)) as [Hbig _].
  destruct (footprint_shrink inactive (web_service ∅) (or_intror eq_refl)) as [_ Hsmall].
  split_and!.
  - exact Hsize.
  - apply Hbig. rewrite Hsize. repeat constructor.
  - apply Hbig. rewrite Hsize. repeat constructor.
  - apply Hsmall. vm_compute. repeat constructor.
Defined.

(** ** Replacement at the cap (C9) *)

(** C9 on the namespace [user], whose cap is one item. *)
Lemma replacement_denied_at_cap_witness :
  let e1 := reliable 1000 true in
  let e2 := reliable 2000 true in
  let w := (set e1 "user" "me" (PNumber 1) (web_service ∅)).2 in
  let w' := (set e2 "user" "me" (PNumber 2) w).2 in
  Map_get "cache:user:me" (memoryCache w')
    = Some (new_item e1 (getConfig (web_service ∅) "user") (PNumber 1))
  /\ memoryCache w' = memoryCache w
  /\ (exists text, JSON_stringify_item (new_item e2 (getConfig w "user") (PNumber 2)) = Some text
                   /\ AsyncStorage w' = <["cache:user:me" := text]> (AsyncStorage w)).
Proof.
  cbv zeta.
  destruct (replacement_denied_at_cap (reliable 2000 true) "user" "me" (PNumber 2)
              (set (reliable 1000 true) "user" "me" (PNumber 1) (web_service ∅)).2
              (new_item (reliable 1000 true) (getConfig (web_service ∅) "user") (PNumber 1)))
    as (Hkept & Hsame & _ & _ & _ & Hdurable).
  - reflexivity.
  - vm_compute; reflexivity.
  - vm_compute; reflexivity.
  - vm_compute; reflexivity.
  - split_and!; [exact Hkept | exact Hsame |].
    eexists. split; [vm_compute; reflexivity|].
    apply Hdurable; vm_compute; reflexivity.
Defined.

(** ** The durable keys of [clearNamespace] (C10) *)

(** C10 on a store that another writer shares. *)
Lemma clearNamespace_durable_selection_witness :
  let w := web_service shared_storage in
  let w' := (clearNamespace (reliable 1000 true) "user" w).2 in
  startsWith_cache "backup:user:2024" = false
  /\ AsyncStorage w !! "backup:user:2024" = Some "snapshot"
  /\ AsyncStorage w' !! "backup:user:2024" = None
  /\ AsyncStorage w' !! "cache:user:me" = None
  /\ AsyncStorage w' !! "cache:services:list" = Some old_record.
Proof.
  cbv zeta.
  destruct (clearNamespace_durable_selection (reliable 1000 true) "user"
              (web_service shared_storage)) as [_ Hkeys].
  - vm_compute; reflexivity.
  - vm_compute; reflexivity.
  - reflexivity.
  - reflexivity.
  - split_and!; [vm_compute; reflexivity | vm_compute; reflexivity | | | ].
    + rewrite (Hkeys "backup:user:2024"). vm_compute; reflexivity.
    + rewrite (Hkeys "cache:user:me"). vm_compute; reflexivity.
    + rewrite (Hkeys "cache:services:list"). vm_compute; reflexivity.
Defined.

(** * Further properties of the service *)

(** ** Shared steps *)

Section Steps.
Context {T : Type} `{JSON T}.
Implicit Types (w : World T) (e : Env) (m : list (string * CacheItem.t T)).

(** An unexpired item of the hot tier is returned and its access is recorded. *)
Lemma get_hot_hit e ns key w item :
  isInitialized w = true ->
  Map_get (generateKey ns key) (memoryCache w) = Some item ->
  isExpired e item = false ->
  get e ns key w =
    (Returned (Some (CacheItem.data item)),
     with_cacheStats incr_hits
       (with_memoryCache (Map_set (generateKey ns key) (updateAccess e item))
          (with_cacheStats incr_totalRequests w))).
Proof.
  intros Hinit Hmem Hlive. rewrite (get_run e ns key w Hinit). cbv zeta.
  by rewrite Hmem, Hlive.
Qed.

(** The hot tier after [set], decided by the admission check alone. *)
Lemma set_hot_tier e ns key d w :
  isInitialized w = true ->
  let cacheKey := generateKey ns key in
  let cacheItem := new_item e (getConfig w ns) d in
  let w' := (set e ns key d w).2 in
  (canAddToMemory w cacheKey cacheItem = true ->
     memoryCache w' = Map_set cacheKey cacheItem (memoryCache w)
     /\ currentMemorySize w'
        = currentMemorySize w
          + (sizeOf cacheItem
             - match Map_get cacheKey (memoryCache w) with
               | Some o => sizeOf o
               | None => 0
               end))
  /\ (canAddToMemory w cacheKey cacheItem = false ->
        memoryCache w' = memoryCache w /\ currentMemorySize w' = currentMemorySize w).
Proof.
  intros Hinit cacheKey cacheItem w'.
  destruct (set_frame e ns key d w Hinit) as (Hmem & Hcount & _).
  fold w' in Hmem, Hcount. rewrite admission_no_eviction in Hmem, Hcount.
  fold cacheKey cacheItem in Hmem, Hcount.
  split; intros Hadd; rewrite Hadd in Hmem, Hcount; by rewrite Hmem, Hcount.
Qed.

Lemma namespaceItems_Map_set_other ns k v m :
  getNamespaceFromKey k <> ns ->
  namespaceItems ns (Map_set k v m) = namespaceItems ns m.
Proof.
  intros Hother. apply String.eqb_neq in Hother.
  unfold namespaceItems. induction m as [|[k' v'] m IH]; simpl.
  - by rewrite Hother.
  - destruct (String.eqb k k') eqn:Hk; simpl.
    + apply String.eqb_eq in Hk as <-. by rewrite Hother.
    + by rewrite IH.
Qed.

Lemma Map_set_NoDup {V} k (v : V) (m : list (string * V)) :
  NoDup (Map_keys m) -> NoDup (Map_keys (Map_set k v m)).
Proof.
  unfold Map_keys. induction m as [|[k' v'] m IH]; simpl; intros Hdup.
  - apply NoDup_singleton.
  - apply NoDup_cons in Hdup as [Hnotin Hdup].
    destruct (String.eqb k k') eqn:Hk; cbn.
    + apply String.eqb_eq in Hk as ->. by apply NoDup_cons.
    + apply NoDup_cons. split; [|by apply IH].
      apply String.eqb_neq in Hk. intros Hin. apply Hnotin.
      clear IH Hdup Hnotin. induction m as [|[k0 v0] m IH]; simpl in *.
      * apply list_elem_of_singleton in Hin. congruence.
      * destruct (String.eqb k k0) eqn:Hk0; cbn in Hin |- *.
        -- apply String.eqb_eq in Hk0 as <-.
           apply elem_of_cons in Hin as [?|Hin]; [congruence|by right].
        -- apply elem_of_cons in Hin as [->|Hin]; [by left|right; by apply IH].
Qed.

Lemma Map_delete_absent {V} k (m : list (string * V)) :
  Map_get k m = None -> Map_delete k m = m.
Proof.
  induction m as [|[k' v'] m IH]; cbn [Map_get Map_delete]; [done|].
  destruct (String.eqb k k'); [done|]. intros Hn. by rewrite IH.
Qed.

Lemma Map_delete_filter {V} k (m : list (string * V)) :
  Map_delete k m = List.filter (fun kv => negb (String.eqb k kv.1)) m.
Proof.
  induction m as [|[k' v'] m IH]; simpl; [done|].
  destruct (String.eqb k k'); simpl; by rewrite IH.
Qed.

Lemma Map_get_filter_keys {V} (f : string -> bool) k (m : list (string * V)) :
  Map_get k (List.filter (fun kv => f kv.1) m) = if f k then Map_get k m else None.
Proof.
  induction m as [|[k' v'] m IH]; simpl; [by destruct (f k)|].
  destruct (f k') eqn:Hf; simpl.
  - destruct (String.eqb k k') eqn:Hk; [|done].
    apply String.eqb_eq in Hk as ->. by rewrite Hf.
  - rewrite IH. destruct (String.eqb k k') eqn:Hk; [|done].
    apply String.eqb_eq in Hk as ->. by rewrite Hf.
Qed.
End Steps.

(** ** Keys *)

(** X1.  The namespace is read back from a flattened key exactly when it
    is not empty and holds no colon; the empty namespace is read back as
    [default], whatever the local key. *)
Theorem namespace_round_trip (ns key : string) :
  (getNamespaceFromKey (generateKey ns key) = ns
   <-> colon_free ns = true /\ ns <> EmptyString)
  /\ getNamespaceFromKey (generateKey EmptyString key) = "default".
Proof.
  split; [split|].
  - intros Heq. destruct (getNamespaceFromKey_colon_free (generateKey ns key)) as [Hfree Hne].
    by rewrite Heq in Hfree, Hne.
  - intros [Hfree Hne]. by apply getNamespaceFromKey_generateKey.
  - unfold getNamespaceFromKey, generateKey. rewrite split_colon_cache. done.
Qed.

Lemma String_append_assoc (a b c : string) : (a +:+ b) +:+ c = a +:+ (b +:+ c).
Proof.
  induction a as [|x a IH]; [done|].
  change (String x ((a +:+ b) +:+ c) = String x (a +:+ (b +:+ c))). by rewrite IH.
Qed.

Section SetExtras.
Context {T : Type} `{JSON T}.
Implicit Types (w : World T) (e : Env).

(** X2.  The flattening of a namespace and a local key is not injective:
    the pair of the namespace [ns:a] and the key [b] and the pair of the
    namespace [ns] and the key [a:b] share one flattened key.  A payload
    that is set and accepted under the second pair is returned by a [get]
    under the first, within the [ttl] of the namespace of the [set]. *)
Theorem flattened_keys_collide e e' ns a b d w :
  let w1 := (initialize e w).2 in
  let local := a +:+ ":" +:+ b in
  generateKey (ns +:+ ":" +:+ a) b = generateKey ns local
  /\ (canAddToMemory w1 (generateKey ns local) (new_item e (getConfig w1 ns) d) = true ->
      Date_now e' - Date_now e <= CacheConfig.ttl (getConfig w1 ns) ->
      (get e' (ns +:+ ":" +:+ a) b (set e ns local d w).2).1 = Returned (Some d)).
Proof.
  intros w1 local.
  assert (Hkey : generateKey (ns +:+ ":" +:+ a) b = generateKey ns local).
  { unfold generateKey, local. by rewrite !String_append_assoc. }
  split; [done|]. intros Hadd Hfresh.
  destruct (initialize_returns e w) as [_ Hinit]. fold w1 in Hinit.
  rewrite set_initializes. fold w1.
  destruct (set_frame e ns local d w1 Hinit) as (_ & _ & Hinit2 & _).
  destruct (set_hot_tier e ns local d w1 Hinit) as [Haccepted _].
  destruct (Haccepted Hadd) as [Hmem _].
  rewrite (get_hot_hit e' _ b _ (new_item e (getConfig w1 ns) d) Hinit2).
  - done.
  - by rewrite Hkey, Hmem, Map_get_set_eq.
  - apply isExpired_false. simpl. lia.
Qed.

(** X3.  [set] works on one key.  Every other key keeps its entry of the
    hot tier and its record of the durable store, no entry is evicted, and
    for a namespace that does not persist the durable store is left
    untouched. *)
Theorem set_touches_one_key e ns key d w :
  let w1 := (initialize e w).2 in
  let w' := (set e ns key d w).2 in
  evictions (cacheStats w') = evictions (cacheStats w1)
  /\ (forall k, k <> generateKey ns key ->
        Map_get k (memoryCache w') = Map_get k (memoryCache w1)
        /\ AsyncStorage w' !! k = AsyncStorage w1 !! k)
  /\ (CacheConfig.persist (getConfig w1 ns) = false -> AsyncStorage w' = AsyncStorage w1).
Proof.
  intros w1 w'. subst w'.
  destruct (initialize_returns e w) as [_ Hinit]. fold w1 in Hinit.
  rewrite set_initializes. fold w1.
  split_and!.
  - by apply set_evictions.
  - intros k Hk. split.
    + destruct (set_hot_tier e ns key d w1 Hinit) as [Hyes Hno].
      destruct (canAddToMemory w1 (generateKey ns key) (new_item e (getConfig w1 ns) d)).
      * destruct (Hyes eq_refl) as [-> _]. by apply Map_get_set_ne.
      * by destruct (Hno eq_refl) as [-> _].
    + rewrite (set_run e ns key d w1 Hinit). cbv zeta.
      destruct (admission_frame e ns key d w1) as (_ & _ & _ & _ & Hs).
      repeat case_match; simpl; rewrite ?Hs; try done.
      by apply lookup_insert_ne.
  - intros Hpersist. rewrite (set_run e ns key d w1 Hinit). cbv zeta.
    destruct (admission_frame e ns key d w1) as (_ & _ & _ & _ & Hs).
    unfold write_through_fails. by rewrite Hpersist.
Qed.

(** X4.  [set] keeps every namespace that has a configured cap within it:
    a namespace (declared, or under the default policy; not a name that
    the table inherits from [Object.prototype], under which the source
    reads no cap) that holds no more entries than its [maxSize] before the
    call holds no more than its [maxSize] after it. *)
Theorem set_keeps_namespace_caps e ns key d w ns0 :
  let w1 := (initialize e w).2 in
  let w' := (set e ns key d w).2 in
  inherited ns0 = false ->
  Z.of_nat (length (namespaceItems ns0 (memoryCache w1)))
    <= CacheConfig.maxSize (getConfig w1 ns0) ->
  Z.of_nat (length (namespaceItems ns0 (memoryCache w')))
    <= CacheConfig.maxSize (getConfig w' ns0).
Proof.
  intros w1 w' _ Hcap. subst w'.
  destruct (initialize_returns e w) as [_ Hinit]. fold w1 in Hinit.
  rewrite set_initializes. fold w1.
  destruct (set_frame e ns key d w1 Hinit) as (_ & _ & _ & _ & Hcfg).
  assert (Hconfig : getConfig (set e ns key d w1).2 ns0 = getConfig w1 ns0)
    by (unfold getConfig; by rewrite Hcfg).
  rewrite Hconfig.
  destruct (set_hot_tier e ns key d w1 Hinit) as [Hyes Hno].
  destruct (canAddToMemory w1 (generateKey ns key) (new_item e (getConfig w1 ns) d)) eqn:Hadd.
  - destruct (Hyes eq_refl) as [-> _].
    destruct (decide (getNamespaceFromKey (generateKey ns key) = ns0)) as [<-|Hother].
    + apply canAddToMemory_true in Hadd as [Hbelow _].
      pose proof (namespaceItems_Map_set_length
                    (getNamespaceFromKey (generateKey ns key)) (generateKey ns key)
                    (new_item e (getConfig w1 ns) d) (memoryCache w1)).
      lia.
    + by rewrite namespaceItems_Map_set_other.
  - by destruct (Hno eq_refl) as [-> _].
Qed.
End SetExtras.

Lemma namespace_round_trip_witness :
  getNamespaceFromKey (generateKey "user" "a:b:c") = "user"
  /\ getNamespaceFromKey (generateKey "user:eu" "a") <> "user:eu"
  /\ getNamespaceFromKey (generateKey EmptyString "a") = "default".
Proof.
  split_and!.
  - apply (proj1 (namespace_round_trip "user" "a:b:c")). by split.
  - intros Heq. apply (proj1 (namespace_round_trip "user:eu" "a")) in Heq.
    destruct Heq as [Hfree _]. vm_compute in Hfree. discriminate.
  - apply (proj2 (namespace_round_trip EmptyString "a")).
Defined.

Lemma flattened_keys_collide_witness :
  let e := reliable 1000 true in
  (get e "shops:north" "42" (set e "shops" "north:42" (PNumber 7) (web_service ∅)).2).1
  = Returned (Some (PNumber 7)).
Proof.
  cbv zeta.
  apply (proj2 (flattened_keys_collide (reliable 1000 true) (reliable 1000 true)
                  "shops" "north" "42" (PNumber 7) (web_service ∅))).
  - vm_compute; reflexivity.
  - vm_compute. discriminate.
Defined.

Lemma set_touches_one_key_witness :
  let e := reliable 2000 true in
  let w := (set (reliable 1000 true) "user" "me" (PNumber 1) (web_service ∅)).2 in
  let w' := (set e "shops" "s1" (PNumber 2) w).2 in
  Map_get "cache:user:me" (memoryCache w') = Map_get "cache:user:me" (memoryCache w)
  /\ AsyncStorage w' = AsyncStorage w.
Proof.
  cbv zeta.
  destruct (set_touches_one_key (reliable 2000 true) "shops" "s1" (PNumber 2)
              (set (reliable 1000 true) "user" "me" (PNumber 1) (web_service ∅)).2)
    as (_ & Hother & Hdurable).
  split.
  - apply (Hother "cache:user:me"). vm_compute. discriminate.
  - apply Hdurable. vm_compute; reflexivity.
Defined.

Lemma set_keeps_namespace_caps_witness :
  let w := set_each "user" two_users (web_service ∅) in
  let w' := (set (reliable 3000 true) "user" "c" (PNumber 3) w).2 in
  Z.of_nat (length (namespaceItems "user" (memoryCache w')))
    <= CacheConfig.maxSize (getConfig w' "user").
Proof.
  cbv zeta.
  apply (set_keeps_namespace_caps (reliable 3000 true) "user" "c" (PNumber 3)
           (set_each "user" two_users (web_service ∅)) "user").
  - vm_compute; reflexivity.
  - vm_compute. discriminate.
Defined.

(** ** Reading *)

Section GetExtras.
Context {T : Type} `{JSON T} `{Nullable T}.
Implicit Types (w : World T) (e : Env).

Lemma sizeOf_updateAccess e (item : CacheItem.t T) : sizeOf (updateAccess e item) = sizeOf item.
Proof. done. Qed.

(** X6.  [get] keeps the byte counter equal to the sum of the resident
    sizes on every path but one: the path that finds an expired item in the
    hot tier. *)
Theorem get_preserves_accounted e ns key w :
  let w1 := (initialize e w).2 in
  accounted w1 ->
  (forall item, Map_get (generateKey ns key) (memoryCache w1) = Some item ->
                isExpired e item = false) ->
  accounted (get e ns key w).2.
Proof.
  intros w1 Hacc Hlive. unfold accounted in *.
  destruct (initialize_returns e w) as [_ Hinit]. fold w1 in Hinit.
  rewrite get_initializes. fold w1.
  rewrite (get_run e ns key w1 Hinit). cbv zeta.
  destruct (Map_get (generateKey ns key) (memoryCache w1)) as [item|] eqn:Hmem.
  - rewrite (Hlive item eq_refl). simpl.
    rewrite resident_bytes_Map_set, Hmem, sizeOf_updateAccess. lia.
  - repeat case_match; simpl; try done.
    unfold store, updateMemorySize. simpl.
    rewrite resident_bytes_Map_set, Hmem. lia.
Qed.

(** X7.  The counters of [get].  Every call returns, is counted as one
    request and evicts nothing.  A call whose result is not [null] counts
    one hit and nothing else.  A call whose result is [null] counts either
    one hit and nothing else (the payload of a hit that is itself [null]),
    or no hit and then one miss, or one error, or, when it found an expired
    item in the hot tier, nothing. *)
Theorem get_counters e ns key w :
  let w1 := (initialize e w).2 in
  let s := cacheStats w1 in
  let s' := cacheStats (get e ns key w).2 in
  let one_hit := hits s' = hits s + 1 /\ misses s' = misses s /\ errors s' = errors s in
  totalRequests s' = totalRequests s + 1
  /\ evictions s' = evictions s
  /\ match (get e ns key w).1 with
     | Returned r =>
         if strictly_null r
         then (exists d, r = Some d /\ is_null d = true /\ one_hit)
              \/ (r = None
                  /\ hits s' = hits s
                  /\ ((misses s' = misses s + 1 /\ errors s' = errors s)
                      \/ (misses s' = misses s /\ errors s' = errors s + 1)
                      \/ (misses s' = misses s /\ errors s' = errors s
                          /\ exists item,
                               Map_get (generateKey ns key) (memoryCache w1) = Some item
                               /\ isExpired e item = true)))
         else one_hit
     | Thrown => False
     end.
Proof.
  intros w1 s s' one_hit. subst s s' one_hit.
  destruct (initialize_returns e w) as [_ Hinit]. fold w1 in Hinit.
  rewrite get_initializes. fold w1.
  rewrite (get_run e ns key w1 Hinit). cbv zeta.
  assert (Hcase : forall P Q R : Prop, P \/ Q -> P \/ Q \/ R) by tauto.
  destruct (Map_get _ (memoryCache w1)) as [item|].
  - destruct (isExpired e item) eqn:Hexp; cbn [fst snd strictly_null].
    + split_and!; try done. right. split_and!; try done.
      right. right. split_and!; try done. by eauto.
    + split_and!; try done.
      destruct (is_null (CacheItem.data item)) eqn:Hnull; [|done].
      left. eexists. by split_and!.
  - repeat (case_match; simpl); split_and!; try done;
      first [ by (left; eexists; split_and!)
            | right; split_and!; try done; apply Hcase; simpl; lia ].
Qed.

(** X8.  Reading an item does not extend its life.  Under a namespace that
    has a configured [ttl] (declared, or under the default policy; not a
    name that the table inherits from [Object.prototype], under which the
    source reads no [ttl] and the item never expires), an item that [set]
    placed in the hot tier is returned by a [get] up to and including the
    instant [ttl] after the [set]; a later [get] returns [null], however
    recently the item was read. *)
Theorem get_does_not_extend_lifetime e0 e1 e2 ns key d w :
  let w1 := (initialize e0 w).2 in
  let ttl := CacheConfig.ttl (getConfig w1 ns) in
  let w2 := (set e0 ns key d w).2 in
  let w3 := (get e1 ns key w2).2 in
  inherited ns = false ->
  canAddToMemory w1 (generateKey ns key) (new_item e0 (getConfig w1 ns) d) = true ->
  Date_now e1 - Date_now e0 <= ttl ->
  ttl < Date_now e2 - Date_now e0 ->
  (get e1 ns key w2).1 = Returned (Some d)
  /\ (get e2 ns key w3).1 = Returned None
  /\ Map_get (generateKey ns key) (memoryCache (get e2 ns key w3).2) = None.
Proof.
  intros w1 ttl w2 w3 _ Hadd Hlive Hdead. subst w3 w2.
  destruct (initialize_returns e0 w) as [_ Hinit]. fold w1 in Hinit.
  rewrite set_initializes. fold w1.
  destruct (set_frame e0 ns key d w1 Hinit) as (_ & _ & Hinit2 & _).
  destruct (set_hot_tier e0 ns key d w1 Hinit) as [Haccepted _].
  destruct (Haccepted Hadd) as [Hmem _].
  set (cacheItem := new_item e0 (getConfig w1 ns) d) in *.
  rewrite (get_hot_hit e1 ns key _ cacheItem Hinit2);
    [|by rewrite Hmem, Map_get_set_eq|apply isExpired_false; simpl; fold ttl; lia].
  cbn [fst snd]. split; [done|].
  rewrite get_run by done. cbv zeta. cbn [memoryCache with_cacheStats with_memoryCache].
  rewrite Map_get_set_eq.
  assert (Hexp : isExpired e2 (updateAccess e1 cacheItem) = true).
  { unfold isExpired. simpl. fold ttl. rewrite Z.gtb_ltb. by apply Z.ltb_lt. }
  rewrite Hexp. cbn [fst snd]. split; [done|].
  unfold updateMemorySize. cbn [memoryCache with_currentMemorySize with_memoryCache with_cacheStats].
  apply Map_get_delete_eq.
Qed.

(** X9.  A durable hit fills the hot tier.  When the key is not resident
    and its durable record is read, parsed and found unexpired, [get]
    returns its payload; if the admission check accepts the record it
    becomes resident, and a following [get] is answered from the hot tier
    even when the durable store rejects every call; if the check refuses
    it the hot tier is left as it was. *)
Theorem durable_hit_rehydrates e e' ns key w text item :
  let w1 := (initialize e w).2 in
  let cacheKey := generateKey ns key in
  let w' := (get e ns key w).2 in
  Map_get cacheKey (memoryCache w1) = None ->
  CacheConfig.persist (getConfig w1 ns) = true ->
  getItem_fails e cacheKey = false ->
  truthy (AsyncStorage w1 !! cacheKey) = Some text ->
  JSON_parse text = Some item ->
  isExpired e item = false ->
  (get e ns key w).1 = Returned (Some (CacheItem.data item))
  /\ (canAddToMemory w1 cacheKey item = true ->
      Map_get cacheKey (memoryCache w') = Some item
      /\ (isExpired e' item = false ->
          (get e' ns key w').1 = Returned (Some (CacheItem.data item))))
  /\ (canAddToMemory w1 cacheKey item = false -> memoryCache w' = memoryCache w1).
Proof.
  intros w1 cacheKey w' Hmem Hpersist Hget Htext Hparse Hlive. subst w'.
  destruct (initialize_returns e w) as [_ Hinit]. fold w1 in Hinit.
  rewrite get_initializes. fold w1.
  rewrite (get_run e ns key w1 Hinit). cbv zeta. fold cacheKey.
  rewrite Hmem, Hpersist, Hget, Htext, Hparse, Hlive.
  change (canAddToMemory (with_cacheStats incr_totalRequests w1) cacheKey item)
    with (canAddToMemory w1 cacheKey item).
  cbn [fst snd]. split_and!; [done| |].
  - intros Hadd. rewrite Hadd.
    assert (Hres : Map_get cacheKey
              (memoryCache (with_cacheStats incr_hits
                 (store cacheKey item None (with_cacheStats incr_totalRequests w1))))
              = Some item).
    { unfold store, updateMemorySize. simpl. apply Map_get_set_eq. }
    split; [done|]. intros Hlive'.
    by rewrite (get_hot_hit e' ns key _ item).
  - intros Hadd. by rewrite Hadd.
Qed.

(** X10.  [get] works on one key.  Every other key keeps its entry of the
    hot tier and its record of the durable store; the record of the key
    itself is either kept or deleted, never rewritten. *)
Theorem get_touches_one_key e ns key w :
  let w1 := (initialize e w).2 in
  let cacheKey := generateKey ns key in
  let w' := (get e ns key w).2 in
  (forall k, k <> cacheKey ->
     Map_get k (memoryCache w') = Map_get k (memoryCache w1)
     /\ AsyncStorage w' !! k = AsyncStorage w1 !! k)
  /\ (AsyncStorage w' !! cacheKey = AsyncStorage w1 !! cacheKey
      \/ AsyncStorage w' !! cacheKey = None).
Proof.
  intros w1 cacheKey w'. subst w'.
  destruct (initialize_returns e w) as [_ Hinit]. fold w1 in Hinit.
  rewrite get_initializes. fold w1.
  rewrite (get_run e ns key w1 Hinit). cbv zeta. fold cacheKey.
  split.
  - intros k Hk.
    repeat (case_match; simpl); unfold store, updateMemorySize; simpl;
      rewrite ?Map_get_set_ne, ?Map_get_delete_ne, ?lookup_delete_ne by done; done.
  - repeat (case_match; simpl); rewrite ?lookup_delete_eq; auto.
Qed.
End GetExtras.

(** ** Removing *)

Section RemoveExtras.
Context {T : Type} `{JSON T}.
Implicit Types (w : World T) (e : Env) (m : list (string * CacheItem.t T)).

Lemma purge_memoryCache key w : memoryCache (purge key w) = Map_delete key (memoryCache w).
Proof. unfold purge. by destruct (Map_get key (memoryCache w)). Qed.

Lemma purge_fold_memoryCache (keys : list string) : forall w,
  memoryCache (fold_left (fun w key => purge key w) keys w)
  = List.filter (fun kv => forallb (fun key => negb (String.eqb key kv.1)) keys)
                (memoryCache w).
Proof.
  induction keys as [|key keys IH]; intros w; cbn [fold_left].
  - cbn. induction (memoryCache w) as [|kv m IHm]; [done|]. simpl. by rewrite <- IHm.
  - rewrite IH, purge_memoryCache, Map_delete_filter.
    induction (memoryCache w) as [|kv m IHm]; [done|].
    cbn [List.filter forallb]. destruct (negb (String.eqb key kv.1)); simpl; [|done].
    destruct (forallb _ keys); simpl; by rewrite IHm.
Qed.

Lemma forallb_differs (keys : list string) (k : string) :
  forallb (fun key => negb (String.eqb key k)) keys = bool_decide (k ∉ keys).
Proof.
  induction keys as [|key keys IH]; cbn [forallb].
  - symmetry. apply bool_decide_eq_true_2, not_elem_of_nil.
  - rewrite IH. destruct (String.eqb key k) eqn:Hk; cbn [negb andb].
    + apply String.eqb_eq in Hk as ->.
      rewrite bool_decide_eq_false_2; [done|]. intros Hn. apply Hn. by left.
    + apply String.eqb_neq in Hk. apply bool_decide_ext.
      rewrite not_elem_of_cons.
      split; [intros ?; split; [congruence|done]|by intros [_ ?]].
Qed.

(** X11.  [remove] deletes its key from the hot tier whatever the durable
    store does, and touches no other key.  For a namespace that persists
    it deletes the durable record and returns [true], unless the store
    rejects the removal: then it returns [false], counts one error and
    leaves the store as it was.  For a namespace that does not persist the
    store is not touched. *)
Theorem remove_effect e ns key w :
  let cacheKey := generateKey ns key in
  let persist := CacheConfig.persist (getConfig w ns) in
  let w' := (remove e ns key w).2 in
  Map_get cacheKey (memoryCache w') = None
  /\ (forall k, k <> cacheKey ->
        Map_get k (memoryCache w') = Map_get k (memoryCache w)
        /\ AsyncStorage w' !! k = AsyncStorage w !! k)
  /\ (persist = false ->
        (remove e ns key w).1 = Returned true /\ AsyncStorage w' = AsyncStorage w)
  /\ (persist = true -> removeItem_fails e cacheKey = false ->
        (remove e ns key w).1 = Returned true
        /\ AsyncStorage w' = delete cacheKey (AsyncStorage w))
  /\ (persist = true -> removeItem_fails e cacheKey = true ->
        (remove e ns key w).1 = Returned false
        /\ AsyncStorage w' = AsyncStorage w
        /\ errors (cacheStats w') = errors (cacheStats w) + 1).
Proof.
  intros cacheKey persist w'. subst w' persist.
  unfold remove, AsyncStorage_removeItem. unfold_M. fold cacheKey.
  change (getConfig (purge cacheKey w) ns) with
    (match Map_get ns (CACHE_CONFIGS (purge cacheKey w)) with
     | Some c => c | None => default_config end).
  destruct (purge_frame cacheKey w) as (Hstats & Hcfg & Hstore).
  pose proof (purge_memoryCache cacheKey w) as Hmem.
  rewrite Hcfg. fold (getConfig w ns).
  destruct (CacheConfig.persist (getConfig w ns));
    [destruct (removeItem_fails e cacheKey)|]; simpl;
    rewrite ?Hmem, ?Hstore, ?Hstats; split_and!; try done;
    try apply Map_get_delete_eq;
    intros k Hk; rewrite ?Map_get_delete_ne, ?lookup_delete_ne by done; done.
Qed.

(** X12.  Removal is idempotent and final.  On an initialized service,
    when the durable store accepts the removal, a second [remove] of the
    same key returns [true] and changes neither tier, and a [get] of the
    key returns [null]. *)
Theorem remove_idempotent_then_absent e e' e'' ns key w :
  let cacheKey := generateKey ns key in
  let w1 := (remove e ns key w).2 in
  let w2 := (remove e' ns key w1).2 in
  isInitialized w = true ->
  removeItem_fails e cacheKey = false ->
  removeItem_fails e' cacheKey = false ->
  (remove e' ns key w1).1 = Returned true
  /\ memoryCache w2 = memoryCache w1
  /\ currentMemorySize w2 = currentMemorySize w1
  /\ AsyncStorage w2 = AsyncStorage w1
  /\ (get e'' ns key w1).1 = Returned None.
Proof.
  intros cacheKey w1 w2 Hinit Hok Hok'.
  assert (Hrun : forall e0 w0, removeItem_fails e0 cacheKey = false ->
    remove e0 ns key w0 =
      (Returned true,
       if CacheConfig.persist (getConfig w0 ns)
       then with_AsyncStorage (delete cacheKey) (purge cacheKey w0)
       else purge cacheKey w0)).
  { intros e0 w0 Hok0. unfold remove, AsyncStorage_removeItem. unfold_M. fold cacheKey.
    destruct (purge_frame cacheKey w0) as (_ & Hcfg & _).
    assert (Hc : getConfig (purge cacheKey w0) ns = getConfig w0 ns)
      by (unfold getConfig; by rewrite Hcfg).
    rewrite Hc, Hok0. by destruct (CacheConfig.persist (getConfig w0 ns)). }
  subst w2 w1. rewrite (Hrun e' _ Hok'), (Hrun e w Hok).
  destruct (purge_frame cacheKey w) as (_ & Hcfg & Hstore).
  pose proof (purge_memoryCache cacheKey w) as Hmem.
  assert (Hgone : Map_get cacheKey (Map_delete cacheKey (memoryCache w)) = None)
    by apply Map_get_delete_eq.
  assert (Hpurged : forall w0, Map_get cacheKey (memoryCache w0) = None -> purge cacheKey w0 = w0).
  { intros w0 Hnone. unfold purge. rewrite Hnone.
    destruct w0 as [m ? ? ? ? ? ?]. unfold with_memoryCache.
    cbn [memoryCache cacheStats isInitialized maxMemorySize currentMemorySize
         CACHE_CONFIGS AsyncStorage] in *.
    by rewrite Map_delete_absent. }
  assert (Hinit1 : isInitialized (purge cacheKey w) = true).
  { unfold purge. by destruct (Map_get cacheKey (memoryCache w)). }
  destruct (CacheConfig.persist (getConfig w ns)) eqn:Hpersist; cbn [fst snd].
  - assert (Hc : getConfig (with_AsyncStorage (delete cacheKey) (purge cacheKey w)) ns
                 = getConfig w ns) by (unfold getConfig; simpl; by rewrite Hcfg).
    rewrite Hc, Hpersist.
    rewrite (Hpurged (with_AsyncStorage (delete cacheKey) (purge cacheKey w)))
      by (simpl; by rewrite Hmem).
    cbn [memoryCache currentMemorySize AsyncStorage with_AsyncStorage].
    rewrite delete_delete_eq. split_and!; try done.
    rewrite get_run by exact Hinit1.
    cbv zeta. fold cacheKey. cbn [memoryCache with_AsyncStorage].
    rewrite Hmem, Hgone, Hc, Hpersist. cbn [AsyncStorage with_AsyncStorage].
    rewrite lookup_delete_eq. by destruct (getItem_fails e'' cacheKey).
  - assert (Hc : getConfig (purge cacheKey w) ns = getConfig w ns)
      by (unfold getConfig; by rewrite Hcfg).
    rewrite Hc, Hpersist.
    rewrite (Hpurged (purge cacheKey w)) by (by rewrite Hmem).
    split_and!; try done.
    rewrite get_run by exact Hinit1.
    cbv zeta. fold cacheKey. by rewrite Hmem, Hgone, Hc, Hpersist.
Qed.

Lemma namespace_cleared ns (keys : list string) m :
  (forall kv, In kv m -> String.eqb (getNamespaceFromKey kv.1) ns = true -> kv.1 ∈ keys) ->
  namespaceItems ns
    (List.filter (fun kv => forallb (fun key => negb (String.eqb key kv.1)) keys) m) = [].
Proof.
  unfold namespaceItems. induction m as [|kv m IHm]; intros Hin; [done|].
  cbn [List.filter]. rewrite forallb_differs.
  destruct (bool_decide (kv.1 ∉ keys)) eqn:Hnot.
  - apply bool_decide_eq_true in Hnot. cbn [List.filter].
    destruct (String.eqb (getNamespaceFromKey kv.1) ns) eqn:Hns.
    + exfalso. apply Hnot, Hin; [by left|done].
    + apply IHm. intros kv' Hkv'. apply Hin. by right.
  - apply IHm. intros kv' Hkv'. apply Hin. by right.
Qed.

(** X13.  [clearNamespace] empties the namespace in the hot tier before it
    turns to the durable store, so also when the store fails: no entry of
    the namespace is left, and the entries of other namespaces are kept.
    For a namespace that does not persist the call returns [true] and the
    durable store is not touched. *)
Theorem clearNamespace_hot_tier e ns w :
  let w' := (clearNamespace e ns w).2 in
  namespaceItems ns (memoryCache w') = []
  /\ (forall k, getNamespaceFromKey k <> ns ->
        Map_get k (memoryCache w') = Map_get k (memoryCache w))
  /\ (CacheConfig.persist (getConfig w ns) = false ->
        (clearNamespace e ns w).1 = Returned true /\ AsyncStorage w' = AsyncStorage w).
Proof.
  intros w'.
  set (keys := List.filter (fun key => String.eqb (getNamespaceFromKey key) ns)
                           (Map_keys (memoryCache w))).
  set (w1 := fold_left (fun w key => purge key w) keys w).
  assert (Hmem : memoryCache w' = memoryCache w1).
  { subst w'. unfold clearNamespace, AsyncStorage_getAllKeys, AsyncStorage_multiRemove.
    unfold_M. cbv beta iota zeta. fold keys. fold w1.
    repeat (case_match; simplify_eq; simpl); done. }
  destruct (purge_fold_frame keys w) as (_ & Hcfg & Hstore). fold w1 in Hcfg, Hstore.
  pose proof (purge_fold_memoryCache keys w) as Hfold. fold w1 in Hfold.
  rewrite Hmem, Hfold. split_and!.
  - assert (Hin : forall kv, In kv (memoryCache w) ->
              String.eqb (getNamespaceFromKey kv.1) ns = true -> kv.1 ∈ keys).
    { intros kv Hkv Hns. unfold keys. apply list_elem_of_In, List.filter_In. split; [|done].
      unfold Map_keys. apply list_elem_of_In, list_elem_of_fmap. exists kv.
      split; [done|]. by apply list_elem_of_In. }
    by apply namespace_cleared.
  - intros k Hk.
    rewrite (Map_get_filter_keys (fun k => forallb (fun key => negb (String.eqb key k)) keys)).
    rewrite forallb_differs. rewrite bool_decide_eq_true_2; [done|].
    intros Hin. unfold keys in Hin. apply list_elem_of_In, List.filter_In in Hin as [_ Hns].
    apply String.eqb_eq in Hns. done.
  - intros Hpersist. subst w'.
    unfold clearNamespace, AsyncStorage_getAllKeys, AsyncStorage_multiRemove.
    unfold_M. cbv beta iota zeta. fold keys. fold w1.
    assert (Hc : getConfig w1 ns = getConfig w ns) by (unfold getConfig; by rewrite Hcfg).
    by rewrite Hc, Hpersist.
Qed.
End RemoveExtras.

(** ** Clearing and sweeping *)

Section SweepExtras.
Context {T : Type} `{JSON T}.
Implicit Types (w : World T) (e : Env) (m : list (string * CacheItem.t T)).

(** X14.  [clearAll], when the durable store answers: the hot tier is
    empty, the byte counter and all statistics are zero, every durable key
    that begins with [cache:] is gone and every other durable key keeps its
    record. *)
Theorem clearAll_effect e w :
  let w' := (clearAll e w).2 in
  getAllKeys_fails e = false ->
  multiRemove_fails e = false ->
  (clearAll e w).1 = Returned true
  /\ memoryCache w' = []
  /\ currentMemorySize w' = 0
  /\ cacheStats w' = mkStats 0 0 0 0 0
  /\ forall key,
       AsyncStorage w' !! key =
         if startsWith_cache key then None else AsyncStorage w !! key.
Proof.
  intros w' Hkeys Hremove. subst w'.
  unfold clearAll, AsyncStorage_getAllKeys, AsyncStorage_multiRemove.
  unfold_M. cbv beta iota zeta.
  rewrite Hkeys. cbn [AsyncStorage with_memoryCache with_currentMemorySize].
  set (selected := List.filter startsWith_cache (map_to_list (AsyncStorage w)).*1).
  assert (Hselected : forall key, key ∈ selected <->
            startsWith_cache key = true /\ is_Some (AsyncStorage w !! key)).
  { intros key. unfold selected.
    rewrite list_elem_of_In, List.filter_In, <- list_elem_of_In, elem_of_getAllKeys. tauto. }
  destruct (0 <? length selected)%nat eqn:Hlen.
  - rewrite Hremove. cbn. split_and!; try done. intros key.
    rewrite lookup_foldr_delete_keys.
    destruct (startsWith_cache key) eqn:Hprefix.
    + destruct (AsyncStorage w !! key) eqn:Hlook.
      * rewrite bool_decide_eq_true_2; [done|]. apply Hselected. rewrite Hlook. by eauto.
      * by destruct (bool_decide _).
    + rewrite bool_decide_eq_false_2; [done|].
      intros Hin. apply Hselected in Hin as [? _]. congruence.
  - cbn. split_and!; try done. intros key.
    destruct (startsWith_cache key) eqn:Hprefix; [|done].
    destruct (AsyncStorage w !! key) eqn:Hlook; [|done].
    assert (Hin : key ∈ selected) by (apply Hselected; rewrite Hlook; by eauto).
    apply Nat.ltb_ge in Hlen. destruct selected; [by apply not_elem_of_nil in Hin|].
    simpl in Hlen. lia.
Qed.

(** X15.  [clearAll], when the durable store fails: the call returns
    [false]; the hot tier and the byte counter have been cleared all the
    same, the durable store is as it was, and the statistics are neither
    reset nor given an error. *)
Theorem clearAll_failure e w :
  let w' := (clearAll e w).2 in
  getAllKeys_fails e = true
  \/ (multiRemove_fails e = true
      /\ exists key, startsWith_cache key = true /\ is_Some (AsyncStorage w !! key)) ->
  (clearAll e w).1 = Returned false
  /\ memoryCache w' = []
  /\ currentMemorySize w' = 0
  /\ cacheStats w' = cacheStats w
  /\ AsyncStorage w' = AsyncStorage w.
Proof.
  intros w' Hfail. subst w'.
  unfold clearAll, AsyncStorage_getAllKeys, AsyncStorage_multiRemove.
  unfold_M. cbv beta iota zeta.
  destruct (getAllKeys_fails e) eqn:Hkeys; [done|].
  destruct Hfail as [?|(Hremove & key & Hprefix & Hsome)]; [done|].
  cbn [AsyncStorage with_memoryCache with_currentMemorySize].
  set (selected := List.filter startsWith_cache (map_to_list (AsyncStorage w)).*1).
  assert (Hin : key ∈ selected).
  { unfold selected.
    rewrite list_elem_of_In, List.filter_In, <- list_elem_of_In, elem_of_getAllKeys. done. }
  destruct selected as [|k0 rest]; [by apply not_elem_of_nil in Hin|].
  cbn. by rewrite Hremove.
Qed.

Lemma sweep_one_run e key w :
  getItem_fails e key = false ->
  removeItem_fails e key = false ->
  sweep_one e key w = (Returned tt, sweep_step e w key).
Proof.
  intros Hget Hrm.
  unfold sweep_one, sweep_step, stale_record, AsyncStorage_getItem, AsyncStorage_removeItem.
  unfold_M. rewrite Hget.
  destruct (truthy (AsyncStorage w !! key)) as [text|]; [|done]. cbv beta iota.
  destruct (JSON_parse text) as [item|]; cbv beta iota; [|by rewrite Hrm].
  destruct (isExpired e item); [by rewrite Hrm|done].
Qed.

Lemma sweep_step_frame e w k :
  memoryCache (sweep_step e w k) = memoryCache w
  /\ currentMemorySize (sweep_step e w k) = currentMemorySize w
  /\ cacheStats (sweep_step e w k) = cacheStats w.
Proof. unfold sweep_step. by destruct (stale_record e (AsyncStorage w) k). Qed.

Lemma stale_record_ext e (s1 s2 : gmap string string) key :
  s1 !! key = s2 !! key -> stale_record (T := T) e s1 key = stale_record (T := T) e s2 key.
Proof. unfold stale_record. by intros ->. Qed.

Lemma sweep_fold_storage e (keys : list string) : forall w,
  memoryCache (fold_left (sweep_step e) keys w) = memoryCache w
  /\ currentMemorySize (fold_left (sweep_step e) keys w) = currentMemorySize w
  /\ cacheStats (fold_left (sweep_step e) keys w) = cacheStats w
  /\ forall key,
       AsyncStorage (fold_left (sweep_step e) keys w) !! key =
         if bool_decide (key ∈ keys) && stale_record (T := T) e (AsyncStorage w) key
         then None else AsyncStorage w !! key.
Proof.
  induction keys as [|k keys IH]; intros w.
  - cbn [fold_left]. by split_and!.
  - cbn [fold_left].
    destruct (IH (sweep_step e w k)) as (Hm & Hc & Hs & Hlook).
    destruct (sweep_step_frame e w k) as (Hm1 & Hc1 & Hs1).
    rewrite Hm, Hc, Hs, Hm1, Hc1, Hs1. split_and!; [done|done|done|].
    intros key. rewrite Hlook.
    destruct (decide (key = k)) as [->|Hne].
    + rewrite (bool_decide_eq_true_2 (k ∈ k :: keys)) by (by left). cbn [andb].
      unfold sweep_step.
      destruct (stale_record e (AsyncStorage w) k) eqn:Hstale.
      * cbn [AsyncStorage with_AsyncStorage].
        unfold stale_record at 1. rewrite lookup_delete_eq. cbn [truthy].
        by rewrite andb_false_r.
      * by rewrite Hstale, andb_false_r.
    + assert (Hsame : AsyncStorage (sweep_step e w k) !! key = AsyncStorage w !! key).
      { unfold sweep_step.
        destruct (stale_record e (AsyncStorage w) k); [|done]. by apply lookup_delete_ne. }
      rewrite (stale_record_ext e _ _ key Hsame), Hsame.
      replace (bool_decide (key ∈ k :: keys)) with (bool_decide (key ∈ keys)); [done|].
      apply bool_decide_ext. rewrite elem_of_cons.
      split; [by right|by intros [?|?]].
Qed.

(** X16.  The sweep of the durable store, when the store answers: of the
    keys that begin with [cache:], those whose record does not parse or has
    expired are deleted; every other record stays, the empty record among
    them, and the hot tier is not touched. *)
Theorem cleanupPersistentExpired_effect e w :
  let w' := (cleanupPersistentExpired e w).2 in
  getAllKeys_fails e = false ->
  (forall key, getItem_fails e key = false) ->
  (forall key, removeItem_fails e key = false) ->
  memoryCache w' = memoryCache w
  /\ currentMemorySize w' = currentMemorySize w
  /\ forall key,
       AsyncStorage w' !! key =
         if startsWith_cache key && stale_record (T := T) e (AsyncStorage w) key
         then None else AsyncStorage w !! key.
Proof.
  intros w' Hkeys Hget Hrm. subst w'.
  unfold cleanupPersistentExpired, AsyncStorage_getAllKeys.
  unfold try_catch, mbind, M_bind, bind, ret. rewrite Hkeys.
  rewrite (for_of_fold (sweep_one e) (sweep_step e))
    by (intros key w0; by apply sweep_one_run).
  cbn [fst snd].
  destruct (sweep_fold_storage e
              (List.filter startsWith_cache (map_to_list (AsyncStorage w)).*1) w)
    as (Hm & Hc & _ & Hlook).
  split_and!; [done|done|]. intros key. rewrite Hlook.
  destruct (startsWith_cache key) eqn:Hprefix; cbn [andb].
  - destruct (AsyncStorage w !! key) eqn:Hsome.
    + rewrite bool_decide_eq_true_2; [done|].
      rewrite list_elem_of_In, List.filter_In, <- list_elem_of_In, elem_of_getAllKeys.
      rewrite Hsome. by eauto.
    + unfold stale_record. rewrite Hsome. cbn. by rewrite andb_false_r.
  - rewrite bool_decide_eq_false_2; [done|].
    rewrite list_elem_of_In, List.filter_In. intros [_ ?]. congruence.
Qed.
End SweepExtras.

Section HotSweep.
Context {T : Type} `{JSON T}.
Implicit Types (w : World T) (e : Env) (m : list (string * CacheItem.t T)).

Lemma for_of_keeps {A X} (view : World T -> X) (body : A -> M (T := T) unit) (xs : list A) :
  (forall x w, view (body x w).2 = view w) ->
  forall w, view (for_of xs body w).2 = view w.
Proof.
  intros Hbody. induction xs as [|x xs IH]; intros w; simpl; [done|].
  unfold mbind, M_bind, bind. specialize (Hbody x w).
  destruct (body x w) as [[[]|] w1]; simpl in *; [|done].
  by rewrite IH.
Qed.

(** The durable sweep leaves the hot tier alone, whatever the store does. *)
Lemma cleanupPersistentExpired_hot_tier e w :
  memoryCache (cleanupPersistentExpired e w).2 = memoryCache w.
Proof.
  unfold cleanupPersistentExpired, AsyncStorage_getAllKeys.
  unfold try_catch, mbind, M_bind, bind, ret.
  destruct (getAllKeys_fails e); [done|].
  pose proof (for_of_keeps memoryCache (sweep_one e)
                (List.filter startsWith_cache (map_to_list (AsyncStorage w)).*1)) as Hloop.
  rewrite <- (Hloop ltac:(
    intros key w0; unfold sweep_one, AsyncStorage_getItem, AsyncStorage_removeItem;
    unfold_M; repeat (case_match; simplify_eq; simpl); done) w).
  by destruct (for_of _ _ w) as [[[]|] w1].
Qed.

Lemma unique_key_unique_entry {V} (l : list (string * V)) k a b :
  NoDup l.*1 -> In (k, a) l -> In (k, b) l -> a = b.
Proof.
  induction l as [|[k' v'] l IH]; [done|]. cbn. intros Hdup Ha Hb.
  apply NoDup_cons in Hdup as [Hnotin Hdup].
  assert (Hfst : forall v, In (k, v) l -> k ∈ l.*1).
  { intros v Hv. apply list_elem_of_fmap. exists (k, v). split; [done|]. by apply list_elem_of_In. }
  destruct Ha as [[= -> ->]|Ha], Hb as [[= ?]|Hb]; subst; try done.
  - by apply Hfst in Hb.
  - by apply Hfst in Ha.
  - by apply IH.
Qed.

(** X17.  The sweep of the hot tier.  On an empty hot tier the sweep does
    nothing at all, and the durable store is not swept either.  On a hot
    tier that holds an item, exactly the unexpired items are left, in their
    order, whatever the durable store does. *)
Theorem cleanupExpired_hot_tier e w :
  let w' := (cleanupExpired e w).2 in
  (cleanupExpired e w).1 = Returned tt
  /\ (memoryCache w = [] -> w' = w)
  /\ (memoryCache w <> [] ->
      NoDup (Map_keys (memoryCache w)) ->
      memoryCache w' = List.filter (fun kv => negb (isExpired e kv.2)) (memoryCache w)).
Proof.
  intros w'. subst w'. unfold cleanupExpired. unfold_M.
  destruct (length (memoryCache w) =? 0)%nat eqn:Hlen.
  - apply Nat.eqb_eq in Hlen. split_and!; try done.
    destruct (memoryCache w); [done|]. simpl in Hlen. lia.
  - cbv beta iota.
    assert (Hreturns : exists w2,
      cleanupPersistentExpired e (cleanupExpired_memory e w) = (Returned tt, w2)).
    { unfold cleanupPersistentExpired, AsyncStorage_getAllKeys.
      unfold try_catch, mbind, M_bind, bind, ret.
      destruct (getAllKeys_fails e); [by eauto|].
      destruct (for_of _ _ _) as [[[]|] w2]; by eauto. }
    destruct Hreturns as [w2 Hrun].
    pose proof (cleanupPersistentExpired_hot_tier e (cleanupExpired_memory e w)) as Hhot.
    rewrite Hrun in Hhot |- *. cbn [fst snd] in *.
    split_and!; [done| |].
    + intros Hnil. by rewrite Hnil in Hlen.
    + intros _ Hdup. rewrite Hhot. unfold cleanupExpired_memory.
      rewrite purge_fold_memoryCache.
      apply List.filter_ext_in. intros [k v] Hin. cbn [fst snd].
      rewrite forallb_differs.
      destruct (isExpired e v) eqn:Hexp; cbn [negb].
      * apply bool_decide_eq_false_2. intros Hnot. apply Hnot.
        apply list_elem_of_fmap. exists (k, v). split; [done|].
        apply list_elem_of_In, List.filter_In. by split.
      * apply bool_decide_eq_true_2. intros Hk.
        apply list_elem_of_fmap in Hk as ([k' v'] & Heq & Hk'). cbn in Heq. subst k'.
        apply list_elem_of_In, List.filter_In in Hk' as [Hin' Hexp']. cbn in Hexp'.
        rewrite (unique_key_unique_entry _ k v v' Hdup Hin Hin') in Hexp. congruence.
Qed.
End HotSweep.

(** ** Loading through the cache *)

Section LoaderExtras.
Context {T : Type} `{JSON T} `{Nullable T}.
Implicit Types (w : World T) (e : Env).

Lemma get_returns e ns key w : exists o, (get e ns key w).1 = Returned o.
Proof.
  destruct (initialize_returns e w) as [_ Hinit].
  rewrite get_initializes, (get_run e ns key _ Hinit). cbv zeta.
  repeat (case_match; simpl); by eauto.
Qed.

Lemma set_returns e ns key d w : exists b, (set e ns key d w).1 = Returned b.
Proof.
  destruct (initialize_returns e w) as [_ Hinit].
  rewrite set_initializes, (set_run e ns key d _ Hinit). cbv zeta.
  repeat (case_match; simpl); by eauto.
Qed.

(** X18.  [preload] never throws.  When the result of [get] is not
    [null] it returns [true] and the loader is not run.  When the result
    is [null], be it a miss or the payload of a hit that is itself [null],
    the loader is run once: if it throws, [preload] returns [false] and
    nothing is set, and if it returns a payload, [preload] is the [set] of
    that payload. *)
Theorem preload_contract e e' ns key (loader : M (T := T) T) w :
  let found := (get e ns key w).1 in
  let w1 := (get e ns key w).2 in
  (exists b, (preload e e' ns key loader w).1 = Returned b)
  /\ (forall r, found = Returned r -> strictly_null r = false ->
        preload e e' ns key loader w = (Returned true, w1))
  /\ (forall r w2, found = Returned r -> strictly_null r = true ->
        loader w1 = (Thrown, w2) ->
        preload e e' ns key loader w = (Returned false, w2))
  /\ (forall r d w2, found = Returned r -> strictly_null r = true ->
        loader w1 = (Returned d, w2) ->
        preload e e' ns key loader w = set e' ns key d w2).
Proof.
  intros found w1. subst found w1.
  unfold preload. unfold_M.
  destruct (get_returns e ns key w) as [o Ho].
  destruct (get e ns key w) as [r w1]. cbn [fst snd] in *. subst r.
  destruct (strictly_null o) eqn:Hnull.
  - destruct (loader w1) as [[d|] w2] eqn:Hload.
    + destruct (set_returns e' ns key d w2) as [b Hb].
      destruct (set e' ns key d w2) as [r w3] eqn:Hset. cbn [fst] in Hb. subst r.
      split_and!; [by eauto | | done |].
      * intros r [= <-]. by rewrite Hnull.
      * intros r d' w2' _ _ [= <- <-]. done.
    + split_and!; [by eauto | | | done].
      * intros r [= <-]. by rewrite Hnull.
      * by intros r w2' _ _ [= <-].
  - split_and!; [by eauto | done | |].
    + intros r w2 [= <-]. by rewrite Hnull.
    + intros r d w2 [= <-]. by rewrite Hnull.
Qed.

(** X19.  [getOrSet].  Without [forceRefresh], a result of [get] that is
    not [null] is returned and the fallback is not run.  With
    [forceRefresh], or when the result of [get] is [null] (a miss, or the
    payload of a hit that is itself [null]), the fallback is run: the
    payload it returns is the result, whether the [set] that follows
    succeeds or not; and when it throws, [getOrSet] throws, and nothing is
    set. *)
Theorem getOrSet_contract e e' ns key (fallback : M (T := T) T) (forceRefresh : bool) w :
  let w1 := if forceRefresh then w else (get e ns key w).2 in
  (forall d, forceRefresh = false -> (get e ns key w).1 = Returned (Some d) ->
     is_null d = false ->
     getOrSet e e' ns key fallback forceRefresh w = (Returned d, w1))
  /\ (forceRefresh = true
      \/ (exists r, (get e ns key w).1 = Returned r /\ strictly_null r = true) ->
      (forall w2, fallback w1 = (Thrown, w2) ->
         getOrSet e e' ns key fallback forceRefresh w = (Thrown, w2))
      /\ (forall d w2, fallback w1 = (Returned d, w2) ->
            getOrSet e e' ns key fallback forceRefresh w
            = (Returned d, (set e' ns key d w2).2))).
Proof.
  intros w1. subst w1. unfold getOrSet. unfold_M.
  assert (Hrefresh : forall w1,
    (forall w2, fallback w1 = (Thrown, w2) ->
       match fallback w1 with
       | (Returned d, w2) =>
           match set e' ns key d w2 with
           | (Returned _, w3) => (Returned d, w3)
           | (Thrown, w3) => (Thrown, w3)
           end
       | (Thrown, w2) => (Thrown, w2)
       end = (Thrown, w2))
    /\ (forall d w2, fallback w1 = (Returned d, w2) ->
          match fallback w1 with
          | (Returned d, w2) =>
              match set e' ns key d w2 with
              | (Returned _, w3) => (Returned d, w3)
              | (Thrown, w3) => (Thrown, w3)
              end
          | (Thrown, w2) => (Thrown, w2)
          end = (Returned d, (set e' ns key d w2).2))).
  { intros w1. split.
    - intros w2 Hfb. by rewrite Hfb.
    - intros d w2 Hfb. rewrite Hfb.
      destruct (set_returns e' ns key d w2) as [b Hb].
      destruct (set e' ns key d w2) as [r w3]. cbn [fst] in Hb. by subst r. }
  destruct forceRefresh; cbn [negb].
  - split; [done|]. intros _. apply Hrefresh.
  - destruct (get e ns key w) as [r w1]. cbn [fst snd]. split.
    + intros d _ Hr Hnull. by rewrite Hr, Hnull.
    + intros [?|(o & Hr & Hnull)]; [done|]. rewrite Hr.
      destruct o as [d|]; cbn [strictly_null] in Hnull; [rewrite Hnull|]; apply Hrefresh.
Qed.

Lemma set_errors e ns key d w :
  isInitialized w = true ->
  errors (cacheStats (set e ns key d w).2)
  = errors (cacheStats w) + (if write_through_fails e ns key d w then 1 else 0).
Proof.
  intros Hinit. rewrite (set_run e ns key d w Hinit). cbv zeta.
  destruct (admission_frame e ns key d w) as (Hstats & _).
  repeat (case_match; simpl); rewrite ?Hstats; lia.
Qed.

(** X20.  [setBatch] never throws and sets every entry, in order: a failed
    write is counted as one error and does not stop the batch. *)
Theorem setBatch_sets_every_entry ns (entries : list (Env * string * T)) w :
  let w' := (setBatch ns entries w).2 in
  isInitialized w = true ->
  (setBatch ns entries w).1 = Returned tt
  /\ w' = set_each ns entries w
  /\ errors (cacheStats w')
     = errors (cacheStats w)
       + Z.of_nat (length (List.filter
           (fun entry => write_through_fails entry.1.1 ns entry.1.2 entry.2 w) entries)).
Proof.
  intros w' Hinit. subst w'. unfold setBatch.
  revert w Hinit. induction entries as [|[[e key] d] entries IH]; intros w Hinit.
  - cbn. split_and!; try done. lia.
  - cbn [for_of set_each fst snd]. unfold_M.
    destruct (set_returns e ns key d w) as [b Hb].
    pose proof (set_errors e ns key d w Hinit) as Herr.
    destruct (set_frame e ns key d w Hinit) as (_ & _ & Hinit1 & _ & Hcfg).
    destruct (set e ns key d w) as [r w1]. cbn [fst snd] in *. subst r.
    destruct (IH w1 Hinit1) as (Hr & Hw & He).
    unfold setBatch in *. unfold_M.
    destruct (for_of entries _ w1) as [r2 w2]. cbn [fst snd] in *. subst r2.
    split_and!; [done|done|].
    rewrite He, Herr. cbn [List.filter fst snd].
    assert (Hsame : forall entry : Env * string * T,
      write_through_fails entry.1.1 ns entry.1.2 entry.2 w1
      = write_through_fails entry.1.1 ns entry.1.2 entry.2 w).
    { intros entry. unfold write_through_fails, getConfig. by rewrite Hcfg. }
    rewrite (List.filter_ext _ _ Hsame).
    destruct (write_through_fails e ns key d w); cbn [length]; lia.
Qed.
End LoaderExtras.

(** ** The life of the service *)

Section LifeExtras.
Context {T : Type} `{JSON T}.
Implicit Types (w : World T) (e : Env) (m : list (string * CacheItem.t T)).



Lemma rebuild_exact (l : list (string * CacheItem.t T)) : forall w,
  NoDup l.*1 ->
  Forall (fun kv => Map_get kv.1 (memoryCache w) = None) l ->
  memoryCache (fold_left (fun w kv => updateMemorySize kv.1 kv.2 None
                                        (with_memoryCache (Map_set kv.1 kv.2) w)) l w)
  = memoryCache w ++ l.
Proof.
  induction l as [|[k v] l IH]; intros w Hdup Hfresh; cbn [fold_left].
  - by rewrite app_nil_r.
  - cbn in Hdup. apply NoDup_cons in Hdup as [Hnotin Hdup].
    apply Forall_cons in Hfresh as [Hk Hfresh]. cbn [fst snd] in *.
    rewrite IH; [| done |].
    + cbn [memoryCache updateMemorySize with_currentMemorySize with_memoryCache].
      unfold updateMemorySize. cbn [memoryCache with_currentMemorySize with_memoryCache].
      rewrite (Map_set_fresh _ _ _ Hk). by rewrite <- app_assoc.
    + apply Forall_forall. intros [k' v'] Hin. cbn [fst].
      rewrite Forall_forall in Hfresh. specialize (Hfresh _ Hin). cbn [fst] in Hfresh.
      unfold updateMemorySize. cbn [memoryCache with_currentMemorySize with_memoryCache].
      rewrite Map_get_set_ne; [done|].
      intros ->. apply Hnotin. apply list_elem_of_fmap. by exists (k', v').
Qed.

Lemma rebuild_frame (l : list (string * CacheItem.t T)) : forall w,
  cacheStats (fold_left (fun w kv => updateMemorySize kv.1 kv.2 None
                                       (with_memoryCache (Map_set kv.1 kv.2) w)) l w)
  = cacheStats w
  /\ AsyncStorage (fold_left (fun w kv => updateMemorySize kv.1 kv.2 None
                                          (with_memoryCache (Map_set kv.1 kv.2) w)) l w)
     = AsyncStorage w.
Proof.
  induction l as [|kv l IH]; intros w; [done|]. cbn [fold_left].
  destruct (IH (updateMemorySize kv.1 kv.2 None (with_memoryCache (Map_set kv.1 kv.2) w)))
    as [-> ->]. done.
Qed.

(** X23.  The footprint shrink keeps by position, not by rank.  A hot tier
    of more than 50 items is replaced by its first 75 items of priority
    [high] or [medium], in insertion order; the byte counter is the sum of
    their sizes, and nothing is counted as an eviction. *)
Theorem reduceMemoryFootprint_keeps_first w :
  let w' := reduceMemoryFootprint w in
  NoDup (Map_keys (memoryCache w)) ->
  (50 < length (memoryCache w))%nat ->
  memoryCache w' = take 75 (List.filter keepable (memoryCache w))
  /\ currentMemorySize w' = resident_bytes (memoryCache w')
  /\ cacheStats w' = cacheStats w
  /\ AsyncStorage w' = AsyncStorage w.
Proof.
  intros w' Hdup Hbig.
  pose proof (reduceMemoryFootprint_accounted w Hdup Hbig) as Hacc.
  subst w'. unfold accounted in Hacc. unfold reduceMemoryFootprint in *.
  rewrite (proj2 (Nat.leb_gt _ _)) in * by lia.
  split_and!; [|done| |].
  - rewrite rebuild_exact; [done| |by apply Forall_forall].
    unfold Map_keys in Hdup. eapply sublist_NoDup; [exact Hdup|].
    apply fmap_sublist. etrans; [apply sublist_take|apply filter_sublist].
  - by rewrite (proj1 (rebuild_frame _ _)).
  - by rewrite (proj2 (rebuild_frame _ _)).
Qed.
End LifeExtras.

(** ** Eviction *)

Section Eviction.
Context {T : Type} `{JSON T}.
Implicit Types (w : World T) (m l : list (string * CacheItem.t T)) (x y z : string * CacheItem.t T).

(** The comparator is the lexicographic order on priority, last access and
    access count. *)
Lemma evict_compare_le x y :
  evict_compare x y <= 0 <->
  priorityOrder (CacheItem.priority x.2) < priorityOrder (CacheItem.priority y.2)
  \/ (priorityOrder (CacheItem.priority x.2) = priorityOrder (CacheItem.priority y.2)
      /\ (CacheItem.lastAccessed x.2 < CacheItem.lastAccessed y.2
          \/ (CacheItem.lastAccessed x.2 = CacheItem.lastAccessed y.2
              /\ CacheItem.accessCount x.2 <= CacheItem.accessCount y.2))).
Proof.
  unfold evict_compare. cbv zeta.
  destruct (Z.eqb_spec (priorityOrder (CacheItem.priority x.2)
                        - priorityOrder (CacheItem.priority y.2)) 0); cbn [negb]; [|lia].
  destruct (Z.eqb_spec (CacheItem.lastAccessed x.2 - CacheItem.lastAccessed y.2) 0);
    cbn [negb]; lia.
Qed.

Lemma evict_compare_total x y : evict_compare x y <= 0 \/ evict_compare y x <= 0.
Proof. rewrite !evict_compare_le. lia. Qed.

Lemma evict_compare_trans x y z :
  evict_compare x y <= 0 -> evict_compare y z <= 0 -> evict_compare x z <= 0.
Proof. rewrite !evict_compare_le. lia. Qed.

Lemma sort_insert_Permutation x l : sort_insert x l ≡ₚ x :: l.
Proof.
  induction l as [|y l IH]; simpl; [done|].
  destruct (evict_compare x y <=? 0); [done|].
  rewrite IH. apply Permutation_swap.
Qed.

Lemma sort_items_Permutation l : sort_items l ≡ₚ l.
Proof.
  unfold sort_items. induction l as [|x l IH]; simpl; [done|].
  by rewrite sort_insert_Permutation, IH.
Qed.

Lemma sort_insert_sorted x l :
  StronglySorted (fun a b => evict_compare a b <= 0) l ->
  StronglySorted (fun a b => evict_compare a b <= 0) (sort_insert x l).
Proof.
  induction l as [|y l IH]; intros Hsorted; simpl.
  - by repeat constructor.
  - apply StronglySorted_inv in Hsorted as [Htail Hy].
    destruct (Z.leb_spec (evict_compare x y) 0) as [Hle|Hgt].
    + constructor; [by constructor|]. constructor; [done|].
      eapply Forall_impl; [exact Hy|]. intros z Hz. by eapply evict_compare_trans.
    + constructor; [by apply IH|].
      rewrite sort_insert_Permutation. constructor; [|done].
      destruct (evict_compare_total x y); [lia|done].
Qed.

Lemma sort_items_sorted l :
  StronglySorted (fun a b => evict_compare a b <= 0) (sort_items l).
Proof.
  unfold sort_items. induction l as [|x l IH]; simpl; [constructor|].
  by apply sort_insert_sorted.
Qed.

Lemma sorted_app_le (R : relation (string * CacheItem.t T)) l1 l2 x y :
  StronglySorted R (l1 ++ l2) -> x ∈ l1 -> y ∈ l2 -> R x y.
Proof.
  induction l1 as [|a l1 IH]; intros Hsorted Hx Hy; [by apply not_elem_of_nil in Hx|].
  cbn in Hsorted. apply StronglySorted_inv in Hsorted as [Htail Ha].
  apply elem_of_cons in Hx as [->|Hx]; [|by apply IH].
  rewrite Forall_forall in Ha. apply Ha. apply elem_of_app. by right.
Qed.

Lemma filter_Permutation_bool {A} (f : A -> bool) (l1 l2 : list A) :
  l1 ≡ₚ l2 -> List.filter f l1 ≡ₚ List.filter f l2.
Proof.
  induction 1 as [|a l1 l2 _ IH|a b l|l1 l2 l3 _ IH1 _ IH2]; simpl.
  - done.
  - destruct (f a); by rewrite IH.
  - destruct (f a), (f b); try done. apply Permutation_swap.
  - by rewrite IH1.
Qed.

Lemma filter_comm_bool {A} (f g : A -> bool) (l : list A) :
  List.filter f (List.filter g l) = List.filter g (List.filter f l).
Proof.
  induction l as [|a l IH]; simpl; [done|].
  destruct (f a) eqn:Hf, (g a) eqn:Hg; simpl; rewrite ?Hf, ?Hg, IH; done.
Qed.

Lemma evict_fold (victims : list (string * CacheItem.t T)) : forall w,
  let w' := fold_left (fun w victim => evict_one victim w) victims w in
  memoryCache w'
  = List.filter (fun kv => forallb (fun key => negb (String.eqb key kv.1)) victims.*1)
                (memoryCache w)
  /\ evictions (cacheStats w') = evictions (cacheStats w) + Z.of_nat (length victims)
  /\ AsyncStorage w' = AsyncStorage w.
Proof.
  induction victims as [|v victims IH]; intros w; cbn [fold_left].
  - cbn. split_and!; [|lia|done].
    induction (memoryCache w) as [|kv m IHm]; [done|]. simpl. by rewrite <- IHm.
  - destruct (IH (evict_one v w)) as (Hm & He & Hs). cbv zeta in *.
    rewrite Hm, He, Hs. unfold evict_one, updateMemorySize.
    cbn [memoryCache cacheStats AsyncStorage with_cacheStats with_currentMemorySize
         with_memoryCache evictions incr_evictions].
    split_and!; [|cbn [length]; lia|done].
    rewrite Map_delete_filter. cbn [fmap list_fmap].
    induction (memoryCache w) as [|kv m IHm]; [done|].
    cbn [List.filter forallb]. destruct (negb (String.eqb v.1 kv.1)); simpl; [|done].
    destruct (forallb _ _); simpl; by rewrite IHm.
Qed.

Lemma kept_entries (l1 l2 : list (string * CacheItem.t T)) :
  NoDup (l1 ++ l2).*1 ->
  List.filter (fun kv => forallb (fun key => negb (String.eqb key kv.1)) l1.*1) (l1 ++ l2) = l2.
Proof.
  intros Hdup. rewrite fmap_app in Hdup. apply NoDup_app in Hdup as (_ & Hdisj & _).
  rewrite List.filter_app.
  assert (H1 : List.filter (fun kv => forallb (fun key => negb (String.eqb key kv.1)) l1.*1) l1
               = []).
  { assert (Hall : forall l, (forall kv, In kv l -> kv.1 ∈ l1.*1) ->
      List.filter (fun kv => forallb (fun key => negb (String.eqb key kv.1)) l1.*1) l = []).
    { induction l as [|kv l IHl]; intros Hin; [done|]. cbn [List.filter].
      rewrite forallb_differs, bool_decide_eq_false_2.
      - apply IHl. intros kv' ?. apply Hin. by right.
      - intros Hnot. apply Hnot, Hin. by left. }
    apply Hall. intros kv Hkv. apply list_elem_of_fmap. exists kv. split; [done|].
    by apply list_elem_of_In. }
  rewrite H1. cbn [app].
  induction l2 as [|kv l2 IH2]; [done|]. cbn [List.filter].
  rewrite forallb_differs, bool_decide_eq_true_2.
  - f_equal. apply IH2. intros k Hk Hk2. apply (Hdisj k Hk). cbn. by right.
  - intros Hk. apply (Hdisj _ Hk). cbn. by left.
Qed.

Lemma NoDup_Map_get {V} (l0 : list (string * V)) k v :
  NoDup l0.*1 -> In (k, v) l0 -> Map_get k l0 = Some v.
Proof.
  induction l0 as [|[k' v'] l0 IH]; [done|]. cbn. intros Hdup Hin.
  apply NoDup_cons in Hdup as [Hnotin Hdup].
  destruct Hin as [[= -> ->]|Hin]; [by rewrite String.eqb_refl|].
  destruct (String.eqb k k') eqn:Hk; [|by apply IH].
  apply String.eqb_eq in Hk as ->. exfalso. apply Hnotin.
  apply list_elem_of_fmap. exists (k', v). split; [done|]. by apply list_elem_of_In.
Qed.

(** X22.  [evictItems] on a namespace that holds more than [maxSize]
    entries leaves exactly [maxSize] of them and counts every removal as
    an eviction.  What it removes is least by the comparator: an entry
    that was removed never ranks after an entry of the namespace that was
    kept.  The entries of other namespaces are not touched. *)
Theorem evictItems_evicts_least ns maxSize w :
  let items := namespaceItems ns (memoryCache w) in
  let w' := evictItems ns maxSize w in
  NoDup (Map_keys (memoryCache w)) ->
  0 <= maxSize ->
  maxSize < Z.of_nat (length items) ->
  Z.of_nat (length (namespaceItems ns (memoryCache w'))) = maxSize
  /\ evictions (cacheStats w')
     = evictions (cacheStats w) + (Z.of_nat (length items) - maxSize)
  /\ (forall k, getNamespaceFromKey k <> ns ->
        Map_get k (memoryCache w') = Map_get k (memoryCache w))
  /\ (forall x y, x ∈ items -> y ∈ items ->
        Map_get x.1 (memoryCache w') = None ->
        Map_get y.1 (memoryCache w') = Some y.2 ->
        evict_compare x y <= 0).
Proof.
  intros items w' Hdup Hmin Hmax. unfold Map_keys in Hdup.
  subst w'. unfold evictItems. fold items.
  rewrite (proj2 (Z.leb_gt _ _)) by lia.
  set (sorted := sort_items items).
  set (n := Z.to_nat (Z.of_nat (length sorted) - maxSize)).
  pose proof (sort_items_Permutation items) as Hperm. fold sorted in Hperm.
  pose proof (sort_items_sorted items) as Hsorted. fold sorted in Hsorted.
  assert (Hlen : length sorted = length items) by (by rewrite Hperm).
  assert (Hsplit : sorted = take n sorted ++ drop n sorted) by (by rewrite take_drop).
  set (victims := take n sorted) in *. set (rest := drop n sorted) in *.
  assert (Hn : Z.of_nat n = Z.of_nat (length items) - maxSize) by (unfold n; lia).
  assert (Hvictims : length victims = n) by (unfold victims; rewrite length_take; lia).
  assert (Hrest : Z.of_nat (length rest) = maxSize)
    by (unfold rest; rewrite length_drop; lia).
  assert (Hitems_sub : forall kv, kv ∈ items -> In kv (memoryCache w)).
  { intros kv Hkv. apply list_elem_of_In in Hkv. unfold items, namespaceItems in Hkv.
    by apply List.filter_In in Hkv as [? _]. }
  assert (Hitems_ns : forall kv, kv ∈ items -> getNamespaceFromKey kv.1 = ns).
  { intros kv Hkv. apply list_elem_of_In in Hkv. unfold items, namespaceItems in Hkv.
    apply List.filter_In in Hkv as [_ Hns]. by apply String.eqb_eq. }
  assert (Hdup_items : NoDup items.*1).
  { eapply sublist_NoDup; [exact Hdup|]. apply fmap_sublist, filter_sublist. }
  assert (Hdup_sorted : NoDup (victims ++ rest).*1) by (by rewrite <- Hsplit, Hperm).
  destruct (evict_fold victims w) as (Hmem & Hev & _). cbv zeta in Hmem, Hev.
  rewrite Hmem, Hev.
  assert (Hvictim_key : forall k, k ∈ victims.*1 -> exists v, (k, v) ∈ victims /\ (k, v) ∈ items).
  { intros k Hk. apply list_elem_of_fmap in Hk as ([k' v] & Heq & Hin). cbn in Heq. subst k'.
    exists v. split; [done|]. rewrite <- Hperm, Hsplit. apply elem_of_app. by left. }
  split_and!.
  - unfold namespaceItems. rewrite filter_comm_bool. fold (namespaceItems ns (memoryCache w)).
    fold items.
    rewrite (Permutation_length (filter_Permutation_bool _ _ _
               (Permutation_sym Hperm))).
    rewrite Hsplit, kept_entries by done. done.
  - lia.
  - intros k Hk.
    rewrite (Map_get_filter_keys
               (fun k => forallb (fun key => negb (String.eqb key k)) victims.*1)).
    rewrite forallb_differs, bool_decide_eq_true_2; [done|].
    intros Hin. destruct (Hvictim_key k Hin) as (v & _ & Hkv).
    by apply Hitems_ns in Hkv.
  - intros [kx vx] [ky vy] Hx Hy. cbn [fst snd].
    rewrite !(Map_get_filter_keys
                (fun k => forallb (fun key => negb (String.eqb key k)) victims.*1)).
    rewrite !forallb_differs.
    rewrite (NoDup_Map_get _ kx vx Hdup (Hitems_sub _ Hx)).
    intros Hgone Hkept.
    destruct (decide (kx ∉ victims.*1)) as [Hnx|Hinx];
      [by rewrite (bool_decide_eq_true_2 _ Hnx) in Hgone|].
    apply dec_stable in Hinx.
    destruct (decide (ky ∉ victims.*1)) as [Hny|Hiny];
      [|by rewrite (bool_decide_eq_false_2 _ Hiny) in Hkept].
    apply (sorted_app_le (fun a b => evict_compare a b <= 0) victims rest (kx, vx) (ky, vy));
      [by rewrite <- Hsplit| |].
    + destruct (Hvictim_key kx Hinx) as (v & Hv & Hvi).
      rewrite (unique_key_unique_entry items kx vx v Hdup_items) by (by apply list_elem_of_In).
      done.
    + assert (Hy' : (ky, vy) ∈ victims ++ rest) by (by rewrite <- Hsplit, Hperm).
      apply elem_of_app in Hy' as [Hv|?]; [|done].
      exfalso. apply Hny. apply list_elem_of_fmap. by exists (ky, vy).
Qed.
End Eviction.

(** ** Accounting and exceptions *)

Section MoreExtras.
Context {T : Type} `{JSON T}.
Implicit Types (w : World T) (e : Env).

(** X5.  [set] keeps the byte counter equal to the sum of the resident
    sizes.  When the item is accepted the counter moves by the estimate of
    the new payload less the size of the item it replaces, if any; when it
    is refused the counter stays. *)
Theorem set_keeps_size_accounting e ns key d w :
  let w1 := (initialize e w).2 in
  let cacheKey := generateKey ns key in
  let w' := (set e ns key d w).2 in
  accounted w1 ->
  accounted w'
  /\ currentMemorySize w'
     = currentMemorySize w1
       + (if canAddToMemory w1 cacheKey (new_item e (getConfig w1 ns) d)
          then estimateSize d
               - match Map_get cacheKey (memoryCache w1) with
                 | Some o => sizeOf o
                 | None => 0
                 end
          else 0).
Proof.
  intros w1 cacheKey w' Hacc. split; [by apply set_preserves_accounted|].
  subst w'. destruct (initialize_returns e w) as [_ Hinit]. fold w1 in Hinit.
  rewrite set_initializes. fold w1.
  destruct (set_hot_tier e ns key d w1 Hinit) as [Hyes Hno]. fold cacheKey in Hyes, Hno.
  destruct (canAddToMemory w1 cacheKey (new_item e (getConfig w1 ns) d)).
  - destruct (Hyes eq_refl) as [_ ->]. by rewrite sizeOf_new_item.
  - destruct (Hno eq_refl) as [_ ->]. lia.
Qed.

(** X24.  [remove], [clearNamespace] and [clearAll] never throw, whatever
    the durable store does: every call returns [true] or [false]. *)
Theorem facade_never_throws e ns key w :
  (exists b, (remove e ns key w).1 = Returned b)
  /\ (exists b, (clearNamespace e ns w).1 = Returned b)
  /\ (exists b, (clearAll e w).1 = Returned b).
Proof.
  split_and!.
  - unfold remove, AsyncStorage_removeItem. unfold_M.
    repeat (case_match; simplify_eq; simpl); by eauto.
  - unfold clearNamespace, AsyncStorage_getAllKeys, AsyncStorage_multiRemove. unfold_M.
    cbv beta iota zeta.
    repeat (case_match; simplify_eq; simpl); by eauto.
  - unfold clearAll, AsyncStorage_getAllKeys, AsyncStorage_multiRemove. unfold_M.
    cbv beta iota zeta.
    repeat (case_match; simplify_eq; simpl); by eauto.
Qed.
End MoreExtras.

(** ** The application state *)

Section AppState.
Context {T : Type} `{JSON T}.
Implicit Types (w : World T) (l : list (string * CacheItem.t T)).

(** The rebuilt world, field by field. *)
Lemma rebuild_world l : forall w,
  NoDup l.*1 ->
  Forall (fun kv => Map_get kv.1 (memoryCache w) = None) l ->
  fold_left (fun w kv => updateMemorySize kv.1 kv.2 None
                           (with_memoryCache (Map_set kv.1 kv.2) w)) l w
  = with_currentMemorySize (fun c => c + resident_bytes l)
      (with_memoryCache (fun m => m ++ l) w).
Proof.
  induction l as [|[k v] l IH]; intros w Hdup Hfresh; cbn [fold_left].
  - destruct w. unfold with_currentMemorySize, with_memoryCache.
    cbn [memoryCache cacheStats isInitialized maxMemorySize currentMemorySize
         CACHE_CONFIGS AsyncStorage resident_bytes foldr].
    by rewrite app_nil_r, Z.add_0_r.
  - cbn in Hdup. apply NoDup_cons in Hdup as [Hnotin Hdup].
    apply Forall_cons in Hfresh as [Hk Hfresh]. cbn [fst snd] in *.
    rewrite IH; [| done |].
    + unfold updateMemorySize, with_currentMemorySize, with_memoryCache.
      cbn [memoryCache cacheStats isInitialized maxMemorySize currentMemorySize
           CACHE_CONFIGS AsyncStorage].
      rewrite (Map_set_fresh _ _ _ Hk), <- app_assoc.
      cbn [app resident_bytes foldr snd]. f_equal. unfold resident_bytes. lia.
    + apply Forall_forall. intros [k' v'] Hin. cbn [fst].
      rewrite Forall_forall in Hfresh. specialize (Hfresh _ Hin). cbn [fst] in Hfresh.
      unfold updateMemorySize. cbn [memoryCache with_currentMemorySize with_memoryCache].
      rewrite Map_get_set_ne; [done|].
      intros ->. apply Hnotin. apply list_elem_of_fmap. by exists (k', v').
Qed.

Lemma filter_all_bool {A} (f : A -> bool) (l : list A) :
  Forall (fun x => f x = true) l -> List.filter f l = l.
Proof.
  induction 1 as [|x l Hx _ IH]; cbn [List.filter]; [done|]. by rewrite Hx, IH.
Qed.

Lemma filter_filter_bool {A} (f : A -> bool) (l : list A) :
  Forall (fun x => f x = true) (List.filter f l).
Proof.
  induction l as [|x l IH]; cbn [List.filter]; [done|].
  destruct (f x) eqn:Hx; [by constructor | done].
Qed.

Lemma reduceMemoryFootprint_idempotent w :
  NoDup (Map_keys (memoryCache w)) ->
  reduceMemoryFootprint (reduceMemoryFootprint w) = reduceMemoryFootprint w.
Proof.
  intros Hdup.
  assert (Hkept : NoDup (take 75 (List.filter keepable (memoryCache w))).*1).
  { unfold Map_keys in Hdup. eapply sublist_NoDup; [exact Hdup|].
    apply fmap_sublist. etrans; [apply sublist_take|apply filter_sublist]. }
  assert (Hshrunk : (50 < length (memoryCache w))%nat ->
            reduceMemoryFootprint w
            = with_currentMemorySize
                (fun _ => resident_bytes (take 75 (List.filter keepable (memoryCache w))))
                (with_memoryCache
                   (fun _ => take 75 (List.filter keepable (memoryCache w))) w)).
  { intros Hbig. unfold reduceMemoryFootprint.
    rewrite (proj2 (Nat.leb_gt _ _)) by lia.
    rewrite rebuild_world; [done | done | by apply Forall_forall]. }
  destruct (decide (50 < length (memoryCache w))%nat) as [Hbig | Hsmall].
  - rewrite (Hshrunk Hbig).
    set (kept := take 75 (List.filter keepable (memoryCache w))) in *.
    unfold reduceMemoryFootprint at 1.
    cbn [memoryCache with_currentMemorySize with_memoryCache].
    destruct (length kept <=? 50)%nat eqn:Hlen; [done|].
    assert (Hsame : take 75 (List.filter keepable kept) = kept).
    { rewrite filter_all_bool.
      - apply take_ge. subst kept. rewrite length_take. lia.
      - subst kept. apply Forall_take, filter_filter_bool. }
    rewrite Hsame.
    rewrite rebuild_world; [| done | by apply Forall_forall].
    destruct w. unfold with_currentMemorySize, with_memoryCache.
    cbn [memoryCache cacheStats isInitialized maxMemorySize currentMemorySize
         CACHE_CONFIGS AsyncStorage app]. done.
  - unfold reduceMemoryFootprint at 2.
    rewrite (proj2 (Nat.leb_le _ _)) by lia. done.
Qed.

(** X25.  The change of application state is idempotent: once the service
    has answered a transition, the same transition again changes nothing,
    so a hot tier of 51 to 75 items of priority [high] or [medium] is
    rebuilt as it is; and a transition to a state other than [background]
    and [inactive] changes nothing at all. *)
Theorem handleAppStateChange_idempotent (nextAppState : AppStateStatus) w :
  NoDup (Map_keys (memoryCache w)) ->
  handleAppStateChange nextAppState (handleAppStateChange nextAppState w)
  = handleAppStateChange nextAppState w
  /\ (nextAppState <> background -> nextAppState <> inactive ->
      handleAppStateChange nextAppState w = w).
Proof.
  intros Hdup. split.
  - destruct nextAppState; cbn [handleAppStateChange]; try done;
      by apply reduceMemoryFootprint_idempotent.
  - intros Hb Hi. by destruct nextAppState.
Qed.
End AppState.

(** * The further properties on concrete inputs *)

Ltac decide_by_computation := apply (bool_decide_unpack _); vm_compute; exact I.

Lemma set_keeps_size_accounting_witness :
  let w := (set (reliable 1000 true) "shops" "a" (PString "first") (web_service ∅)).2 in
  let w' := (set (reliable 2000 true) "shops" "a" (PNumber 7) w).2 in
  accounted w' /\ currentMemorySize w = 7 /\ currentMemorySize w' = 1.
Proof.
  cbv zeta.
  destruct (set_keeps_size_accounting (reliable 2000 true) "shops" "a" (PNumber 7)
              (set (reliable 1000 true) "shops" "a" (PString "first") (web_service ∅)).2)
    as [Hacc Hcount].
  - vm_compute; reflexivity.
  - split_and!; [exact Hacc | vm_compute; reflexivity |].
    rewrite Hcount. vm_compute; reflexivity.
Defined.

Lemma get_preserves_accounted_witness :
  let w := (set (reliable 1000 true) "shops" "a" (PNumber 7) (web_service ∅)).2 in
  accounted (get (reliable 2000 true) "shops" "a" w).2.
Proof.
  cbv zeta.
  apply (get_preserves_accounted (reliable 2000 true) "shops" "a"
           (set (reliable 1000 true) "shops" "a" (PNumber 7) (web_service ∅)).2).
  - vm_compute; reflexivity.
  - intros item Hitem. vm_compute in Hitem. injection Hitem as <-. vm_compute; reflexivity.
Defined.

Lemma get_counters_witness :
  let e := reliable 1000 true in
  let w := (set e "shops" "n" PNull (web_service ∅)).2 in
  (get e "shops" "n" w).1 = Returned (Some PNull)
  /\ hits (cacheStats (get e "shops" "n" w).2) = 1
  /\ misses (cacheStats (get e "shops" "n" w).2) = 0.
Proof.
  cbv zeta.
  pose proof (get_counters (reliable 1000 true) "shops" "n"
                (set (reliable 1000 true) "shops" "n" PNull (web_service ∅)).2)
    as (_ & _ & Hcase).
  cbv zeta in Hcase.
  assert (Hget : (get (reliable 1000 true) "shops" "n"
                    (set (reliable 1000 true) "shops" "n" PNull (web_service ∅)).2).1
                 = Returned (Some PNull)) by (vm_compute; reflexivity).
  rewrite Hget in Hcase. cbn [strictly_null is_null Payload_Nullable] in Hcase.
  destruct Hcase as [(d & _ & _ & Hhits & Hmisses & _) | [Hnone _]]; [|discriminate].
  split_and!; [exact Hget | |].
  - rewrite Hhits. vm_compute; reflexivity.
  - rewrite Hmisses. vm_compute; reflexivity.
Defined.

Lemma get_does_not_extend_lifetime_witness :
  let w2 := (set (reliable 1000 true) "analytics" "a" (PNumber 1) (web_service ∅)).2 in
  let w3 := (get (reliable 601000 true) "analytics" "a" w2).2 in
  (get (reliable 601000 true) "analytics" "a" w2).1 = Returned (Some (PNumber 1))
  /\ (get (reliable 601001 true) "analytics" "a" w3).1 = Returned None.
Proof.
  cbv zeta.
  destruct (get_does_not_extend_lifetime (reliable 1000 true) (reliable 601000 true)
              (reliable 601001 true) "analytics" "a" (PNumber 1) (web_service ∅))
    as (Hlive & Hdead & _).
  - vm_compute; reflexivity.
  - vm_compute; reflexivity.
  - vm_compute. discriminate.
  - vm_compute; reflexivity.
  - split; [exact Hlive | exact Hdead].
Defined.

Lemma durable_hit_rehydrates_witness :
  let w := web_service services_storage in
  let w' := (get (reliable 1000 true) "services" "list" w).2 in
  Map_get "cache:services:list" (memoryCache w) = None
  /\ (get (reliable 1000 true) "services" "list" w).1 = Returned (Some (PString "list"))
  /\ (get (broken 2000 true) "services" "list" w').1 = Returned (Some (PString "list")).
Proof.
  cbv zeta.
  destruct (durable_hit_rehydrates (reliable 1000 true) (broken 2000 true)
              "services" "list" (web_service services_storage) services_record
              (new_item (reliable 0 true) (CacheConfig.mk 1800000 50 medium true)
                        (PString "list")))
    as (Hfirst & Hhot & _); [vm_compute; reflexivity.. |].
  split_and!; [vm_compute; reflexivity | exact Hfirst |].
  apply Hhot; vm_compute; reflexivity.
Defined.

Lemma get_touches_one_key_witness :
  let w := web_service services_storage in
  let w' := (get (reliable 9000000 true) "services" "list" w).2 in
  AsyncStorage w' !! "settings" = Some "dark"
  /\ AsyncStorage w' !! "cache:services:list" = None.
Proof.
  cbv zeta.
  destruct (get_touches_one_key (reliable 9000000 true) "services" "list"
              (web_service services_storage)) as [Hother _].
  split.
  - rewrite (proj2 (Hother "settings" ltac:(vm_compute; discriminate))).
    vm_compute; reflexivity.
  - vm_compute; reflexivity.
Defined.

Lemma remove_effect_witness :
  let w := (set (reliable 1000 true) "user" "me" (PNumber 1) (web_service services_storage)).2 in
  let w' := (remove (reliable 2000 true) "user" "me" w).2 in
  Map_get "cache:user:me" (memoryCache w') = None
  /\ AsyncStorage w' !! "cache:user:me" = None
  /\ AsyncStorage w' !! "settings" = Some "dark"
  /\ (remove (broken 2000 true) "user" "me" w).1 = Returned false.
Proof.
  cbv zeta.
  destruct (remove_effect (reliable 2000 true) "user" "me"
              (set (reliable 1000 true) "user" "me" (PNumber 1)
                   (web_service services_storage)).2)
    as (Hgone & Hother & _ & Hdurable & _).
  destruct (remove_effect (broken 2000 true) "user" "me"
              (set (reliable 1000 true) "user" "me" (PNumber 1)
                   (web_service services_storage)).2)
    as (_ & _ & _ & _ & Hbroken).
  split_and!.
  - exact Hgone.
  - destruct Hdurable as [_ ->]; [vm_compute; reflexivity..|]. apply lookup_delete_eq.
  - rewrite (proj2 (Hother "settings" ltac:(vm_compute; discriminate))).
    vm_compute; reflexivity.
  - apply Hbroken; vm_compute; reflexivity.
Defined.

Lemma remove_idempotent_then_absent_witness :
  let w := (set (reliable 1000 true) "user" "me" (PNumber 1) (web_service ∅)).2 in
  let w1 := (remove (reliable 2000 true) "user" "me" w).2 in
  (remove (reliable 3000 true) "user" "me" w1).1 = Returned true
  /\ (get (reliable 4000 true) "user" "me" w1).1 = Returned None.
Proof.
  cbv zeta.
  destruct (remove_idempotent_then_absent (reliable 2000 true) (reliable 3000 true)
              (reliable 4000 true) "user" "me"
              (set (reliable 1000 true) "user" "me" (PNumber 1) (web_service ∅)).2)
    as (Hagain & _ & _ & _ & Habsent); [vm_compute; reflexivity.. |].
  split; [exact Hagain | exact Habsent].
Defined.

Lemma clearNamespace_hot_tier_witness :
  let w := (set (reliable 1000 true) "user" "me" (PNumber 1) three_shops).2 in
  let w' := (clearNamespace (broken 2000 true) "shops" w).2 in
  length (namespaceItems "shops" (memoryCache w)) = 3%nat
  /\ namespaceItems "shops" (memoryCache w') = []
  /\ Map_get "cache:user:me" (memoryCache w') = Map_get "cache:user:me" (memoryCache w).
Proof.
  cbv zeta.
  destruct (clearNamespace_hot_tier (broken 2000 true) "shops"
              (set (reliable 1000 true) "user" "me" (PNumber 1) three_shops).2)
    as (Hempty & Hother & _).
  split_and!; [vm_compute; reflexivity | exact Hempty |].
  apply Hother. vm_compute. discriminate.
Defined.

Lemma clearAll_effect_witness :
  let w := (set (reliable 1000 true) "user" "me" (PNumber 1) (web_service services_storage)).2 in
  let w' := (clearAll (reliable 2000 true) w).2 in
  memoryCache w' = []
  /\ AsyncStorage w' !! "cache:user:me" = None
  /\ AsyncStorage w' !! "settings" = Some "dark".
Proof.
  cbv zeta.
  destruct (clearAll_effect (reliable 2000 true)
              (set (reliable 1000 true) "user" "me" (PNumber 1)
                   (web_service services_storage)).2)
    as (_ & Hmem & _ & _ & Hkeys); [reflexivity.. |].
  split_and!; [exact Hmem | |].
  - rewrite (Hkeys "cache:user:me"). vm_compute; reflexivity.
  - rewrite (Hkeys "settings"). vm_compute; reflexivity.
Defined.

Lemma clearAll_failure_witness :
  let w := (get (reliable 1000 true) "services" "list" (web_service services_storage)).2 in
  let w' := (clearAll (broken 2000 true) w).2 in
  (clearAll (broken 2000 true) w).1 = Returned false
  /\ memoryCache w' = []
  /\ hits (cacheStats w') = 1
  /\ AsyncStorage w' = services_storage.
Proof.
  cbv zeta.
  destruct (clearAll_failure (broken 2000 true)
              (get (reliable 1000 true) "services" "list" (web_service services_storage)).2)
    as (Hfalse & Hmem & _ & Hstats & Hstore).
  - left. reflexivity.
  - split_and!; [exact Hfalse | exact Hmem | |].
    + rewrite Hstats. vm_compute; reflexivity.
    + rewrite Hstore. vm_compute; reflexivity.
Defined.

Lemma cleanupPersistentExpired_effect_witness :
  let w := new_service (T := Payload) stale_storage in
  let w' := (cleanupPersistentExpired (reliable 1000000 true) w).2 in
  AsyncStorage w' !! "cache:appointments:apt-1" = None
  /\ AsyncStorage w' !! "cache:appointments:apt-2" = None
  /\ AsyncStorage (cleanupPersistentExpired (reliable 1000 true) w).2
       !! "cache:appointments:apt-1" = Some old_record.
Proof.
  cbv zeta.
  destruct (cleanupPersistentExpired_effect (reliable 1000000 true)
              (new_service (T := Payload) stale_storage)) as (_ & _ & Hlate); [done.. |].
  destruct (cleanupPersistentExpired_effect (reliable 1000 true)
              (new_service (T := Payload) stale_storage)) as (_ & _ & Hearly); [done.. |].
  split_and!.
  - rewrite (Hlate "cache:appointments:apt-1"). vm_compute; reflexivity.
  - rewrite (Hlate "cache:appointments:apt-2"). vm_compute; reflexivity.
  - rewrite (Hearly "cache:appointments:apt-1"). vm_compute; reflexivity.
Defined.

Lemma cleanupExpired_hot_tier_witness :
  let w := (set (reliable 500000 true) "analytics" "new" (PNumber 2)
              (set (reliable 1000 true) "analytics" "old" (PNumber 1) (web_service ∅)).2).2 in
  let e := reliable 700000 true in
  Map_keys (memoryCache (cleanupExpired e w).2) = ["cache:analytics:new"]
  /\ (cleanupExpired (reliable 9000000 true) (new_service (T := Payload) stale_storage)).2
     = new_service stale_storage.
Proof.
  cbv zeta.
  destruct (cleanupExpired_hot_tier (reliable 700000 true)
              (set (reliable 500000 true) "analytics" "new" (PNumber 2)
                 (set (reliable 1000 true) "analytics" "old" (PNumber 1) (web_service ∅)).2).2)
    as (_ & _ & Hhot).
  destruct (cleanupExpired_hot_tier (reliable 9000000 true)
              (new_service (T := Payload) stale_storage)) as (_ & Hempty & _).
  split.
  - rewrite Hhot; [vm_compute; reflexivity | vm_compute; discriminate | decide_by_computation].
  - apply Hempty. reflexivity.
Defined.

Lemma preload_contract_witness :
  let e := reliable 1000 true in
  let e' := reliable 2000 true in
  let w := web_service ∅ in
  let w1 := (preload e e "app" "init" (loads (PNumber 1)) w).2 in
  let wn := (set e "app" "flag" PNull w).2 in
  (preload e e "app" "init" (loads (PNumber 1)) w).1 = Returned true
  /\ preload e' e' "app" "init" fails w1 = (Returned true, (get e' "app" "init" w1).2)
  /\ (preload e e "app" "init" fails w).1 = Returned false
  /\ (get e' "app" "flag" wn).1 = Returned (Some PNull)
  /\ (preload e' e' "app" "flag" fails wn).1 = Returned false.
Proof.
  cbv zeta.
  destruct (preload_contract (reliable 1000 true) (reliable 1000 true) "app" "init"
              (loads (PNumber 1)) (web_service ∅)) as (_ & _ & _ & Hloaded).
  destruct (preload_contract (reliable 2000 true) (reliable 2000 true) "app" "init" fails
              (preload (reliable 1000 true) (reliable 1000 true) "app" "init"
                       (loads (PNumber 1)) (web_service ∅)).2) as (_ & Hcached & _).
  destruct (preload_contract (reliable 1000 true) (reliable 1000 true) "app" "init" fails
              (web_service ∅)) as (_ & _ & Hthrown & _).
  destruct (preload_contract (reliable 2000 true) (reliable 2000 true) "app" "flag" fails
              (set (reliable 1000 true) "app" "flag" PNull (web_service ∅)).2)
    as (_ & _ & Hnull & _).
  split_and!.
  - rewrite (Hloaded None (PNumber 1) _ ltac:(vm_compute; reflexivity) eq_refl eq_refl).
    vm_compute; reflexivity.
  - apply (Hcached (Some (PNumber 1))); vm_compute; reflexivity.
  - rewrite (Hthrown None _ ltac:(vm_compute; reflexivity) eq_refl eq_refl). reflexivity.
  - vm_compute; reflexivity.
  - rewrite (Hnull (Some PNull) _ ltac:(vm_compute; reflexivity) eq_refl eq_refl).
    reflexivity.
Defined.

Lemma getOrSet_contract_witness :
  let e := reliable 1000 true in
  let w := web_service ∅ in
  let w1 := (set e "shops" "a" (PNumber 1) w).2 in
  let wn := (set e "shops" "n" PNull w).2 in
  (getOrSet e e "shops" "a" fails false w1).1 = Returned (PNumber 1)
  /\ (getOrSet e e "shops" "a" (loads (PNumber 2)) true w1).1 = Returned (PNumber 2)
  /\ (getOrSet e e "shops" "a" fails false w).1 = Thrown
  /\ (get e "shops" "n" wn).1 = Returned (Some PNull)
  /\ (getOrSet e e "shops" "n" (loads (PNumber 3)) false wn).1 = Returned (PNumber 3).
Proof.
  cbv zeta.
  destruct (getOrSet_contract (reliable 1000 true) (reliable 1000 true) "shops" "a" fails false
              (set (reliable 1000 true) "shops" "a" (PNumber 1) (web_service ∅)).2)
    as [Hcached _].
  destruct (getOrSet_contract (reliable 1000 true) (reliable 1000 true) "shops" "a"
              (loads (PNumber 2)) true
              (set (reliable 1000 true) "shops" "a" (PNumber 1) (web_service ∅)).2)
    as [_ Hforced].
  destruct (getOrSet_contract (reliable 1000 true) (reliable 1000 true) "shops" "a" fails false
              (web_service ∅)) as [_ Habsent].
  destruct (getOrSet_contract (reliable 1000 true) (reliable 1000 true) "shops" "n"
              (loads (PNumber 3)) false
              (set (reliable 1000 true) "shops" "n" PNull (web_service ∅)).2)
    as [_ Hnull].
  split_and!.
  - by rewrite (Hcached (PNumber 1) eq_refl ltac:(vm_compute; reflexivity) eq_refl).
  - destruct Hforced as [_ Hreturned]; [by left |].
    by rewrite (Hreturned (PNumber 2) _ eq_refl).
  - destruct Habsent as [Hthrown _].
    + right. exists None. split; [vm_compute; reflexivity | reflexivity].
    + by rewrite (Hthrown _ eq_refl).
  - vm_compute; reflexivity.
  - destruct Hnull as [_ Hreturned].
    + right. exists (Some PNull). split; [vm_compute; reflexivity | reflexivity].
    + by rewrite (Hreturned (PNumber 3) _ eq_refl).
Defined.

Lemma setBatch_sets_every_entry_witness :
  let unwritable := mkEnv 1500 true false (fun _ => false) (fun _ => true) (fun _ => false) false in
  let entries := [ (unwritable, "a", PNumber 1); (reliable 2000 true, "b", PNumber 2) ] in
  let w' := (setBatch "services" entries (web_service ∅)).2 in
  Map_keys (memoryCache w') = ["cache:services:a"; "cache:services:b"]
  /\ errors (cacheStats w') = 1
  /\ AsyncStorage w' !! "cache:services:a" = None
  /\ is_Some (AsyncStorage w' !! "cache:services:b").
Proof.
  cbv zeta.
  destruct (setBatch_sets_every_entry "services"
              [ (mkEnv 1500 true false (fun _ => false) (fun _ => true) (fun _ => false) false,
                 "a", PNumber 1);
                (reliable 2000 true, "b", PNumber 2) ]
              (web_service ∅)) as (_ & Hworld & Herrors).
  - vm_compute; reflexivity.
  - split_and!.
    + rewrite Hworld. vm_compute; reflexivity.
    + rewrite Herrors. vm_compute; reflexivity.
    + rewrite Hworld. vm_compute; reflexivity.
    + rewrite Hworld. vm_compute. by eauto.
Defined.


Lemma evictItems_evicts_least_witness :
  let w' := evictItems "shops" 1 three_shops in
  Map_keys (memoryCache three_shops)
    = ["cache:shops:k0"; "cache:shops:k1"; "cache:shops:k2"]
  /\ Z.of_nat (length (namespaceItems "shops" (memoryCache w'))) = 1
  /\ evictions (cacheStats w') = 2.
Proof.
  cbv zeta.
  destruct (evictItems_evicts_least "shops" 1 three_shops) as (Hleft & Hcount & _).
  - decide_by_computation.
  - lia.
  - vm_compute; reflexivity.
  - split_and!; [vm_compute; reflexivity | exact Hleft |].
    rewrite Hcount. vm_compute; reflexivity.
Defined.

Lemma reduceMemoryFootprint_keeps_first_witness :
  let w' := reduceMemoryFootprint crowded_service in
  memoryCache w' = take 75 (List.filter keepable (memoryCache crowded_service))
  /\ currentMemorySize w' = resident_bytes (memoryCache w').
Proof.
  cbv zeta.
  destruct (reduceMemoryFootprint_keeps_first crowded_service) as (Hkept & Hbytes & _).
  - decide_by_computation.
  - vm_compute. lia.
  - split; [exact Hkept | exact Hbytes].
Defined.

Lemma handleAppStateChange_idempotent_witness :
  let w := handleAppStateChange background crowded_service in
  handleAppStateChange background w = w
  /\ handleAppStateChange active crowded_service = crowded_service
  /\ (length (memoryCache crowded_service), length (memoryCache w)) = (200%nat, 75%nat).
Proof.
  cbv zeta.
  destruct (handleAppStateChange_idempotent background crowded_service) as [Hagain _].
  - decide_by_computation.
  - destruct (handleAppStateChange_idempotent active crowded_service) as [_ Hactive].
    + decide_by_computation.
    + split_and!; [exact Hagain | by apply Hactive | vm_compute; reflexivity].
Defined.
